(** * h11: the Connection object ([h11/_connection.py])

    A shallow embedding of the sans-I/O HTTP/1.1 connection object and the
    properties its specification states about it.

    Python values are embedded as follows.
    - [bytes] objects are strings of 8-bit characters; comparison [<] on
      bytes is the lexicographic order on byte values.
    - A method that may raise is a function into [Exc + A]; a method of
      [Connection] is a state transformer that also returns the state the
      exception left behind, because attribute updates made before a
      [raise] stay visible to the [except] clause and to the caller.
    - The reader and writer registries ([READERS], [WRITERS]) are
      parameters: the connection object only looks codecs up and calls
      them. *)

From stdpp Require Import base gmap sets list strings.
From Stdlib Require Import ZArith Ascii String Lia DecimalString HexadecimalString.

#[local] Open Scope string_scope.
#[local] Open Scope list_scope.
#[local] Open Scope Z_scope.

(** ** Python bytes *)

Abbreviation bytes := string.

Definition byte_val (c : ascii) : N := N_of_ascii c.

(** [bytes.lower()]: ASCII upper-case letters are mapped to lower case. *)
Definition lower_byte (c : ascii) : ascii :=
  if ((65 <=? byte_val c) && (byte_val c <=? 90))%N
  then ascii_of_N (byte_val c + 32) else c.

Fixpoint lower (s : bytes) : bytes :=
  match s with
  | EmptyString => EmptyString
  | String c s' => String (lower_byte c) (lower s')
  end.

(** ASCII whitespace, as removed by [bytes.strip()]: space, \t, \n, \r,
    \x0b and \x0c. *)
Definition is_space (c : ascii) : bool :=
  ((byte_val c =? 32) || ((9 <=? byte_val c) && (byte_val c <=? 13)))%N.

Fixpoint lstrip (s : bytes) : bytes :=
  match s with
  | EmptyString => EmptyString
  | String c s' => if is_space c then lstrip s' else s
  end.

Fixpoint rstrip (s : bytes) : bytes :=
  match s with
  | EmptyString => EmptyString
  | String c s' =>
      match rstrip s' with
      | EmptyString => if is_space c then EmptyString else String c EmptyString
      | r => String c r
      end
  end.

Definition strip (s : bytes) : bytes := rstrip (lstrip s).

Definition is_comma (c : ascii) : bool := (byte_val c =? 44)%N.

(** [s.split(b",")]: never empty, [b"".split(b",") == [b""]]. *)
Fixpoint split_comma (s : bytes) : list bytes :=
  match s with
  | EmptyString => [EmptyString]
  | String c s' =>
      if is_comma c then EmptyString :: split_comma s'
      else match split_comma s' with
           | p :: ps => String c p :: ps
           | [] => [String c EmptyString]
           end
  end.

Fixpoint has_comma (s : bytes) : bool :=
  match s with
  | EmptyString => false
  | String c s' => is_comma c || has_comma s'
  end.

(** [a < b] on bytes. *)
Fixpoint bytes_ltb (a b : bytes) : bool :=
  match a, b with
  | _, EmptyString => false
  | EmptyString, String _ _ => true
  | String x a', String y b' =>
      if (byte_val x <? byte_val y)%N then true
      else if (byte_val y <? byte_val x)%N then false
      else bytes_ltb a' b'
  end.

Definition bytes_eqb (a b : bytes) : bool := bool_decide (a = b).

(** [x in l] for a list of bytes. *)
Definition bytes_in (x : bytes) (l : list bytes) : bool := bool_decide (x ∈ l).

(** [int(b)] for a bytes argument: surrounding whitespace is ignored, one
    sign is allowed, then decimal digits, with single underscores allowed
    between digits; anything else raises [ValueError] ([None] here). *)
Definition is_digit (c : ascii) : bool :=
  ((48 <=? byte_val c) && (byte_val c <=? 57))%N.

Definition digit_val (c : ascii) : Z := Z.of_N (byte_val c) - 48.

Fixpoint int_digits (s : bytes) (acc : Z) (after_digit : bool) : option Z :=
  match s with
  | EmptyString => if after_digit then Some acc else None
  | String c s' =>
      if is_digit c then int_digits s' (acc * 10 + digit_val c) true
      else if (byte_val c =? 95)%N && after_digit then int_digits s' acc false
      else None
  end.

Definition py_int (s : bytes) : option Z :=
  match strip s with
  | String c r =>
      if (byte_val c =? 43)%N then int_digits r 0 false
      else if (byte_val c =? 45)%N then Z.opp <$> int_digits r 0 false
      else int_digits (String c r) 0 false
  | EmptyString => None
  end.

(** [sorted(l)] for a list of bytes. *)
Fixpoint sorted_insert (x : bytes) (l : list bytes) : list bytes :=
  match l with
  | [] => [x]
  | y :: l' => if bytes_ltb y x then y :: sorted_insert x l' else x :: l
  end.

Definition py_sorted (l : list bytes) : list bytes := foldr sorted_insert [] l.

(** Modelled from the spec: [ReceiveBuffer] ([h11/_receivebuffer.py] is not
    available), a byte container to which bytes are appended and from which
    the readers consume a prefix.  It is represented by its unconsumed
    contents, on which compaction (dropping the bytes already consumed)
    changes nothing. *)
Abbreviation ReceiveBuffer := bytes.
Definition rb_append (buf : ReceiveBuffer) (data : bytes) : ReceiveBuffer :=
  (buf ++ data)%string.
Definition rb_compress (buf : ReceiveBuffer) : ReceiveBuffer := buf.
Definition rb_len (buf : ReceiveBuffer) : Z := Z.of_nat (String.length buf).
(** Truth value of a bytes-like object: non-empty. *)
Definition py_bool (b : bytes) : bool :=
  match b with EmptyString => false | String _ _ => true end.

(** ** Exceptions *)

Inductive Exc : Type :=
| ProtocolError (msg : string) (error_status_hint : option Z)
| AssertionError
| RuntimeError (msg : string)
| ValueError.

Definition is_ProtocolError (e : Exc) : bool :=
  match e with ProtocolError _ _ => true | _ => false end.

(** ** Events, roles and states ([h11/_events.py], [h11/_state.py]) *)

Abbreviation Headers := (list (bytes * bytes)).

Inductive Role : Type := CLIENT | SERVER.

Inductive State : Type :=
| IDLE | SEND_RESPONSE | SEND_BODY | DONE | MUST_CLOSE | CLOSED | ERROR
| MIGHT_SWITCH_PROTOCOL | SWITCHED_PROTOCOL.

Inductive Switch : Type := _SWITCH_UPGRADE | _SWITCH_CONNECT.

Inductive Event : Type :=
| Request (method target : bytes) (headers : Headers) (http_version : bytes)
| InformationalResponse (status_code : Z) (headers : Headers) (http_version : bytes)
| Response (status_code : Z) (headers : Headers) (http_version : bytes)
| Data (data : bytes)
| EndOfMessage (headers : Headers)
| ConnectionClosed
| Paused (reason : State).

(** [type(event)] *)
Inductive EventType : Type :=
| TRequest | TInformationalResponse | TResponse | TData | TEndOfMessage
| TConnectionClosed | TPaused.

Definition type_of (e : Event) : EventType :=
  match e with
  | Request _ _ _ _ => TRequest
  | InformationalResponse _ _ _ => TInformationalResponse
  | Response _ _ _ => TResponse
  | Data _ => TData
  | EndOfMessage _ => TEndOfMessage
  | ConnectionClosed => TConnectionClosed
  | Paused _ => TPaused
  end.

#[global] Instance Role_eq_dec : EqDecision Role.
Proof. solve_decision. Defined.
#[global] Instance State_eq_dec : EqDecision State.
Proof. solve_decision. Defined.
#[global] Instance Switch_eq_dec : EqDecision Switch.
Proof. solve_decision. Defined.
#[global] Instance EventType_eq_dec : EqDecision EventType.
Proof. solve_decision. Defined.
#[global] Instance Exc_eq_dec : EqDecision Exc.
Proof. solve_decision. Defined.

#[global] Program Instance Switch_countable : Countable Switch :=
  inj_countable'
    (λ s, match s with _SWITCH_UPGRADE => false | _SWITCH_CONNECT => true end)
    (λ b : bool, if b then _SWITCH_CONNECT else _SWITCH_UPGRADE) _.
Next Obligation. by intros []. Qed.

(** [event.headers]; [Data], [ConnectionClosed] and [Paused] have none. *)
Definition event_headers (e : Event) : option Headers :=
  match e with
  | Request _ _ h _ | InformationalResponse _ h _ | Response _ h _
  | EndOfMessage h => Some h
  | _ => None
  end.

(** ** Header utilities ([h11/_headers.py]) *)

(** Modelled from the spec: [get_comma_header] ([h11/_headers.py] is not
    available).  It returns the concatenation of all values with the given
    case-insensitive name, split on commas, each element trimmed of
    surrounding whitespace, lowercased. *)
Definition name_matches (name found : bytes) : bool :=
  bytes_eqb (lower found) (lower name).

Definition comma_values (value : bytes) : list bytes :=
  (λ v, lower (strip v)) <$> split_comma value.

Fixpoint get_comma_header (headers : Headers) (name : bytes) : list bytes :=
  match headers with
  | [] => []
  | (n, v) :: rest =>
      if name_matches name n
      then comma_values v ++ get_comma_header rest name
      else get_comma_header rest name
  end.

Definition has_other_name (name : bytes) (entry : bytes * bytes) : Prop :=
  name_matches name entry.1 = false.

#[global] Instance has_other_name_dec name entry :
  Decision (has_other_name name entry).
Proof. unfold has_other_name. apply _. Defined.

(** Modelled from the spec: [set_comma_header] ([h11/_headers.py] is not
    available) removes all existing entries with that name and appends one
    entry per value. *)
Definition set_comma_header (headers : Headers) (name : bytes)
    (values : list bytes) : Headers :=
  filter (has_other_name name) headers ++ ((λ v, (name, v)) <$> values).

(** Modelled from the spec: [has_expect_100_continue] ([h11/_headers.py] is
    not available) is true iff the request has HTTP version >= 1.1 and a
    case-insensitive [Expect] header containing [100-continue]. *)
Definition has_expect_100_continue (headers : Headers) (http_version : bytes) : bool :=
  negb (bytes_ltb http_version "1.1")
  && bytes_in "100-continue" (get_comma_header headers "Expect").

(** ** Module-level functions of [_connection.py] *)

Definition HTTP_DEFAULT_MAX_BUFFER_SIZE : Z := 16 * 1024.

(** [getattr(event, "http_version", b"1.1")] *)
Definition event_http_version (e : Event) : bytes :=
  match e with
  | Request _ _ _ v | InformationalResponse _ _ v | Response _ _ v => v
  | _ => "1.1"
  end.

(** [_keep_alive(event)]; it is only called on events that have headers. *)
Definition _keep_alive (event : Event) : bool :=
  let connection := get_comma_header (default [] (event_headers event)) "Connection" in
  if bytes_in "close" connection then false
  else if bytes_ltb (event_http_version event) "1.1" then false
  else true.

(** The result of [_body_framing]: [(lookup key, args)]. *)
Inductive Framing : Type :=
| content_length (count : Z)
| chunked
| http_1_0.

Definition py_bytes_eq (a : option bytes) (b : bytes) : bool :=
  match a with Some x => bytes_eqb x b | None => false end.

Definition _body_framing (request_method : option bytes) (event : option Event)
    : Exc + Framing :=
  (* assert type(event) in (Request, Response) *)
  match event with
  | Some (Request _ _ headers _ as ev) | Some (Response _ headers _ as ev) =>
      let step1 : option (Exc + Framing) :=
        match ev with
        | Response status_code _ _ =>
            if bool_decide (status_code = 204) || bool_decide (status_code = 304)
               || py_bytes_eq request_method "HEAD"
               || (py_bytes_eq request_method "CONNECT"
                   && (200 <=? status_code) && (status_code <? 300))
            then Some (inr (content_length 0))
            else if 200 <=? status_code then None
            else Some (inl AssertionError)
        | _ => None
        end in
      match step1 with
      | Some r => r
      | None =>
          let transfer_encodings := get_comma_header headers "Transfer-Encoding" in
          match transfer_encodings with
          | _ :: _ =>
              if bool_decide (transfer_encodings = ["chunked"])
              then inr chunked else inl AssertionError
          | [] =>
              let content_lengths := get_comma_header headers "Content-Length" in
              match content_lengths with
              | c0 :: _ =>
                  match py_int c0 with
                  | Some n => inr (content_length n)
                  | None => inl ValueError
                  end
              | [] =>
                  match ev with
                  | Request _ _ _ _ => inr (content_length 0)
                  | _ => inr http_1_0
                  end
              end
          end
      end
  | _ => inl AssertionError
  end.

(** The message carries a header of that (case-insensitive) name. *)
Definition has_header (headers : Headers) (name : bytes) : Prop :=
  ∃ n v, (n, v) ∈ headers ∧ name_matches name n = true.

(** The responses that always have an empty body. *)
Definition empty_body_response (request_method : option bytes) (status_code : Z) : Prop :=
  status_code = 204 ∨ status_code = 304 ∨ request_method = Some "HEAD"
  ∨ (request_method = Some "CONNECT" ∧ 200 <= status_code < 300).

(** The events for which the decision goes on to look at the headers. *)
Definition framed_by_headers (request_method : option bytes) (e : Event) : Prop :=
  match e with
  | Request _ _ _ _ => True
  | Response status_code _ _ =>
      ¬ empty_body_response request_method status_code ∧ 200 <= status_code
  | _ => False
  end.

(** ** The connection state machine ([h11/_state.py]) *)

(** [states]: the dict [{CLIENT: ..., SERVER: ...}], which always has
    exactly these two keys. *)
Record States : Type := mkStates { client_state_of : State; server_state_of : State }.

Definition states_get (s : States) (role : Role) : State :=
  match role with CLIENT => client_state_of s | SERVER => server_state_of s end.

Definition states_set (s : States) (role : Role) (st : State) : States :=
  match role with
  | CLIENT => mkStates st (server_state_of s)
  | SERVER => mkStates (client_state_of s) st
  end.

#[global] Instance States_eq_dec : EqDecision States.
Proof. solve_decision. Defined.

Record ConnectionState : Type := mkConnectionState {
  keep_alive : bool;
  pending_switch_proposals : gset Switch;
  states : States }.

Definition with_states (cs : ConnectionState) (s : States) : ConnectionState :=
  mkConnectionState (keep_alive cs) (pending_switch_proposals cs) s.

(** Modelled from the spec: [ConnectionState()] ([h11/_state.py] is not
    available): both roles start in [IDLE], [keep_alive] starts true and
    there is no pending switch proposal. *)
Definition ConnectionState__init__ : ConnectionState :=
  mkConnectionState true ∅ (mkStates IDLE IDLE).

(** Modelled from the spec: the event-triggered transitions of section 4.5
    ([h11/_state.py] is not available).  The client moves [IDLE -> SEND_BODY] on
    [Request] and [SEND_BODY -> DONE] on [EndOfMessage]; the server moves
    [SEND_RESPONSE -> SEND_BODY] on a [Response], stays in [SEND_RESPONSE]
    on an [InformationalResponse], moves [SEND_BODY -> DONE] on
    [EndOfMessage] and [SEND_RESPONSE -> SWITCHED_PROTOCOL] on a response
    that accepts a switch; [Data] keeps a role in [SEND_BODY]; either role
    moves [MUST_CLOSE -> CLOSED] on [ConnectionClosed], and, as
    [_next_receive_event] notes, a [ConnectionClosed] can still be processed
    in [DONE].  An event with no transition is invalid in that state. *)
Definition event_transition (role : Role) (st : State) (event_type : EventType)
    (server_switch_event : option Switch) : option State :=
  match role, st, event_type, server_switch_event with
  | CLIENT, IDLE, TRequest, None => Some SEND_BODY
  | CLIENT, SEND_BODY, TData, None => Some SEND_BODY
  | CLIENT, SEND_BODY, TEndOfMessage, None => Some DONE
  | SERVER, SEND_RESPONSE, TInformationalResponse, None => Some SEND_RESPONSE
  | SERVER, SEND_RESPONSE, TResponse, None => Some SEND_BODY
  | SERVER, SEND_RESPONSE, TInformationalResponse, Some _SWITCH_UPGRADE =>
      Some SWITCHED_PROTOCOL
  | SERVER, SEND_RESPONSE, TResponse, Some _SWITCH_CONNECT =>
      Some SWITCHED_PROTOCOL
  | SERVER, SEND_BODY, TData, None => Some SEND_BODY
  | SERVER, SEND_BODY, TEndOfMessage, None => Some DONE
  | _, DONE, TConnectionClosed, None => Some CLOSED
  | _, MUST_CLOSE, TConnectionClosed, None => Some CLOSED
  | _, _, _, _ => None
  end.

(** Modelled from the spec: the state-triggered transitions of section 4.5
    ([h11/_state.py] is not available).  The server leaves [IDLE] for
    [SEND_RESPONSE] when the client reaches [DONE]; with a pending proposal
    the client enters [MIGHT_SWITCH_PROTOCOL] instead of staying in [DONE],
    and goes back to [DONE] once the proposals are drained; a role in
    [DONE] moves to [MUST_CLOSE] when [keep_alive] is false.
    [MIGHT_SWITCH_PROTOCOL] is a client-side state (section 3): the server
    stays in [SEND_RESPONSE] while a proposal is pending, since a server in
    [MIGHT_SWITCH_PROTOCOL] could never have its response read by the
    client, whose [_next_receive_event] pauses on that state. *)
Definition fire_state_triggered_transitions (cs : ConnectionState) : ConnectionState :=
  let proposed := negb (bool_decide (pending_switch_proposals cs = ∅)) in
  let s := states cs in
  let s :=
    if bool_decide (states_get s CLIENT = DONE)
       && bool_decide (states_get s SERVER = IDLE)
    then states_set s SERVER SEND_RESPONSE else s in
  let s :=
    if proposed && bool_decide (states_get s CLIENT = DONE)
    then states_set s CLIENT MIGHT_SWITCH_PROTOCOL else s in
  let s :=
    if negb proposed && bool_decide (states_get s CLIENT = MIGHT_SWITCH_PROTOCOL)
    then states_set s CLIENT DONE else s in
  let s :=
    if negb (keep_alive cs) && bool_decide (states_get s CLIENT = DONE)
    then states_set s CLIENT MUST_CLOSE else s in
  let s :=
    if negb (keep_alive cs) && bool_decide (states_get s SERVER = DONE)
    then states_set s SERVER MUST_CLOSE else s in
  with_states cs s.

#[global] Arguments fire_state_triggered_transitions : simpl never.

(** Modelled from the spec: [ConnectionState.process_error]; any role may
    transition to [ERROR] at any time, and an error in one role never
    implicitly corrupts the other. *)
Definition process_error (cs : ConnectionState) (role : Role) : ConnectionState :=
  with_states cs (states_set (states cs) role ERROR).

(** Modelled from the spec: [ConnectionState.process_keep_alive_disabled];
    [keep_alive] is latched to false. *)
Definition process_keep_alive_disabled (cs : ConnectionState) : ConnectionState :=
  fire_state_triggered_transitions
    (mkConnectionState false (pending_switch_proposals cs) (states cs)).

(** Modelled from the spec: [ConnectionState.process_client_switch_proposals];
    the proposals of a client [Request] are added to the pending set. *)
Definition process_client_switch_proposals (cs : ConnectionState)
    (switch_events : list Switch) : ConnectionState :=
  fire_state_triggered_transitions
    (mkConnectionState (keep_alive cs)
       (pending_switch_proposals cs ∪ list_to_set switch_events) (states cs)).

(** Modelled from the spec: [ConnectionState.process_event].  The role's
    event-triggered transition is taken, or the event is a protocol error
    in that state.  A response that commits a switch moves both sides to
    [SWITCHED_PROTOCOL]; any other [Response] drains the pending proposals;
    an [IDLE] server that observes the client's [Request] moves to
    [SEND_RESPONSE]. *)
Definition process_event (cs : ConnectionState) (role : Role)
    (event_type : EventType) (server_switch_event : option Switch)
    : Exc + ConnectionState :=
  match event_transition role (states_get (states cs) role) event_type
          server_switch_event with
  | None =>
      inl (ProtocolError "can't handle this event type in this state" None)
  | Some new_state =>
      let s := states_set (states cs) role new_state in
      let s :=
        match server_switch_event with
        | Some _ => states_set s CLIENT SWITCHED_PROTOCOL
        | None => s
        end in
      let s :=
        if bool_decide (event_type = TRequest ∧ states_get s SERVER = IDLE)
        then states_set s SERVER SEND_RESPONSE else s in
      let pending :=
        if bool_decide (server_switch_event = None ∧ event_type = TResponse)
        then ∅ else pending_switch_proposals cs in
      inr (fire_state_triggered_transitions
             (mkConnectionState (keep_alive cs) pending s))
  end.

(** Modelled from the spec: [ConnectionState.prepare_to_reuse] requires
    both roles in [DONE] and [keep_alive] true, otherwise it fails with a
    protocol error; it resets both roles to [IDLE]. *)
Definition cstate_prepare_to_reuse (cs : ConnectionState) : Exc + ConnectionState :=
  if bool_decide (states cs = mkStates DONE DONE) && keep_alive cs
  then inr (with_states cs (mkStates IDLE IDLE))
  else inl (ProtocolError "not in a reusable state" None).

(** ** Readers and writers ([h11/_readers.py], [h11/_writers.py]) *)

(** A registry [io_dict]: [io_get] is [io_dict.get((role, state))] and
    [io_body framing] is [io_dict[SEND_BODY][framing_type]( *args)]. *)
Record IoDict (T : Type) : Type := mkIoDict {
  io_get : Role → State → option T;
  io_body : Framing → T }.
Arguments io_get {T} _ _ _.
Arguments io_body {T} _ _.

(** What the connection does with a reader: it calls it on the receive
    buffer, which yields an event, [None] or an exception and may consume
    bytes and change the reader's own state; and it calls its [read_eof]
    hook when it has one. *)
Class ReaderOps (R : Type) : Type := {
  call_reader : R → ReceiveBuffer → (Exc + option Event) * R * ReceiveBuffer;
  reader_read_eof : R → option ((Exc + Event) * R) }.

(** What the connection does with a writer: [writer(event, write)]
    collects the byte strings written, or raises. *)
Class WriterOps (W : Type) : Type := {
  call_writer : W → Event → (Exc + list bytes) * W }.

(** ** Connection methods as state transformers with exceptions *)

Definition M (S A : Type) : Type := S → (Exc + A) * S.

#[global] Instance M_ret {S} : MRet (M S) := λ A a s, (inr a, s).
#[global] Instance M_bind {S} : MBind (M S) := λ A B f m s,
  match m s with
  | (inl e, s') => (inl e, s')
  | (inr a, s') => f a s'
  end.

Definition raise {S A} (e : Exc) : M S A := λ s, (inl e, s).
Definition get_self {S} : M S S := λ s, (inr s, s).
Definition update {S} (f : S → S) : M S unit := λ s, (inr tt, f s).
Definition when {S} (b : bool) (m : M S unit) : M S unit :=
  if b then m else mret tt.

(** [try: body / except: handler; raise] *)
Definition try_except {S A} (body : M S A) (handler : M S unit) : M S A := λ s,
  match body s with
  | (inl e, s') =>
      match handler s' with
      | (inl e', s'') => (inl e', s'')
      | (inr _, s'') => (inl e, s'')
      end
  | r => r
  end.

(** Unfolding the state transformers. *)

Ltac unfold_M :=
  unfold mbind, M_bind, mret, M_ret, raise, get_self, update, when, try_except.

(** ** The Connection class *)

Definition other_role (role : Role) : Role :=
  match role with CLIENT => SERVER | SERVER => CLIENT end.

Record Connection (R W : Type) : Type := mkConnection {
  _max_buffer_size : Z;
  our_role : Role;
  _cstate : ConnectionState;
  _writer : option W;
  _reader : option R;
  _receive_buffer : ReceiveBuffer;
  _receive_buffer_closed : bool;
  their_http_version : option bytes;
  _request_method : option bytes;
  client_is_waiting_for_100_continue : bool }.
Arguments mkConnection {R W}.
Arguments _max_buffer_size {R W} _.
Arguments our_role {R W} _.
Arguments _cstate {R W} _.
Arguments _writer {R W} _.
Arguments _reader {R W} _.
Arguments _receive_buffer {R W} _.
Arguments _receive_buffer_closed {R W} _.
Arguments their_http_version {R W} _.
Arguments _request_method {R W} _.
Arguments client_is_waiting_for_100_continue {R W} _.

Section Connection.
Context {R W : Type} `{!ReaderOps R} `{!WriterOps W}.
Variable READERS : IoDict R.
Variable WRITERS : IoDict W.

#[local] Abbreviation Conn := (Connection R W).

(** [their_role] is fixed by [__init__] to the complement of [our_role]
    and never assigned again. *)
Definition their_role (c : Conn) : Role := other_role (our_role c).

(** Attribute assignments. *)
Definition set_cstate (cs : ConnectionState) (c : Conn) : Conn :=
  mkConnection (_max_buffer_size c) (our_role c) cs (_writer c) (_reader c)
    (_receive_buffer c) (_receive_buffer_closed c) (their_http_version c)
    (_request_method c) (client_is_waiting_for_100_continue c).
Definition set_writer (w : option W) (c : Conn) : Conn :=
  mkConnection (_max_buffer_size c) (our_role c) (_cstate c) w (_reader c)
    (_receive_buffer c) (_receive_buffer_closed c) (their_http_version c)
    (_request_method c) (client_is_waiting_for_100_continue c).
Definition set_reader (r : option R) (c : Conn) : Conn :=
  mkConnection (_max_buffer_size c) (our_role c) (_cstate c) (_writer c) r
    (_receive_buffer c) (_receive_buffer_closed c) (their_http_version c)
    (_request_method c) (client_is_waiting_for_100_continue c).
Definition set_receive_buffer (b : ReceiveBuffer) (c : Conn) : Conn :=
  mkConnection (_max_buffer_size c) (our_role c) (_cstate c) (_writer c)
    (_reader c) b (_receive_buffer_closed c) (their_http_version c)
    (_request_method c) (client_is_waiting_for_100_continue c).
Definition set_receive_buffer_closed (b : bool) (c : Conn) : Conn :=
  mkConnection (_max_buffer_size c) (our_role c) (_cstate c) (_writer c)
    (_reader c) (_receive_buffer c) b (their_http_version c)
    (_request_method c) (client_is_waiting_for_100_continue c).
Definition set_their_http_version (v : option bytes) (c : Conn) : Conn :=
  mkConnection (_max_buffer_size c) (our_role c) (_cstate c) (_writer c)
    (_reader c) (_receive_buffer c) (_receive_buffer_closed c) v
    (_request_method c) (client_is_waiting_for_100_continue c).
Definition set_request_method (m : option bytes) (c : Conn) : Conn :=
  mkConnection (_max_buffer_size c) (our_role c) (_cstate c) (_writer c)
    (_reader c) (_receive_buffer c) (_receive_buffer_closed c)
    (their_http_version c) m (client_is_waiting_for_100_continue c).
Definition set_client_is_waiting_for_100_continue (b : bool) (c : Conn) : Conn :=
  mkConnection (_max_buffer_size c) (our_role c) (_cstate c) (_writer c)
    (_reader c) (_receive_buffer c) (_receive_buffer_closed c)
    (their_http_version c) (_request_method c) b.

(** [__init__]: in [IDLE] the codecs are plain registry lookups. *)
Definition Connection__init__ (role : Role) (max_buffer_size : Z) : Conn :=
  mkConnection max_buffer_size role ConnectionState__init__
    (io_get WRITERS role IDLE) (io_get READERS (other_role role) IDLE)
    "" false None None false.

Definition state_of (c : Conn) (role : Role) : State :=
  states_get (states (_cstate c)) role.
Definition client_state (c : Conn) : State := state_of c CLIENT.
Definition server_state (c : Conn) : State := state_of c SERVER.
Definition our_state (c : Conn) : State := state_of c (our_role c).
Definition their_state (c : Conn) : State := state_of c (their_role c).

Definition they_are_waiting_for_100_continue (c : Conn) : bool :=
  bool_decide (their_role c = CLIENT) && client_is_waiting_for_100_continue c.

Definition _get_io_object {T} (role : Role) (event : option Event)
    (io_dict : IoDict T) : M Conn (option T) := λ c,
  let state := states_get (states (_cstate c)) role in
  if bool_decide (state = SEND_BODY) then
    match _body_framing (_request_method c) event with
    | inl e => (inl e, c)
    | inr framing => (inr (Some (io_body io_dict framing)), c)
    end
  else (inr (io_get io_dict role state), c).

Definition _respond_to_state_changes (old_states : States)
    (event : option Event) : M Conn unit :=
  c ← get_self;
  when (bool_decide (our_state c ≠ states_get old_states (our_role c)))
    (w ← _get_io_object (our_role c) event WRITERS; update (set_writer w));;
  when (bool_decide (their_state c ≠ states_get old_states (their_role c)))
    (r ← _get_io_object (their_role c) event READERS; update (set_reader r)).

Definition prepare_to_reuse : M Conn unit :=
  c ← get_self;
  let old_states := states (_cstate c) in
  match cstate_prepare_to_reuse (_cstate c) with
  | inl e => raise e
  | inr cs =>
      update (set_cstate cs);;
      update (set_request_method None);;
      (if client_is_waiting_for_100_continue c
       then raise AssertionError else mret tt);;
      _respond_to_state_changes old_states None
  end.

Definition _process_error (role : Role) : M Conn unit :=
  c ← get_self;
  let old_states := states (_cstate c) in
  update (set_cstate (process_error (_cstate c) role));;
  _respond_to_state_changes old_states None.

Definition _client_switch_events (event : Event) : list Switch :=
  match event with
  | Request method _ headers _ =>
      (if bytes_eqb method "CONNECT" then [_SWITCH_CONNECT] else [])
      ++ (match get_comma_header headers "Upgrade" with
          | _ :: _ => [_SWITCH_UPGRADE]
          | [] => []
          end)
  | _ => []
  end.

Definition _server_switch_event (c : Conn) (event : Event) : option Switch :=
  match event with
  | InformationalResponse status_code _ _ =>
      if bool_decide (status_code = 101) then Some _SWITCH_UPGRADE else None
  | Response status_code _ _ =>
      if bool_decide (_SWITCH_CONNECT ∈ pending_switch_proposals (_cstate c))
         && (200 <=? status_code) && (status_code <? 300)
      then Some _SWITCH_CONNECT else None
  | _ => None
  end.

Definition is_Request (e : Event) : bool := bool_decide (type_of e = TRequest).
Definition is_Response (e : Event) : bool := bool_decide (type_of e = TResponse).
Definition is_Paused (e : Event) : bool := bool_decide (type_of e = TPaused).
Definition is_ConnectionClosed (e : Event) : bool :=
  bool_decide (type_of e = TConnectionClosed).

(** All events go through here. *)
Definition _process_event (role : Role) (event : Event) : M Conn unit :=
  c ← get_self;
  let old_states := states (_cstate c) in
  when (bool_decide (role = CLIENT) && is_Request event)
    (update (λ c, set_cstate
       (process_client_switch_proposals (_cstate c)
          (_client_switch_events event)) c));;
  c1 ← get_self;
  let server_switch_event :=
    if bool_decide (role = SERVER) then _server_switch_event c1 event else None in
  match process_event (_cstate c1) role (type_of event) server_switch_event with
  | inl e => raise e
  | inr cs =>
      update (set_cstate cs);;
      (* self._request_method *)
      match event with
      | Request method _ _ _ => update (set_request_method (Some method))
      | _ => mret tt
      end;;
      (* self.their_http_version *)
      match event with
      | Request _ _ _ v | Response _ _ v | InformationalResponse _ _ v =>
          when (bool_decide (role = their_role c))
            (update (set_their_http_version (Some v)))
      | _ => mret tt
      end;;
      (* Keep alive handling *)
      when ((is_Request event || is_Response event) && negb (_keep_alive event))
        (update (λ c, set_cstate (process_keep_alive_disabled (_cstate c)) c));;
      (* 100-continue *)
      match event with
      | Request _ _ headers v =>
          when (has_expect_100_continue headers v)
            (update (set_client_is_waiting_for_100_continue true))
      | InformationalResponse _ _ _ | Response _ _ _ =>
          update (set_client_is_waiting_for_100_continue false)
      | Data _ | EndOfMessage _ =>
          when (bool_decide (role = CLIENT))
            (update (set_client_is_waiting_for_100_continue false))
      | _ => mret tt
      end;;
      _respond_to_state_changes old_states (Some event)
  end.

(** [trailing_data] *)
Definition trailing_data (c : Conn) : bytes * bool :=
  (_receive_buffer c, _receive_buffer_closed c).

Definition _next_receive_event : M Conn (option Event) :=
  c ← get_self;
  let state := their_state c in
  if bool_decide (state = DONE) && py_bool (_receive_buffer c)
  then mret (Some (Paused state))
  else if bool_decide (state = MIGHT_SWITCH_PROTOCOL)
          || bool_decide (state = SWITCHED_PROTOCOL)
  then mret (Some (Paused state))
  else
    match _reader c with
    | None => raise AssertionError
    | Some reader =>
        (* the call works on the reader and on the buffer in place *)
        let '(result, reader, buf) := call_reader reader (_receive_buffer c) in
        update (set_reader (Some reader));;
        update (set_receive_buffer buf);;
        match result with
        | inl e => raise e
        | inr (Some event) => mret (Some event)
        | inr None =>
            if negb (py_bool buf) && _receive_buffer_closed c then
              match reader_read_eof reader with
              | Some (result, reader) =>
                  update (set_reader (Some reader));;
                  match result with
                  | inl e => raise e
                  | inr event => mret (Some event)
                  end
              | None => mret (Some ConnectionClosed)
              end
            else mret None
        end
    end.

(** [receive_data]: updating the buffer with the new data. *)
Definition receive_data_update_buffer (data : option bytes) : M Conn unit :=
  match data with
  | Some data =>
      if py_bool data then
        c ← get_self;
        if _receive_buffer_closed c
        then raise (RuntimeError "received close, then received more data?")
        else update (set_receive_buffer (rb_append (_receive_buffer c) data))
      else update (set_receive_buffer_closed true)
  | None => mret tt
  end.

(** [receive_data]: the [while True] loop that reads out all the events
    it can.  Nothing bounds the number of events a reader may produce, so
    the loop takes fuel; [None] means the fuel ran out. *)
Fixpoint receive_data_loop (fuel : nat) (events : list Event) (c : Conn)
    : option ((Exc + list Event) * Conn) :=
  match fuel with
  | O => None
  | S fuel =>
      match _next_receive_event c with
      | (inl e, c) => Some (inl e, c)
      | (inr None, c) => Some (inr events, c)
      | (inr (Some event), c) =>
          let events := events ++ [event] in
          if is_Paused event then Some (inr events, c)
          else
            match _process_event (their_role c) event c with
            | (inl e, c) => Some (inl e, c)
            | (inr _, c) =>
                if is_ConnectionClosed event then Some (inr events, c)
                else receive_data_loop fuel events c
            end
      end
  end.

(** [events and type(events[-1]) is Paused] *)
Definition ends_with_Paused (events : list Event) : bool :=
  match last events with Some e => is_Paused e | None => false end.

(** [events and type(events[-1]) in FINAL_EVENTS] *)
Definition ends_with_final_event (events : list Event) : bool :=
  match last events with
  | Some e => is_Paused e || is_ConnectionClosed e
  | None => false
  end.

(** [receive_data]: buffer maintenance and the end-of-file check. *)
Definition receive_data_finish (events : list Event) : M Conn (list Event) :=
  update (λ c, set_receive_buffer (rb_compress (_receive_buffer c)) c);;
  c ← get_self;
  (if ends_with_Paused events then mret tt
   else if _max_buffer_size c <? rb_len (_receive_buffer c)
   then raise (ProtocolError "Receive buffer too long" (Some 431))
   else mret tt);;
  (if _receive_buffer_closed c && negb (ends_with_final_event events)
   then raise (ProtocolError "peer unexpectedly closed connection" None)
   else mret tt);;
  mret events.

(** The [try] block of [receive_data]. *)
Definition receive_data_try (fuel : nat) (data : option bytes) (c : Conn)
    : option ((Exc + list Event) * Conn) :=
  match receive_data_update_buffer data c with
  | (inl e, c) => Some (inl e, c)
  | (inr _, c) =>
      match receive_data_loop fuel [] c with
      | None => None
      | Some (inl e, c) => Some (inl e, c)
      | Some (inr events, c) => Some (receive_data_finish events c)
      end
  end.

(** [receive_data(data)]; [data] is [None], [b""] or received bytes. *)
Definition receive_data (fuel : nat) (data : option bytes) (c : Conn)
    : option ((Exc + list Event) * Conn) :=
  if bool_decide (their_state c = ERROR)
  then Some (inl (ProtocolError "Can't receive data when peer state is ERROR" None), c)
  else
    match receive_data_try fuel data c with
    | None => None
    | Some (inl e, c) =>
        (* except: self._process_error(self.their_role); raise *)
        match _process_error (their_role c) c with
        | (inl e', c) => Some (inl e', c)
        | (inr _, c) => Some (inl e, c)
        end
    | Some (inr events, c) => Some (inr events, c)
    end.

(** [_clean_up_response_headers_for_sending]: the cleaned header list that
    the response is given.  [headers = list(response.headers)] starts from
    a copy; the original list object is left alone. *)
Definition _clean_up_response_headers_for_sending (response : Event)
    : M Conn Event := λ c,
  match response with
  | Response status_code response_headers http_version =>
      let headers := response_headers in
      match _body_framing (_request_method c) (Some response) with
      | inl e => (inl e, c)
      | inr framing_type =>
          let '(headers, need_close) :=
            match framing_type with
            | chunked | http_1_0 =>
                let headers := set_comma_header headers "Content-Length" [] in
                if match their_http_version c with
                   | None => true
                   | Some v => bytes_ltb v "1.1"
                   end
                then (set_comma_header headers "Transfer-Encoding" [], true)
                else (set_comma_header headers "Transfer-Encoding" ["chunked"],
                      false)
            | content_length _ => (headers, false)
            end in
          let headers :=
            if negb (keep_alive (_cstate c)) || need_close then
              let connection : gset bytes :=
                list_to_set (get_comma_header headers "Connection") in
              let connection := connection ∖ {["keep-alive"]} in
              let connection := connection ∪ {["close"]} in
              set_comma_header headers "Connection"
                (py_sorted (elements connection))
            else headers in
          (inr (Response status_code headers http_version), c)
      end
  | _ => (inl AssertionError, c)
  end.

(** The [try] block of [send_with_data_passthrough], once the headers of a
    response are cleaned up: the writer is remembered, the event goes
    through the state machine, and the remembered writer serializes it. *)
Definition send_event (event : Event) : M Conn (option (list bytes)) :=
  c ← get_self;
  let writer := _writer c in
  _process_event (our_role c) event;;
  if is_ConnectionClosed event then mret None
  else
    match writer with
    | None => raise AssertionError
    | Some w =>
        let '(result, w) := call_writer w event in
        (* [writer] is still [self._writer] unless the event changed our
           state, so the call works on that object in place *)
        c' ← get_self;
        when (bool_decide (our_state c' = our_state c))
          (update (set_writer (Some w)));;
        match result with
        | inl e => raise e
        | inr data_list => mret (Some data_list)
        end
    end.

(** The [try] block of [send_with_data_passthrough]. *)
Definition send_try (event : Event) : M Conn (option (list bytes)) :=
  event ← (if is_Response event
           then _clean_up_response_headers_for_sending event
           else mret event);
  send_event event.

Definition send_with_data_passthrough (event : Event)
    : M Conn (option (list bytes)) :=
  c ← get_self;
  if bool_decide (our_state c = ERROR)
  then raise (ProtocolError "Can't send data when our state is ERROR" None)
  else try_except (send_try event)
         (c ← get_self; _process_error (our_role c)).

(** [send]: [b"".join(data_list)] *)
Definition send (event : Event) : M Conn (option bytes) :=
  data_list ← send_with_data_passthrough event;
  mret (foldr String.append "" <$> data_list).
(** *** The response object and its header list

    [_clean_up_response_headers_for_sending] works on objects: the response
    refers to a list object, [list(response.headers)] makes a new list
    object, [set_comma_header] updates that new list in place, and in the
    end the response is made to refer to it.  The store maps references to
    list objects. *)
Record ResponseObject : Type := mkResponseObject {
  response_status_code : Z;
  response_headers : positive;
  response_http_version : bytes }.

(** The event a response object stands for. *)
Definition response_event (response : ResponseObject)
    (store : gmap positive Headers) : option Event :=
  headers ← store !! response_headers response;
  Some (Response (response_status_code response) headers
          (response_http_version response)).

(** [list(l)]: a new list object with the same elements. *)
Definition list_copy (l : positive) (store : gmap positive Headers)
    : option (positive * gmap positive Headers) :=
  headers ← store !! l;
  let l' := fresh (dom store) in
  Some (l', <[l' := headers]> store).

(** [set_comma_header(l, name, values)] on the list object [l]. *)
Definition set_comma_header_in_place (l : positive) (name : bytes)
    (values : list bytes) (store : gmap positive Headers)
    : gmap positive Headers :=
  alter (λ headers, set_comma_header headers name values) l store.

Definition get_comma_header_of (l : positive) (name : bytes)
    (store : gmap positive Headers) : list bytes :=
  get_comma_header (default [] (store !! l)) name.

(** [_clean_up_response_headers_for_sending] on the store; [None] when the
    response refers to no list. *)
Definition _clean_up_response_headers_for_sending_in_place (c : Conn)
    (response : ResponseObject) (store : gmap positive Headers)
    : option ((Exc + ResponseObject) * gmap positive Headers) :=
  event ← response_event response store;
  '(headers, store) ← list_copy (response_headers response) store;
  match _body_framing (_request_method c) (Some event) with
  | inl e => Some (inl e, store)
  | inr framing_type =>
      let '(store, need_close) :=
        match framing_type with
        | chunked | http_1_0 =>
            let store :=
              set_comma_header_in_place headers "Content-Length" [] store in
            if match their_http_version c with
               | None => true
               | Some v => bytes_ltb v "1.1"
               end
            then (set_comma_header_in_place headers "Transfer-Encoding" []
                    store, true)
            else (set_comma_header_in_place headers "Transfer-Encoding"
                    ["chunked"] store, false)
        | content_length _ => (store, false)
        end in
      let store :=
        if negb (keep_alive (_cstate c)) || need_close then
          let connection : gset bytes :=
            list_to_set (get_comma_header_of headers "Connection" store) in
          let connection := connection ∖ {["keep-alive"]} in
          let connection := connection ∪ {["close"]} in
          set_comma_header_in_place headers "Connection"
            (py_sorted (elements connection)) store
        else store in
      Some (inr (mkResponseObject (response_status_code response) headers
                   (response_http_version response)), store)
  end.

(** A body whose length is not known in advance. *)
Definition unknown_length (framing : Framing) : Prop :=
  framing = chunked ∨ framing = http_1_0.

(** The peer is HTTP/1.0, or its version is not known. *)
Definition peer_is_old (c : Conn) : Prop :=
  match their_http_version c with
  | None => True
  | Some v => bytes_ltb v "1.1" = true
  end.

(** The Connection header says [close] and does not say [keep-alive]. *)
Definition says_close (headers : Headers) : Prop :=
  "close" ∈ get_comma_header headers "Connection"
  ∧ "keep-alive" ∉ get_comma_header headers "Connection".

(** A Request or Response whose Transfer-Encoding header is present with a
    comma-list value other than exactly [chunked]. *)
Definition bad_transfer_encoding (event : Event) : Prop :=
  (type_of event = TRequest ∨ type_of event = TResponse)
  ∧ ∃ headers, event_headers event = Some headers
      ∧ has_header headers "Transfer-Encoding"
      ∧ get_comma_header headers "Transfer-Encoding" ≠ ["chunked"].

(** A response that accepts a pending CONNECT proposal. *)
Definition accepts_connect (c : Conn) (event : Event) : Prop :=
  match event with
  | Response status_code _ _ =>
      _SWITCH_CONNECT ∈ pending_switch_proposals (_cstate c)
      ∧ 200 <= status_code < 300
  | _ => False
  end.

(** [_next_receive_event] asks the reader, and the reader yields [event]. *)
Definition reader_yields (c : Conn) (event : Event) : Prop :=
  ¬ (their_state c = DONE ∧ py_bool (_receive_buffer c) = true)
  ∧ their_state c ≠ MIGHT_SWITCH_PROTOCOL
  ∧ their_state c ≠ SWITCHED_PROTOCOL
  ∧ ∃ reader reader' buf,
      _reader c = Some reader
      ∧ call_reader reader (_receive_buffer c) = (inr (Some event), reader', buf).

(** ** Auxiliary notions used to state the properties *)

(** Two connections that differ at most in their codec handles. *)
Definition same_but_codecs (c c' : Conn) : Prop :=
  ∃ w r, c' = set_reader r (set_writer w c).

(** The connection after the client's switch proposals were recorded. *)
Definition after_switch_proposals (role : Role) (event : Event) (c : Conn) : Conn :=
  if bool_decide (role = CLIENT) && is_Request event
  then set_cstate (process_client_switch_proposals (_cstate c)
                     (_client_switch_events event)) c
  else c.

(** The response to a switch proposal that [_process_event] hands to the
    state machine. *)
Definition switch_event_for (role : Role) (event : Event) (c : Conn) : option Switch :=
  if bool_decide (role = SERVER) then _server_switch_event c event else None.

(** The attribute updates that follow an accepted event, up to the point
    where the codecs are looked up again. *)
Definition attribute_updates (role : Role) (event : Event)
    (cs : ConnectionState) (c : Conn) : Conn :=
  let c := set_cstate cs c in
  let c :=
    match event with
    | Request method _ _ _ => set_request_method (Some method) c
    | _ => c
    end in
  let c :=
    match event with
    | Request _ _ _ v | Response _ _ v | InformationalResponse _ _ v =>
        if bool_decide (role = their_role c)
        then set_their_http_version (Some v) c else c
    | _ => c
    end in
  let c :=
    if (is_Request event || is_Response event) && negb (_keep_alive event)
    then set_cstate (process_keep_alive_disabled (_cstate c)) c else c in
  match event with
  | Request _ _ headers v =>
      if has_expect_100_continue headers v
      then set_client_is_waiting_for_100_continue true c else c
  | InformationalResponse _ _ _ | Response _ _ _ =>
      set_client_is_waiting_for_100_continue false c
  | Data _ | EndOfMessage _ =>
      if bool_decide (role = CLIENT)
      then set_client_is_waiting_for_100_continue false c else c
  | _ => c
  end.

(** The connection after [data] was fed to it: bytes are appended to the
    receive buffer, empty data records end-of-file. *)
Definition fed (data : option bytes) (c : Conn) : Conn :=
  set_receive_buffer_closed
    (_receive_buffer_closed c || bool_decide (data = Some ""))
    (set_receive_buffer (rb_append (_receive_buffer c) (default "" data)) c).

(** The connections that can arise: a new connection, and what [send],
    [receive_data] and [prepare_to_reuse] make of it, whether they return
    or raise. *)
Inductive reachable : Conn → Prop :=
| reachable_init role max_buffer_size :
    reachable (Connection__init__ role max_buffer_size)
| reachable_send c event result c' :
    reachable c → send_with_data_passthrough event c = (result, c') →
    reachable c'
| reachable_receive c fuel data result c' :
    reachable c → receive_data fuel data c = Some (result, c') →
    reachable c'
| reachable_reuse c result c' :
    reachable c → prepare_to_reuse c = (result, c') →
    reachable c'.

(** The client waits for [100 Continue] only while it sends its body (or
    after an error). *)
Definition waiting_only_while_sending (c : Conn) : Prop :=
  client_is_waiting_for_100_continue c = true →
  client_state c = SEND_BODY ∨ client_state c = ERROR.

(** A Request or Response whose Connection header, read as a
    comma-separated list, contains [close], or whose HTTP version is below
    1.1. *)
Definition asks_to_close (event : Event) : Prop :=
  (type_of event = TRequest ∨ type_of event = TResponse)
  ∧ ("close" ∈ get_comma_header (default [] (event_headers event)) "Connection"
     ∨ bytes_ltb (event_http_version event) "1.1" = true).

End Connection.


(** ** Notions used to state properties of whole calls *)

(** What the connection remembers of the events of one role: the HTTP
    version of the last Request, InformationalResponse or Response, the
    method of the last Request, and whether the client waits for
    [100 Continue]. *)
Definition http_version_seen (seen : option bytes) (event : Event) : option bytes :=
  match event with
  | Request _ _ _ v | InformationalResponse _ _ v | Response _ _ v => Some v
  | _ => seen
  end.

Definition request_method_seen (seen : option bytes) (event : Event) : option bytes :=
  match event with
  | Request method _ _ _ => Some method
  | _ => seen
  end.

Definition waiting_after (role : Role) (waiting : bool) (event : Event) : bool :=
  match event with
  | Request _ _ headers v =>
      if has_expect_100_continue headers v then true else waiting
  | InformationalResponse _ _ _ | Response _ _ _ => false
  | Data _ | EndOfMessage _ =>
      if bool_decide (role = CLIENT) then false else waiting
  | _ => waiting
  end.

(** The events that disable keep-alive when they go through
    [_process_event]. *)
Definition disables_keep_alive (event : Event) : bool :=
  (is_Request event || is_Response event) && negb (_keep_alive event).

(** [Paused] and [ConnectionClosed] are the events after which
    [receive_data] stops reading. *)
Definition is_final (e : Event) : bool := is_Paused e || is_ConnectionClosed e.

(** An event list in which only the last event may be final. *)
Fixpoint well_ended (events : list Event) : bool :=
  match events with
  | [] => true
  | e :: rest =>
      match rest with
      | [] => true
      | _ :: _ => negb (is_final e) && well_ended rest
      end
  end.

(** The names of the three headers that the cleanup of a response sets. *)
Definition is_framing_header (entry : bytes * bytes) : bool :=
  name_matches "Content-Length" entry.1
  || name_matches "Transfer-Encoding" entry.1
  || name_matches "Connection" entry.1.

Definition other_headers (headers : Headers) : Headers :=
  filter (λ entry, is_framing_header entry = false) headers.

Section Connection_notions.
Context {R W : Type}.

(** The role and the buffer limit that [__init__] was given. *)
Definition same_configuration (c c' : Connection R W) : Prop :=
  our_role c' = our_role c ∧ _max_buffer_size c' = _max_buffer_size c.

(** The receive buffer and its end-of-file mark are the same. *)
Definition same_receive_buffer (c c' : Connection R W) : Prop :=
  _receive_buffer c' = _receive_buffer c
  ∧ _receive_buffer_closed c' = _receive_buffer_closed c.

(** What the connection remembers of the events is the same. *)
Definition same_memory (c c' : Connection R W) : Prop :=
  their_http_version c' = their_http_version c
  ∧ _request_method c' = _request_method c
  ∧ client_is_waiting_for_100_continue c'
    = client_is_waiting_for_100_continue c.

End Connection_notions.

(** ** Calls made one after the other *)

(** A call of one of the three operations of a connection. *)
Inductive Call : Type :=
| ReceiveData (fuel : nat) (data : option bytes)
| Send (event : Event)
| PrepareToReuse.

Definition is_ReceiveData (op : Call) : bool :=
  match op with ReceiveData _ _ => true | _ => false end.
Definition is_Send (op : Call) : bool :=
  match op with Send _ => true | _ => false end.

(** The exception that a call raised, if any. *)
Definition raised {A} (result : Exc + A) : option Exc :=
  match result with inl e => Some e | inr _ => None end.

Section Connection_calls.
Context {R W : Type} `{!ReaderOps R} `{!WriterOps W}.
Variable READERS : IoDict R.
Variable WRITERS : IoDict W.

(** One call: the exception it raised, if any, and the connection it left;
    [None] when [receive_data] ran out of fuel. *)
Definition call (op : Call) (c : Connection R W)
    : option (option Exc * Connection R W) :=
  match op with
  | ReceiveData fuel data =>
      match receive_data READERS WRITERS fuel data c with
      | Some (result, c) => Some (raised result, c)
      | None => None
      end
  | Send event =>
      let '(result, c) := send_with_data_passthrough READERS WRITERS event c in
      Some (raised result, c)
  | PrepareToReuse =>
      let '(result, c) := prepare_to_reuse READERS WRITERS c in
      Some (raised result, c)
  end.

(** Calls made one after the other, each on the connection that the one
    before left, whether it returned or raised. *)
Fixpoint calls (ops : list Call) (c : Connection R W)
    : option (list (option Exc) * Connection R W) :=
  match ops with
  | [] => Some ([], c)
  | op :: ops =>
      match call op c with
      | None => None
      | Some (e, c) =>
          match calls ops c with
          | None => None
          | Some (es, c) => Some (e :: es, c)
          end
      end
  end.

End Connection_calls.

(** ** The test helpers ([h11/tests/helpers.py]) *)

Definition is_Data (e : Event) : bool := bool_decide (type_of e = TData).

(** [normalize_data_events] works on event objects: [in_events] is a list
    of references, and [out_events[-1].data += event.data] updates the
    object that an earlier element of [in_events] refers to.  The store
    maps references to event objects; the result is [None] when a
    reference points nowhere. *)
Fixpoint normalize_data_events_loop (in_events out_events : list positive)
    (store : gmap positive Event) : option (list positive * gmap positive Event) :=
  match in_events with
  | [] => Some (out_events, store)
  | event :: in_events =>
      match store !! event with
      | None => None
      | Some e =>
          (* event.data = bytes(event.data): payloads are bytes already *)
          match last out_events with
          | Some l =>
              match store !! l with
              | None => None
              | Some e0 =>
                  match e0, e with
                  | Data d0, Data d =>
                      normalize_data_events_loop in_events out_events
                        (<[l := Data (d0 ++ d)%string]> store)
                  | _, _ =>
                      normalize_data_events_loop in_events
                        (out_events ++ [event]) store
                  end
              end
          | None =>
              normalize_data_events_loop in_events (out_events ++ [event]) store
          end
      end
  end.

Definition normalize_data_events (in_events : list positive)
    (store : gmap positive Event) : option (list positive * gmap positive Event) :=
  normalize_data_events_loop in_events [] store.

(** The events that a list of references stands for. *)
Definition refers_to (store : gmap positive Event) (refs : list positive)
    (events : list Event) : Prop :=
  Forall2 (λ l e, store !! l = Some e) refs events.

(** No two neighbours are both [Data]. *)
Fixpoint no_adjacent_data (events : list Event) : bool :=
  match events with
  | [] => true
  | e1 :: rest =>
      match rest with
      | [] => true
      | e2 :: _ => negb (is_Data e1 && is_Data e2) && no_adjacent_data rest
      end
  end.

(** The stream that an event list stands for: the payload bytes and the
    other events, in order. *)
Definition stream_of (events : list Event) : list (ascii + Event) :=
  flat_map (λ e, match e with
                 | Data d => inl <$> list_ascii_of_string d
                 | _ => [inr e]
                 end) events.

(** ** An example codec

    A small wire codec with which the connection can be run on concrete
    bytes: it writes and reads start lines and header blocks in HTTP/1.1
    syntax (without validating tokens) and frames bodies by content length,
    by chunks (whole chunks, no extensions or trailers) or until the
    connection closes.  It instantiates the registries in the concrete runs
    below; the properties themselves hold for every codec. *)
Module ExampleCodec.

Definition CRLF : bytes := String "013" (String "010" "").

(** [s.split(sep, 1)] when [sep] occurs *)
Definition split_at (sep s : bytes) : option (bytes * bytes) :=
  match String.index 0 sep s with
  | Some i =>
      Some (substring 0 i s,
            substring (i + String.length sep)
              (String.length s - i - String.length sep) s)
  | None => None
  end.

Definition is_cr (c : ascii) : bool := (byte_val c =? 13)%N.
Definition is_lf (c : ascii) : bool := (byte_val c =? 10)%N.

Fixpoint split_crlf (s : bytes) : list bytes :=
  match s with
  | EmptyString => [EmptyString]
  | String c rest =>
      let continue :=
        match split_crlf rest with
        | p :: ps => String c p :: ps
        | [] => [String c EmptyString]
        end in
      match rest with
      | String c' rest' =>
          if is_cr c && is_lf c' then EmptyString :: split_crlf rest' else continue
      | EmptyString => continue
      end
  end.

Definition parse_header_line (line : bytes) : option (bytes * bytes) :=
  match split_at ":" line with
  | Some (name, value) => Some (name, strip value)
  | None => None
  end.

Fixpoint parse_header_lines (lines : list bytes) : option Headers :=
  match lines with
  | [] => Some []
  | l :: ls =>
      h ← parse_header_line l; hs ← parse_header_lines ls; Some (h :: hs)
  end.

Definition parse_version (s : bytes) : option bytes :=
  if String.prefix "HTTP/" s then Some (substring 5 (String.length s - 5) s)
  else None.

Definition parse_request (head : bytes) : option Event :=
  match split_crlf head with
  | start :: lines =>
      '(method, r) ← split_at " " start;
      '(target, v) ← split_at " " r;
      version ← parse_version v;
      headers ← parse_header_lines lines;
      Some (Request method target headers version)
  | [] => None
  end.

Definition parse_response (head : bytes) : option Event :=
  match split_crlf head with
  | start :: lines =>
      '(v, r) ← split_at " " start;
      version ← parse_version v;
      status_code ← py_int (substring 0 3 r);
      headers ← parse_header_lines lines;
      Some (if status_code <? 200
            then InformationalResponse status_code headers version
            else Response status_code headers version)
  | [] => None
  end.

Inductive Reader : Type :=
| ReadRequest
| ReadResponse
| ContentLengthReader (remaining : Z)
| ChunkedReader
| Http10Reader
| ExpectNothing.

Definition bad_message : Exc := ProtocolError "illegal message" (Some 400).

Definition read_head (parse : bytes → option Event) (buf : ReceiveBuffer)
    : (Exc + option Event) * ReceiveBuffer :=
  match split_at (CRLF ++ CRLF)%string buf with
  | None => (inr None, buf)
  | Some (head, rest) =>
      match parse head with
      | Some event => (inr (Some event), rest)
      | None => (inl bad_message, buf)
      end
  end.

Definition hex_digit_val (c : ascii) : option Z :=
  let v := byte_val (lower_byte c) in
  if is_digit c then Some (digit_val c)
  else if ((97 <=? v) && (v <=? 102))%N then Some (Z.of_N v - 87)
  else None.

Fixpoint parse_hex (s : bytes) (acc : Z) : option Z :=
  match s with
  | EmptyString => Some acc
  | String c s' => d ← hex_digit_val c; parse_hex s' (acc * 16 + d)
  end.

Definition read_chunk (buf : ReceiveBuffer) : (Exc + option Event) * ReceiveBuffer :=
  match split_at CRLF buf with
  | None => (inr None, buf)
  | Some (EmptyString, _) => (inl bad_message, buf)
  | Some (size, rest) =>
      match parse_hex size 0 with
      | None => (inl bad_message, buf)
      | Some n =>
          let n := Z.to_nat n in
          if (String.length rest <? n + 2)%nat then (inr None, buf)
          else if bool_decide (substring n 2 rest = CRLF) then
            (inr (Some (if (n =? 0)%nat then EndOfMessage []
                        else Data (substring 0 n rest))),
             substring (n + 2) (String.length rest - n - 2) rest)
          else (inl bad_message, buf)
      end
  end.

#[global] Instance reader_ops : ReaderOps Reader := {|
  call_reader reader buf :=
    match reader with
    | ReadRequest =>
        let '(r, buf) := read_head parse_request buf in (r, reader, buf)
    | ReadResponse =>
        let '(r, buf) := read_head parse_response buf in (r, reader, buf)
    | ContentLengthReader remaining =>
        if remaining =? 0 then (inr (Some (EndOfMessage [])), reader, buf)
        else
          let n := Nat.min (Z.to_nat remaining) (String.length buf) in
          if (n =? 0)%nat then (inr None, reader, buf)
          else (inr (Some (Data (substring 0 n buf))),
                ContentLengthReader (remaining - Z.of_nat n),
                substring n (String.length buf - n) buf)
    | ChunkedReader =>
        let '(r, buf) := read_chunk buf in (r, reader, buf)
    | Http10Reader =>
        if py_bool buf then (inr (Some (Data buf)), reader, EmptyString)
        else (inr None, reader, buf)
    | ExpectNothing =>
        if py_bool buf
        then (inl (ProtocolError "Got data when expecting EOF" None), reader, buf)
        else (inr None, reader, buf)
    end;
  reader_read_eof reader :=
    match reader with
    | Http10Reader => Some (inr (EndOfMessage []), reader)
    | _ => None
    end |}.

Definition READERS : IoDict Reader := {|
  io_get role state :=
    match role, state with
    | CLIENT, IDLE => Some ReadRequest
    | SERVER, IDLE | SERVER, SEND_RESPONSE => Some ReadResponse
    | _, DONE | _, MUST_CLOSE | _, CLOSED => Some ExpectNothing
    | _, _ => None
    end;
  io_body framing :=
    match framing with
    | content_length n => ContentLengthReader n
    | chunked => ChunkedReader
    | http_1_0 => Http10Reader
    end |}.

Inductive Writer : Type :=
| WriteRequest
| WriteAnyResponse
| ContentLengthWriter (remaining : Z)
| ChunkedWriter
| Http10Writer.

Definition write_headers (headers : Headers) : list bytes :=
  ((λ nv, nv.1 ++ ": " ++ nv.2 ++ CRLF)%string <$> headers) ++ [CRLF].

Definition decimal (n : Z) : bytes :=
  DecimalString.NilZero.string_of_uint (N.to_uint (Z.to_N n)).

Definition hexadecimal (n : nat) : bytes :=
  HexadecimalString.NilZero.string_of_uint (N.to_hex_uint (N.of_nat n)).

#[global] Instance writer_ops : WriterOps Writer := {|
  call_writer writer event :=
    match writer, event with
    | WriteRequest, Request method target headers _ =>
        (inr ((method ++ " " ++ target ++ " HTTP/1.1" ++ CRLF)%string
              :: write_headers headers), writer)
    | WriteAnyResponse, Response status_code headers _
    | WriteAnyResponse, InformationalResponse status_code headers _ =>
        (inr (("HTTP/1.1 " ++ decimal status_code ++ " " ++ CRLF)%string
              :: write_headers headers), writer)
    | ContentLengthWriter remaining, Data data =>
        let remaining := remaining - Z.of_nat (String.length data) in
        if remaining <? 0
        then (inl (ProtocolError "Too much data for declared Content-Length" None),
              ContentLengthWriter remaining)
        else (inr [data], ContentLengthWriter remaining)
    | ContentLengthWriter _, EndOfMessage _ => (inr [], writer)
    | ChunkedWriter, Data data =>
        (inr [(hexadecimal (String.length data) ++ CRLF)%string; data; CRLF], writer)
    | ChunkedWriter, EndOfMessage headers =>
        (inr (("0" ++ CRLF)%string :: write_headers headers), writer)
    | Http10Writer, Data data => (inr [data], writer)
    | Http10Writer, EndOfMessage _ => (inr [], writer)
    | _, _ => (inl AssertionError, writer)
    end |}.

Definition WRITERS : IoDict Writer := {|
  io_get role state :=
    match role, state with
    | CLIENT, IDLE => Some WriteRequest
    | SERVER, IDLE | SERVER, SEND_RESPONSE => Some WriteAnyResponse
    | _, _ => None
    end;
  io_body framing :=
    match framing with
    | content_length n => ContentLengthWriter n
    | chunked => ChunkedWriter
    | http_1_0 => Http10Writer
    end |}.

Definition Conn : Type := Connection Reader Writer.

Definition new (role : Role) : Conn :=
  Connection__init__ READERS WRITERS role HTTP_DEFAULT_MAX_BUFFER_SIZE.

(** Operations of the connection that leave the exception, if any, and the
    connection side by side. *)
Definition do_send (event : Event) (c : Conn) : (Exc + option bytes) * Conn :=
  send READERS WRITERS event c.

Definition do_receive (data : option bytes) (c : Conn)
    : option ((Exc + list Event) * Conn) :=
  receive_data READERS WRITERS
    (2 + String.length (_receive_buffer c) + String.length (default "" data))
    data c.

(** The connection after an operation, and the bytes a send produced. *)
Definition after_send (event : Event) (c : Conn) : Conn := (do_send event c).2.

Definition sent (event : Event) (c : Conn) : bytes :=
  match (do_send event c).1 with
  | inr (Some data) => data
  | _ => ""
  end.

Definition after_receive (data : option bytes) (c : Conn) : Conn :=
  match do_receive data c with
  | Some (_, c') => c'
  | None => c
  end.

(** *** Sample exchanges *)

Definition get_request : Event := Request "GET" "/" [("Host", "localhost")] "1.1".

(** A client that has sent a complete GET request, and the bytes it sent. *)
Definition client_after_get : Conn :=
  after_send (EndOfMessage []) (after_send get_request (new CLIENT)).

Definition get_request_bytes : bytes :=
  (sent get_request (new CLIENT)
   ++ sent (EndOfMessage []) (after_send get_request (new CLIENT)))%string.

(** The server that has received it. *)
Definition server_after_get : Conn :=
  after_receive (Some get_request_bytes) (new SERVER).

(** The server after a complete response with a declared length, and the
    client after it has read that response: both roles are [DONE]. *)
Definition hello_response : Event := Response 200 [("Content-Length", "5")] "1.1".

Definition server_after_response : Conn :=
  after_send (EndOfMessage [])
    (after_send (Data "hello") (after_send hello_response server_after_get)).

Definition response_bytes : bytes :=
  (sent hello_response server_after_get
   ++ sent (Data "hello") (after_send hello_response server_after_get))%string.

Definition client_after_response : Conn :=
  after_receive (Some response_bytes) client_after_get.

(** A client reading a response body that lasts until the connection
    closes. *)
Definition client_reading_until_close : Conn :=
  after_receive (Some ("HTTP/1.0 200 OK" ++ CRLF ++ CRLF ++ "abc")%string)
    client_after_get.

(** A server that has accepted a CONNECT request: the protocol is
    switched. *)
Definition connect_request : Event :=
  Request "CONNECT" "host:443" [("Host", "host:443")] "1.1".

Definition connect_request_bytes : bytes :=
  (sent connect_request (new CLIENT)
   ++ sent (EndOfMessage []) (after_send connect_request (new CLIENT)))%string.

Definition server_after_connect : Conn :=
  after_send (Response 200 [] "1.1")
    (after_receive (Some connect_request_bytes) (new SERVER)).

(** A server whose peer closed the connection in the middle of a request
    head. *)
Definition server_after_truncated_request : Conn :=
  after_receive (Some "") (after_receive (Some "GET / HT") (new SERVER)).

End ExampleCodec.

(** More sample values for the concrete runs. *)
Module ExampleRuns.
Import ExampleCodec.

(** What [send_with_data_passthrough] returns, and the connection after it. *)
Definition passthrough (event : Event) (c : Conn) : option (list bytes) :=
  match (send_with_data_passthrough READERS WRITERS event c).1 with
  | inr r => r
  | inl _ => None
  end.

Definition after_passthrough (event : Event) (c : Conn) : Conn :=
  (send_with_data_passthrough READERS WRITERS event c).2.

(** A server that has received a complete request from an HTTP/1.0 client. *)
Definition server_after_old_get : Conn :=
  after_receive (Some ("GET / HTTP/1.0" ++ CRLF ++ CRLF)%string) (new SERVER).

(** Three event objects: two chunks of a body and the end of the message. *)
Definition three_events : gmap positive Event :=
  <[1%positive := Data "ab"]>
    (<[2%positive := Data "c"]> (<[3%positive := EndOfMessage []]> ∅)).

End ExampleRuns.
(** * Properties *)

(** ** Header lists *)

Lemma split_comma_nonempty s : split_comma s ≠ [].
Proof.
  destruct s as [|c s]; simpl; [done|].
  destruct (is_comma c); [done|]. by destruct (split_comma s).
Qed.

Lemma comma_values_nonempty v : comma_values v ≠ [].
Proof.
  unfold comma_values. pose proof (split_comma_nonempty v).
  by destruct (split_comma v).
Qed.

Lemma get_comma_header_nil headers name :
  get_comma_header headers name = [] ↔ ¬ has_header headers name.
Proof.
  induction headers as [|[n v] rest IH]; simpl.
  - split; [|done]. intros _ (n & v & Hin & _). by apply elem_of_nil in Hin.
  - destruct (name_matches name n) eqn:Hn.
    + split.
      * intros Happ. apply app_eq_nil in Happ as [Hv _].
        by apply comma_values_nonempty in Hv.
      * intros Hno. exfalso. apply Hno. exists n, v. split; [left|done].
    + rewrite IH. split.
      * intros Hno (n' & v' & Hin & Hm). apply elem_of_cons in Hin as [Heq|Hin].
        -- inversion Heq; subst. congruence.
        -- apply Hno. by exists n', v'.
      * intros Hno (n' & v' & Hin & Hm). apply Hno. exists n', v'.
        split; [by right|done].
  Qed.

Lemma get_comma_header_cons headers name :
  has_header headers name →
  ∃ x rest, get_comma_header headers name = x :: rest.
Proof.
  intros Hh. destruct (get_comma_header headers name) as [|x rest] eqn:E.
  - by apply get_comma_header_nil in E.
  - by exists x, rest.
Qed.

(** ** Comma-separated values are stable under re-reading *)

Lemma lower_byte_idem c : lower_byte (lower_byte c) = lower_byte c.
Proof. by destruct c as [[] [] [] [] [] [] [] []]. Qed.

Lemma is_space_lower_byte c : is_space (lower_byte c) = is_space c.
Proof. by destruct c as [[] [] [] [] [] [] [] []]. Qed.

Lemma is_comma_lower_byte c : is_comma (lower_byte c) = is_comma c.
Proof. by destruct c as [[] [] [] [] [] [] [] []]. Qed.

Lemma lower_idem s : lower (lower s) = lower s.
Proof.
  induction s as [|c s IH]; simpl; [done|]. by rewrite lower_byte_idem, IH.
Qed.

Lemma lstrip_lower s : lstrip (lower s) = lower (lstrip s).
Proof.
  induction s as [|c s IH]; simpl; [done|].
  rewrite is_space_lower_byte. by destruct (is_space c).
Qed.

Lemma rstrip_lower s : rstrip (lower s) = lower (rstrip s).
Proof.
  induction s as [|c s IH]; simpl; [done|].
  rewrite IH, is_space_lower_byte.
  destruct (rstrip s); simpl; [by destruct (is_space c)|done].
Qed.

Lemma strip_lower s : strip (lower s) = lower (strip s).
Proof. unfold strip. by rewrite lstrip_lower, rstrip_lower. Qed.

Lemma rstrip_idem s : rstrip (rstrip s) = rstrip s.
Proof.
  induction s as [|c s IH]; simpl; [done|].
  destruct (rstrip s) as [|c' r] eqn:Hr.
  - destruct (is_space c) eqn:Hc; simpl; [done|]. by rewrite Hc.
  - simpl in *. by rewrite IH.
Qed.

(** A string that does not start with whitespace still does not after
    [rstrip]. *)
Lemma lstrip_rstrip_lstrip s : lstrip (rstrip (lstrip s)) = rstrip (lstrip s).
Proof.
  induction s as [|c s IH]; simpl; [done|].
  destruct (is_space c) eqn:Hc; [done|]. simpl.
  destruct (rstrip s); rewrite ?Hc; simpl; by rewrite Hc.
Qed.

Lemma strip_idem s : strip (strip s) = strip s.
Proof. unfold strip. by rewrite lstrip_rstrip_lstrip, rstrip_idem. Qed.

Lemma has_comma_lower s : has_comma (lower s) = has_comma s.
Proof.
  induction s as [|c s IH]; simpl; [done|].
  by rewrite is_comma_lower_byte, IH.
Qed.

Lemma has_comma_lstrip s : has_comma s = false → has_comma (lstrip s) = false.
Proof.
  induction s as [|c s IH]; simpl; [done|].
  intros [Hc Hs]%orb_false_iff. destruct (is_space c); [by apply IH|].
  simpl. by rewrite Hc, Hs.
Qed.

Lemma has_comma_rstrip s : has_comma s = false → has_comma (rstrip s) = false.
Proof.
  induction s as [|c s IH]; simpl; [done|].
  intros [Hc Hs]%orb_false_iff. specialize (IH Hs).
  destruct (rstrip s); simpl in *.
  - destruct (is_space c); simpl; [done|]. by rewrite Hc.
  - by rewrite Hc, IH.
Qed.

Lemma split_comma_pieces s p : p ∈ split_comma s → has_comma p = false.
Proof.
  revert p. induction s as [|c s IH]; simpl; intros p Hp.
  - apply list_elem_of_singleton in Hp as ->. done.
  - destruct (is_comma c) eqn:Hc.
    + apply elem_of_cons in Hp as [->|Hp]; [done|by apply IH].
    + destruct (split_comma s) as [|q qs].
      * apply list_elem_of_singleton in Hp as ->. simpl. by rewrite Hc.
      * apply elem_of_cons in Hp as [->|Hp].
        -- simpl. rewrite Hc. apply IH. by left.
        -- apply IH. by right.
Qed.

Lemma split_comma_no_comma s : has_comma s = false → split_comma s = [s].
Proof.
  induction s as [|c s IH]; simpl; [done|].
  intros [Hc Hs]%orb_false_iff. by rewrite Hc, (IH Hs).
Qed.

(** Reading an element of a comma-separated value again gives that
    element. *)
Lemma comma_values_stable v x : x ∈ comma_values v → comma_values x = [x].
Proof.
  unfold comma_values. intros (p & -> & Hp)%list_elem_of_fmap.
  apply split_comma_pieces in Hp.
  rewrite split_comma_no_comma.
  - simpl. by rewrite strip_lower, strip_idem, lower_idem.
  - rewrite has_comma_lower. unfold strip.
    by apply has_comma_rstrip, has_comma_lstrip.
Qed.

Lemma get_comma_header_stable headers name x :
  x ∈ get_comma_header headers name → comma_values x = [x].
Proof.
  induction headers as [|[n v] rest IH]; simpl.
  - by intros ?%elem_of_nil.
  - destruct (name_matches name n); [|done].
    intros [Hx|Hx]%elem_of_app; [by eapply comma_values_stable|by apply IH].
Qed.

(** ** [set_comma_header] *)

Lemma name_matches_refl name : name_matches name name = true.
Proof. unfold name_matches, bytes_eqb. by apply bool_decide_eq_true. Qed.

Lemma name_matches_trans a b n :
  name_matches a n = true → name_matches b n = true →
  name_matches a b = true.
Proof.
  unfold name_matches, bytes_eqb. rewrite !bool_decide_eq_true. congruence.
Qed.

Lemma elem_of_set_comma_header headers name values n v :
  (n, v) ∈ set_comma_header headers name values ↔
  ((n, v) ∈ headers ∧ name_matches name n = false) ∨ (n = name ∧ v ∈ values).
Proof.
  unfold set_comma_header. rewrite elem_of_app, list_elem_of_filter.
  rewrite list_elem_of_fmap. unfold has_other_name. simpl. split.
  - intros [[? ?]|(x & [= -> ->] & ?)]; [by left|by right].
  - intros [[? ?]|[-> ?]]; [by left|right; eauto].
Qed.

Lemma get_comma_header_app h1 h2 name :
  get_comma_header (h1 ++ h2) name
  = get_comma_header h1 name ++ get_comma_header h2 name.
Proof.
  induction h1 as [|[n v] h1 IH]; simpl; [done|].
  destruct (name_matches name n); [|done]. by rewrite IH, app_assoc.
Qed.

Lemma get_comma_header_filter_other headers name other :
  name_matches name other = false →
  get_comma_header (filter (has_other_name other) headers) name
  = get_comma_header headers name.
Proof.
  intros Hne. induction headers as [|[n v] rest IH]; [done|].
  rewrite filter_cons. simpl. destruct (name_matches other n) eqn:Ho.
  - rewrite decide_False by (unfold has_other_name; simpl; congruence).
    destruct (name_matches name n) eqn:Hn; [|done].
    exfalso. pose proof (name_matches_trans name other n Hn Ho). congruence.
  - rewrite decide_True by done. simpl. by rewrite IH.
Qed.

Lemma get_comma_header_filter_same headers name :
  get_comma_header (filter (has_other_name name) headers) name
  = [].
Proof.
  induction headers as [|[n v] rest IH]; [done|].
  rewrite filter_cons. simpl. destruct (name_matches name n) eqn:Hn.
  - by rewrite decide_False by (unfold has_other_name; simpl; congruence).
  - rewrite decide_True by done. simpl. by rewrite Hn.
Qed.

Lemma get_comma_header_new_entries name other values :
  get_comma_header ((λ v, (other, v)) <$> values) name
  = if name_matches name other then mjoin (comma_values <$> values) else [].
Proof.
  induction values as [|v values IH]; simpl; [by destruct (_ : bool)|].
  destruct (name_matches name other); [|done]. f_equal. exact IH.
Qed.

(** Setting another header leaves the values of this one as they are. *)
Lemma get_comma_header_set_other headers name other values :
  name_matches name other = false →
  get_comma_header (set_comma_header headers other values) name
  = get_comma_header headers name.
Proof.
  intros Hne. unfold set_comma_header.
  rewrite get_comma_header_app, get_comma_header_new_entries, Hne, app_nil_r.
  by apply get_comma_header_filter_other.
Qed.

(** Reading back a header that was set to stable values gives these
    values. *)
Lemma get_comma_header_set_same headers name values :
  (∀ x, x ∈ values → comma_values x = [x]) →
  get_comma_header (set_comma_header headers name values) name = values.
Proof.
  intros Hst. unfold set_comma_header.
  rewrite get_comma_header_app, get_comma_header_filter_same,
    get_comma_header_new_entries, name_matches_refl. simpl.
  induction values as [|v values IH]; [done|]. simpl.
  rewrite (Hst v) by left. simpl. f_equal. apply IH.
  intros x Hx. apply Hst. by right.
Qed.

Lemma elem_of_sorted_insert x y l : x ∈ sorted_insert y l ↔ x = y ∨ x ∈ l.
Proof.
  induction l as [|z l IH]; simpl.
  - rewrite list_elem_of_singleton. split; [by left|]. intros [?|?%elem_of_nil]; done.
  - destruct (bytes_ltb z y); rewrite !elem_of_cons; [rewrite IH|]; tauto.
Qed.

Lemma elem_of_py_sorted x l : x ∈ py_sorted l ↔ x ∈ l.
Proof.
  induction l as [|y l IH]; simpl; [done|].
  rewrite elem_of_sorted_insert, IH, elem_of_cons. tauto.
Qed.

(** ** The body-framing decision *)

Example framing_get_200 :
  _body_framing (Some "GET") (Some (Response 200 [("Content-Length", " 5 ")] "1.1"))
  = inr (content_length 5).
Proof. vm_compute. reflexivity. Qed.


Lemma py_bytes_eq_true a b : py_bytes_eq a b = true ↔ a = Some b.
Proof.
  destruct a as [x|]; simpl; [|done]. unfold bytes_eqb.
  rewrite bool_decide_eq_true. split; congruence.
Qed.

Lemma step1_condition request_method status_code :
  bool_decide (status_code = 204) || bool_decide (status_code = 304)
  || py_bytes_eq request_method "HEAD"
  || (py_bytes_eq request_method "CONNECT"
      && (200 <=? status_code) && (status_code <? 300)) = true
  ↔ empty_body_response request_method status_code.
Proof.
  unfold empty_body_response.
  rewrite !orb_true_iff, !andb_true_iff, !bool_decide_eq_true,
    !py_bytes_eq_true, Z.leb_le, Z.ltb_lt.
  intuition.
Qed.

(** What the decision does once it looks at the headers (steps 2 to 4). *)
Lemma body_framing_by_headers request_method e headers :
  framed_by_headers request_method e →
  event_headers e = Some headers →
  _body_framing request_method (Some e) =
    match get_comma_header headers "Transfer-Encoding" with
    | _ :: _ =>
        if bool_decide (get_comma_header headers "Transfer-Encoding" = ["chunked"])
        then inr chunked else inl AssertionError
    | [] =>
        match get_comma_header headers "Content-Length" with
        | c0 :: _ =>
            match py_int c0 with
            | Some n => inr (content_length n)
            | None => inl ValueError
            end
        | [] => if bool_decide (type_of e = TRequest)
                then inr (content_length 0) else inr http_1_0
        end
    end.
Proof.
  intros Hf Hh. destruct e; simpl in Hf, Hh; try done; simplify_eq.
  - reflexivity.
  - destruct Hf as [Hno Hge]. unfold _body_framing.
    destruct (_ || _) eqn:Hc; [by apply step1_condition in Hc|].
    apply Z.leb_le in Hge. rewrite Hge. reflexivity.
Qed.

Lemma body_framing_empty_body request_method status_code headers http_version :
  empty_body_response request_method status_code →
  _body_framing request_method (Some (Response status_code headers http_version))
  = inr (content_length 0).
Proof.
  intros Hc. apply step1_condition in Hc. unfold _body_framing. by rewrite Hc.
Qed.

(** C1 (as amended).  Given the recorded request method [m] and a Request or
    Response event [e], the body-framing decision returns content-length 0
    when [e] is a Response with status 204 or 304, or answering HEAD, or
    answering CONNECT with a status in 200-299; otherwise chunked when [e]
    carries a Transfer-Encoding header, which must be exactly [chunked]
    (the assertion fails on any other value); otherwise, when [e] carries a
    Content-Length header, content-length with the integer parsed from the
    first element of the comma-separated Content-Length values, further
    values not being compared with it; otherwise content-length 0 for a
    Request and http/1.0 framing for a Response. *)
Theorem body_framing_decision (m : option bytes) (e : Event) (headers : Headers) :
  event_headers e = Some headers →
  (∀ status_code h v,
     e = Response status_code h v → empty_body_response m status_code →
     _body_framing m (Some e) = inr (content_length 0))
  ∧ (framed_by_headers m e →
     (has_header headers "Transfer-Encoding" →
        (get_comma_header headers "Transfer-Encoding" = ["chunked"] →
         _body_framing m (Some e) = inr chunked)
        ∧ (get_comma_header headers "Transfer-Encoding" ≠ ["chunked"] →
           _body_framing m (Some e) = inl AssertionError))
     ∧ (¬ has_header headers "Transfer-Encoding" →
        has_header headers "Content-Length" →
        ∃ c0 rest,
          get_comma_header headers "Content-Length" = c0 :: rest
          ∧ _body_framing m (Some e) =
              match py_int c0 with
              | Some n => inr (content_length n)
              | None => inl ValueError
              end)
     ∧ (¬ has_header headers "Transfer-Encoding" →
        ¬ has_header headers "Content-Length" →
        _body_framing m (Some e) =
          if bool_decide (type_of e = TRequest)
          then inr (content_length 0) else inr http_1_0)).
Proof.
  intros Hh. split.
  - intros sc h v -> Hc. by apply body_framing_empty_body.
  - intros Hf. rewrite (body_framing_by_headers m e headers Hf Hh).
    split; [|split].
    + intros Hte. apply get_comma_header_cons in Hte as (x & rest & ->).
      split; intros Hc.
      * by rewrite bool_decide_eq_true_2.
      * by rewrite bool_decide_eq_false_2.
    + intros Hte Hcl. apply get_comma_header_nil in Hte as ->.
      apply get_comma_header_cons in Hcl as (c0 & rest & ->). by exists c0, rest.
    + intros Hte Hcl. apply get_comma_header_nil in Hte as ->.
      by apply get_comma_header_nil in Hcl as ->.
Qed.

Lemma body_framing_decision_witness :
  _body_framing (Some "GET")
    (Some (Response 200 [("Content-Length", "12")] "1.1"))
  = inr (content_length 12).
Proof.
  pose proof (body_framing_decision (Some "GET")
                (Response 200 [("Content-Length", "12")] "1.1")
                [("Content-Length", "12")] eq_refl) as [_ H].
  assert (Hf : framed_by_headers (Some "GET")
                 (Response 200 [("Content-Length", "12")] "1.1")).
  { split; [|lia]. intros [?|[?|[?|[? _]]]]; done. }
  destruct (H Hf) as (_ & Hcl & _).
  destruct Hcl as (c0 & rest & Hl & ->).
  - intros Hte. by apply get_comma_header_nil in Hte.
  - exists "Content-Length", "12". split; [left|done].
  - vm_compute in Hl. by simplify_eq.
Defined.

(** C1 as first stated does not hold: two conflicting Content-Length values
    are not rejected, the first one is used. *)
Lemma body_framing_conflicting_content_lengths :
  get_comma_header [("Content-Length", "5"); ("Content-Length", "6")]
    "Content-Length" = ["5"; "6"]
  ∧ py_int "5" ≠ py_int "6"
  ∧ _body_framing (Some "GET")
      (Some (Response 200 [("Content-Length", "5"); ("Content-Length", "6")] "1.1"))
    = inr (content_length 5).
Proof. by vm_compute. Qed.

(** ** The state machine: frame properties *)

Lemma fire_keep_alive cs :
  keep_alive (fire_state_triggered_transitions cs) = keep_alive cs.
Proof. reflexivity. Qed.

Lemma process_event_keep_alive cs role ty sw cs' :
  process_event cs role ty sw = inr cs' → keep_alive cs' = keep_alive cs.
Proof.
  unfold process_event. destruct (event_transition _ _ _ _); [|done].
  intros [= <-]. reflexivity.
Qed.

Lemma process_client_switch_proposals_keep_alive cs l :
  keep_alive (process_client_switch_proposals cs l) = keep_alive cs.
Proof. reflexivity. Qed.

Lemma process_error_keep_alive cs role :
  keep_alive (process_error cs role) = keep_alive cs.
Proof. reflexivity. Qed.

Lemma process_keep_alive_disabled_keep_alive cs :
  keep_alive (process_keep_alive_disabled cs) = false.
Proof. reflexivity. Qed.

Lemma cstate_prepare_to_reuse_keep_alive cs cs' :
  cstate_prepare_to_reuse cs = inr cs' → keep_alive cs' = keep_alive cs.
Proof.
  unfold cstate_prepare_to_reuse. destruct (_ && _); [|done].
  intros [= <-]. reflexivity.
Qed.

Lemma process_error_states cs role role' :
  states_get (states (process_error cs role)) role' =
  if bool_decide (role' = role) then ERROR else states_get (states cs) role'.
Proof. by destruct role, role'. Qed.

(** ** The state machine: requests and responses *)

Ltac fire_cases cs :=
  destruct cs as [ka p [cst sst]];
  unfold fire_state_triggered_transitions; simpl;
  destruct (bool_decide (p = ∅)); destruct ka, cst, sst; simpl.

Lemma fire_keeps_send_body cs role :
  states_get (states cs) role = SEND_BODY →
  states_get (states (fire_state_triggered_transitions cs)) role = SEND_BODY.
Proof. fire_cases cs; by destruct role. Qed.

Lemma fire_client_idle cs :
  states_get (states (fire_state_triggered_transitions cs)) CLIENT = IDLE →
  states_get (states cs) CLIENT = IDLE.
Proof. fire_cases cs; done. Qed.

Lemma process_event_request cs role cs' :
  process_event cs role TRequest None = inr cs' →
  role = CLIENT ∧ states_get (states cs) CLIENT = IDLE
  ∧ states_get (states cs') CLIENT = SEND_BODY.
Proof.
  unfold process_event.
  destruct (event_transition _ _ _ _) as [st|] eqn:Ht; [|done].
  intros [= <-].
  assert (role = CLIENT ∧ states_get (states cs) role = IDLE ∧ st = SEND_BODY)
    as (-> & Hs & ->).
  { destruct role, (states_get (states cs) _); simpl in Ht; by simplify_eq. }
  split; [done|]. split; [done|]. apply fire_keeps_send_body.
  destruct cs as [ka p [cst sst]]. simpl in *.
  by case_bool_decide.
Qed.

Lemma process_event_response cs role cs' :
  process_event cs role TResponse None = inr cs' →
  role = SERVER ∧ states_get (states cs) SERVER = SEND_RESPONSE
  ∧ states_get (states cs') SERVER = SEND_BODY.
Proof.
  unfold process_event.
  destruct (event_transition _ _ _ _) as [st|] eqn:Ht; [|done].
  intros [= <-].
  assert (role = SERVER ∧ states_get (states cs) role = SEND_RESPONSE
          ∧ st = SEND_BODY) as (-> & Hs & ->).
  { destruct role, (states_get (states cs) _); simpl in Ht; by simplify_eq. }
  split; [done|]. split; [done|]. apply fire_keeps_send_body.
  by destruct cs as [ka p [cst sst]].
Qed.

(** A client that sends its body, or is in [ERROR], is not moved by the
    state-triggered transitions, nor by what the server does. *)
Definition sending_or_error (st : State) : Prop := st = SEND_BODY ∨ st = ERROR.

Lemma fire_keeps_client cs :
  sending_or_error (states_get (states cs) CLIENT) →
  states_get (states (fire_state_triggered_transitions cs)) CLIENT
  = states_get (states cs) CLIENT.
Proof. intros [H|H]; revert H; fire_cases cs; done. Qed.

Lemma process_event_server_keeps_client cs ty cs' :
  process_event cs SERVER ty None = inr cs' →
  sending_or_error (states_get (states cs) CLIENT) →
  states_get (states cs') CLIENT = states_get (states cs) CLIENT.
Proof.
  unfold process_event.
  destruct (event_transition _ _ _ _) as [st|] eqn:Ht; [|done].
  intros [= <-] Hc. rewrite fire_keeps_client.
  - destruct cs as [ka p [cst sst]]. simpl. by case_bool_decide.
  - destruct cs as [ka p [cst sst]]. simpl in *. by case_bool_decide.
Qed.

Lemma process_event_client_sending cs ty cs' :
  process_event cs CLIENT ty None = inr cs' →
  sending_or_error (states_get (states cs) CLIENT) →
  ty = TData ∨ ty = TEndOfMessage.
Proof.
  unfold process_event.
  destruct (event_transition _ _ _ _) as [st|] eqn:Ht; [|done].
  intros _ [Hc|Hc]; rewrite Hc in Ht; destruct ty; simpl in Ht;
    try done; auto.
Qed.

Section ConnectionFacts.
Context {R W : Type} `{!ReaderOps R} `{!WriterOps W}.
Variable READERS : IoDict R.
Variable WRITERS : IoDict W.

#[local] Abbreviation Conn := (Connection R W).

Lemma same_but_codecs_refl (c : Conn) : same_but_codecs c c.
Proof. exists (_writer c), (_reader c). by destruct c. Qed.

Lemma get_io_object_state {T} role event (d : IoDict T) (c : Conn) res c' :
  _get_io_object role event d c = (res, c') → c' = c.
Proof.
  unfold _get_io_object. repeat case_match; by intros [= _ <-].
Qed.

(** If the role is not in [SEND_BODY], looking its codec up cannot fail. *)
Lemma get_io_object_not_body {T} role event (d : IoDict T) (c : Conn) :
  state_of c role ≠ SEND_BODY →
  _get_io_object role event d c = (inr (io_get d role (state_of c role)), c).
Proof.
  intros Hne. unfold _get_io_object, state_of in *.
  by rewrite bool_decide_eq_false_2.
Qed.

Lemma respond_to_state_changes_unfold old event (c : Conn) :
  _respond_to_state_changes READERS WRITERS old event c =
  let r1 :=
    if bool_decide (our_state c ≠ states_get old (our_role c))
    then match _get_io_object (our_role c) event WRITERS c with
         | (inl e, c1) => (inl e, c1)
         | (inr w, c1) => (inr (), set_writer w c1)
         end
    else (inr (), c) in
  match r1 with
  | (inl e, c1) => (inl e, c1)
  | (inr _, c1) =>
      if bool_decide (their_state c ≠ states_get old (their_role c))
      then match _get_io_object (their_role c) event READERS c1 with
           | (inl e, c2) => (inl e, c2)
           | (inr r, c2) => (inr (), set_reader r c2)
           end
      else (inr (), c1)
  end.
Proof.
  unfold _respond_to_state_changes. unfold_M.
  destruct (bool_decide (our_state c ≠ _)), (bool_decide (their_state c ≠ _));
    cbv beta zeta; reflexivity.
Qed.

Lemma respond_to_state_changes_frame old event (c : Conn) res c' :
  _respond_to_state_changes READERS WRITERS old event c = (res, c') →
  same_but_codecs c c'.
Proof.
  rewrite respond_to_state_changes_unfold. cbv zeta.
  destruct (bool_decide (our_state c ≠ _)).
  - destruct (_get_io_object (our_role c) event WRITERS c) as [[e|w] c1] eqn:E1;
      apply get_io_object_state in E1 as ->.
    + intros [= _ <-]. apply same_but_codecs_refl.
    + destruct (bool_decide (their_state c ≠ _)).
      * destruct (_get_io_object (their_role c) event READERS (set_writer w c))
          as [[e|r] c2] eqn:E2; apply get_io_object_state in E2 as ->;
          intros [= _ <-].
        -- exists w, (_reader c). by destruct c.
        -- by exists w, r.
      * intros [= _ <-]. exists w, (_reader c). by destruct c.
  - destruct (bool_decide (their_state c ≠ _)).
    + destruct (_get_io_object (their_role c) event READERS c)
        as [[e|r] c2] eqn:E2; apply get_io_object_state in E2 as ->;
        intros [= _ <-].
      * apply same_but_codecs_refl.
      * exists (_writer c), r. by destruct c.
    + intros [= _ <-]. apply same_but_codecs_refl.
Qed.

Lemma same_but_codecs_cstate (c c' : Conn) :
  same_but_codecs c c' → _cstate c' = _cstate c.
Proof. by intros (w & r & ->). Qed.

Lemma process_event_stages role event (c : Conn) :
  _process_event READERS WRITERS role event c =
  let c1 := after_switch_proposals role event c in
  match process_event (_cstate c1) role (type_of event)
          (switch_event_for role event c1) with
  | inl e => (inl e, c1)
  | inr cs =>
      _respond_to_state_changes READERS WRITERS (states (_cstate c)) (Some event)
        (attribute_updates role event cs c1)
  end.
Proof.
  unfold _process_event, after_switch_proposals, switch_event_for,
    attribute_updates.
  unfold_M.
  destruct (bool_decide (role = CLIENT) && is_Request event); simpl;
  match goal with
  | |- context [process_event ?a ?b ?c ?d] =>
      destruct (process_event a b c d) as [e|cs]; [reflexivity|]
  end;
  destruct event; unfold their_role; simpl;
    repeat match goal with
    | |- context [if ?b then _ else _] => destruct b; simpl
    end; reflexivity.
Qed.

(** ** The keep-alive latch *)

Lemma keep_alive_false event :
  _keep_alive event = false ↔
  "close" ∈ get_comma_header (default [] (event_headers event)) "Connection"
  ∨ bytes_ltb (event_http_version event) "1.1" = true.
Proof.
  unfold _keep_alive, bytes_in. case_bool_decide as Hc.
  - split; [by left|done].
  - destruct (bytes_ltb _ _); split; try done; [by right|by intros [?|?]].
Qed.

(** For versions written as one digit, a dot and one digit, the bytes
    comparison with [1.1] is the comparison of version numbers. *)
Lemma version_below_1_1 (major minor : ascii) :
  is_digit major = true → is_digit minor = true →
  bytes_ltb (String major (String "." (String minor ""))) "1.1" = true
  ↔ (digit_val major < 1 ∨ (digit_val major = 1 ∧ digit_val minor < 1)).
Proof.
  unfold is_digit, digit_val, bytes_ltb.
  change (byte_val "1") with 49%N. change (byte_val ".") with 46%N.
  intros [H1 H2]%andb_true_iff [H3 H4]%andb_true_iff.
  apply N.leb_le in H1, H2, H3, H4.
  change (46 <? 46)%N with false. cbv iota.
  destruct (N.ltb_spec (byte_val major) 49), (N.ltb_spec 49 (byte_val major)),
    (N.ltb_spec (byte_val minor) 49), (N.ltb_spec 49 (byte_val minor));
    split; intros; try done; lia.
Qed.

Lemma latch_condition event :
  (is_Request event || is_Response event) && negb (_keep_alive event) = true
  ↔ asks_to_close event.
Proof.
  unfold asks_to_close, is_Request, is_Response.
  rewrite andb_true_iff, orb_true_iff, !bool_decide_eq_true, negb_true_iff.
  by rewrite keep_alive_false.
Qed.

Lemma attribute_updates_keep_alive role event cs (c : Conn) :
  keep_alive (_cstate (attribute_updates role event cs c)) =
  keep_alive cs
  && negb ((is_Request event || is_Response event) && negb (_keep_alive event)).
Proof.
  unfold attribute_updates, their_role.
  destruct ((is_Request event || is_Response event) && negb (_keep_alive event));
    destruct event; simpl;
    repeat match goal with
    | |- context [if ?b then _ else _] => destruct b; simpl
    end; by rewrite ?andb_true_r, ?andb_false_r.
Qed.

Lemma after_switch_proposals_keep_alive role event (c : Conn) :
  keep_alive (_cstate (after_switch_proposals role event c))
  = keep_alive (_cstate c).
Proof. unfold after_switch_proposals. by destruct (_ && _). Qed.

Lemma process_error_conn_frame role (c : Conn) :
  _process_error READERS WRITERS role c =
  _respond_to_state_changes READERS WRITERS (states (_cstate c)) None
    (set_cstate (process_error (_cstate c) role) c).
Proof. reflexivity. Qed.

(** C3.  [keep_alive] is latched to false exactly by processing a Request
    or Response event whose Connection header, read as a comma-separated
    list, contains [close], or whose HTTP version is below 1.1.  No other
    event changes [keep_alive]; in particular an InformationalResponse never
    affects it, and neither do the error transition or [prepare_to_reuse]. *)
Theorem keep_alive_latched_by_close_or_old_version :
  (∀ role event (c : Conn),
     let r := _process_event READERS WRITERS role event c in
     (r.1 = inr () →
      (keep_alive (_cstate r.2) = false
       ↔ keep_alive (_cstate c) = false ∨ asks_to_close event))
     ∧ (keep_alive (_cstate r.2) = keep_alive (_cstate c)
        ∨ (keep_alive (_cstate r.2) = false ∧ asks_to_close event))
     ∧ (type_of event = TInformationalResponse →
        keep_alive (_cstate r.2) = keep_alive (_cstate c)))
  ∧ (∀ role (c : Conn),
       keep_alive (_cstate (_process_error READERS WRITERS role c).2)
       = keep_alive (_cstate c))
  ∧ (∀ c : Conn,
       keep_alive (_cstate (prepare_to_reuse READERS WRITERS c).2)
       = keep_alive (_cstate c)).
Proof.
  split; [|split].
  - intros role event c r.
    assert (Hcases :
      keep_alive (_cstate r.2) = keep_alive (_cstate c)
      ∨ (r.1 = inr () → False) ∧ keep_alive (_cstate r.2) = keep_alive (_cstate c)
      ∨ keep_alive (_cstate r.2) =
          keep_alive (_cstate c)
          && negb ((is_Request event || is_Response event)
                   && negb (_keep_alive event))).
    { subst r. rewrite process_event_stages. simpl.
      destruct (process_event _ _ _ _) as [e|cs] eqn:Hpe; simpl.
      - left. apply after_switch_proposals_keep_alive.
      - right. right.
        destruct (_respond_to_state_changes _ _ _ _ _) as [res c'] eqn:Hr.
        apply respond_to_state_changes_frame, same_but_codecs_cstate in Hr.
        simpl. rewrite Hr, attribute_updates_keep_alive.
        apply process_event_keep_alive in Hpe.
        by rewrite Hpe, after_switch_proposals_keep_alive. }
    assert (Hok : r.1 = inr () →
      keep_alive (_cstate r.2) =
        keep_alive (_cstate c)
        && negb ((is_Request event || is_Response event)
                 && negb (_keep_alive event))).
    { intros Hr. subst r. revert Hr. rewrite process_event_stages. simpl.
      destruct (process_event _ _ _ _) as [e|cs] eqn:Hpe; simpl; [done|].
      intros _.
      destruct (_respond_to_state_changes _ _ _ _ _) as [res c'] eqn:Hr.
      apply respond_to_state_changes_frame, same_but_codecs_cstate in Hr.
      simpl. rewrite Hr, attribute_updates_keep_alive.
      apply process_event_keep_alive in Hpe.
      by rewrite Hpe, after_switch_proposals_keep_alive. }
    pose proof (latch_condition event) as Hl.
    destruct ((is_Request event || is_Response event)
              && negb (_keep_alive event)) eqn:Hb.
    + assert (asks_to_close event) as Ha by by apply Hl.
      rewrite andb_false_r in *. split; [|split].
      * intros Hr. rewrite (Hok Hr). split; [by right|done].
      * destruct Hcases as [?|[[_ ?]|?]]; [by left|by left|by right].
      * intros Hty. destruct Ha as [[Ht|Ht] _]; congruence.
    + assert (¬ asks_to_close event) as Ha.
      { intros Ha. apply Hl in Ha. done. }
      rewrite andb_true_r in *. split; [|split].
      * intros Hr. rewrite (Hok Hr). split; [by left|]. by intros [?|?].
      * destruct Hcases as [?|[[_ ?]|?]]; by left.
      * intros _. destruct Hcases as [?|[[_ ?]|?]]; done.
  - intros role c. rewrite process_error_conn_frame.
    destruct (_respond_to_state_changes _ _ _ _ _) as [res c'] eqn:Hr.
    apply respond_to_state_changes_frame, same_but_codecs_cstate in Hr.
    simpl. by rewrite Hr.
  - intros c. unfold prepare_to_reuse. unfold_M.
    destruct (cstate_prepare_to_reuse (_cstate c)) as [e|cs] eqn:Hp; [done|].
    apply cstate_prepare_to_reuse_keep_alive in Hp.
    destruct (client_is_waiting_for_100_continue c); simpl; [done|].
    destruct (_respond_to_state_changes _ _ _ _ _) as [res c'] eqn:Hr.
    apply respond_to_state_changes_frame, same_but_codecs_cstate in Hr.
    simpl. by rewrite Hr.
Qed.

(** ** Looking the codecs up again *)

Lemma state_of_same_but_codecs (c c' : Conn) role :
  same_but_codecs c c' → state_of c' role = state_of c role.
Proof. by intros (w & r & ->). Qed.

(** The lookup succeeds when no role has just entered [SEND_BODY]. *)
Lemma respond_to_state_changes_ok old event (c : Conn) :
  (our_state c = states_get old (our_role c) ∨ our_state c ≠ SEND_BODY) →
  (their_state c = states_get old (their_role c) ∨ their_state c ≠ SEND_BODY) →
  (_respond_to_state_changes READERS WRITERS old event c).1 = inr ().
Proof.
  intros Ho Ht. rewrite respond_to_state_changes_unfold. cbv zeta.
  assert (Hr : ∀ w,
    (if bool_decide (their_state c ≠ states_get old (their_role c))
     then match _get_io_object (their_role c) event READERS (set_writer w c) with
          | (inl e, c2) => (inl e, c2)
          | (inr r, c2) => (inr (), set_reader r c2)
          end
     else (inr (), set_writer w c)).1 = inr ()).
  { intros w. destruct (bool_decide (their_state c ≠ _)) eqn:Hc; [|reflexivity].
    apply bool_decide_eq_true in Hc. destruct Ht as [Ht|Ht]; [done|].
    rewrite get_io_object_not_body; [reflexivity|]. exact Ht. }
  destruct (bool_decide (our_state c ≠ _)) eqn:Hc.
  - apply bool_decide_eq_true in Hc. destruct Ho as [Ho|Ho]; [done|].
    rewrite get_io_object_not_body by exact Ho. apply Hr.
  - specialize (Hr (_writer c)). by destruct c.
Qed.

(** It fails when a role has just entered [SEND_BODY] and the framing
    decision fails. *)
Lemma respond_to_state_changes_fails old event (c : Conn) e role :
  role = our_role c ∨ role = their_role c →
  state_of c role ≠ states_get old role →
  state_of c role = SEND_BODY →
  _body_framing (_request_method c) event = inl e →
  (_respond_to_state_changes READERS WRITERS old event c).1 = inl e.
Proof.
  intros Hrole Hch Hsb Hf. rewrite respond_to_state_changes_unfold. cbv zeta.
  assert (Hg : ∀ {T} (d : IoDict T) (c1 : Conn) role1,
            _request_method c1 = _request_method c →
            state_of c1 role1 = SEND_BODY →
            _get_io_object role1 event d c1 = (inl e, c1)).
  { intros T d c1 role1 Hm Hs. unfold _get_io_object, state_of in *.
    rewrite bool_decide_eq_true_2 by done. by rewrite Hm, Hf. }
  destruct (bool_decide (our_state c ≠ states_get old (our_role c))) eqn:Ho.
  - destruct (decide (our_state c = SEND_BODY)) as [Hos|Hos].
    + by rewrite (Hg _ WRITERS c (our_role c)).
    + rewrite get_io_object_not_body by exact Hos.
      destruct Hrole as [-> | ->]; [done|].
      rewrite bool_decide_eq_true_2 by done.
      by rewrite (Hg _ READERS (set_writer _ c) (their_role c)).
  - apply bool_decide_eq_false in Ho.
    destruct Hrole as [-> | ->]; [done|].
    rewrite bool_decide_eq_true_2 by done.
    by rewrite (Hg _ READERS c (their_role c)).
Qed.

(** ** The error transition *)

Lemma other_role_ne role : other_role role ≠ role.
Proof. by destruct role. Qed.

(** [_process_error] never raises; it puts the role in [ERROR] and leaves
    the state of the other role as it is. *)
Lemma process_error_conn role (c : Conn) :
  let r := _process_error READERS WRITERS role c in
  r.1 = inr () ∧ state_of r.2 role = ERROR
  ∧ state_of r.2 (other_role role) = state_of c (other_role role)
  ∧ same_but_codecs (set_cstate (process_error (_cstate c) role) c) r.2.
Proof.
  intros r. subst r. rewrite process_error_conn_frame.
  set (c1 := set_cstate (process_error (_cstate c) role) c).
  assert (Hst : ∀ role', state_of c1 role' =
            if bool_decide (role' = role) then ERROR else state_of c role').
  { intros role'. unfold c1, state_of. simpl. apply process_error_states. }
  assert (Hok : ∀ role', state_of c1 role' = states_get (states (_cstate c)) role'
                         ∨ state_of c1 role' ≠ SEND_BODY).
  { intros role'. rewrite Hst. case_bool_decide; [by right|by left]. }
  split; [|split; [|split]].
  - apply respond_to_state_changes_ok; apply Hok.
  - destruct (_respond_to_state_changes _ _ _ _ _) as [res c'] eqn:Hr.
    apply respond_to_state_changes_frame in Hr. simpl.
    rewrite (state_of_same_but_codecs _ _ _ Hr), Hst.
    by rewrite bool_decide_eq_true_2.
  - destruct (_respond_to_state_changes _ _ _ _ _) as [res c'] eqn:Hr.
    apply respond_to_state_changes_frame in Hr. simpl.
    rewrite (state_of_same_but_codecs _ _ _ Hr), Hst.
    rewrite bool_decide_eq_false_2; [done|apply other_role_ne].
  - destruct (_respond_to_state_changes _ _ _ _ _) as [res c'] eqn:Hr.
    by apply respond_to_state_changes_frame in Hr.
Qed.

(** ** Errors put the role in [ERROR] *)

Lemma receive_data_raises fuel data (c : Conn) e c' :
  receive_data READERS WRITERS fuel data c = Some (inl e, c') →
  (their_state c = ERROR ∧ c' = c
   ∧ e = ProtocolError "Can't receive data when peer state is ERROR" None)
  ∨ (their_state c ≠ ERROR
     ∧ ∃ c1, receive_data_try READERS WRITERS fuel data c = Some (inl e, c1)
             ∧ c' = (_process_error READERS WRITERS (their_role c1) c1).2).
Proof.
  unfold receive_data. case_bool_decide as Hs.
  - intros [= <- <-]. by left.
  - destruct (receive_data_try _ _ _ _ _) as [[[e1|evs] c1]|] eqn:Ht; [|done|done].
    pose proof (process_error_conn (their_role c1) c1) as [Hok _].
    destruct (_process_error _ _ _ _) as [[e2|[]] c2] eqn:Hpe; [done|].
    intros [= <- <-]. right. split; [done|]. exists c1.
    split; [reflexivity|]. by rewrite ?Hpe.
Qed.

Lemma send_raises event (c : Conn) e c' :
  send_with_data_passthrough READERS WRITERS event c = (inl e, c') →
  (our_state c = ERROR ∧ c' = c
   ∧ e = ProtocolError "Can't send data when our state is ERROR" None)
  ∨ (our_state c ≠ ERROR
     ∧ ∃ c1, send_try READERS WRITERS event c = (inl e, c1)
             ∧ c' = (_process_error READERS WRITERS (our_role c1) c1).2).
Proof.
  unfold send_with_data_passthrough. unfold_M. case_bool_decide as Hs.
  - intros [= <- <-]. by left.
  - destruct (send_try _ _ _ _) as [[e1|evs] c1] eqn:Ht; [|done].
    pose proof (process_error_conn (our_role c1) c1) as [Hok _].
    destruct (_process_error _ _ _ _) as [[e2|[]] c2] eqn:Hpe; [done|].
    intros [= <- <-]. right. split; [done|]. exists c1.
    split; [reflexivity|]. by rewrite ?Hpe.
Qed.

Lemma process_error_conn_roles role (c : Conn) :
  our_role (_process_error READERS WRITERS role c).2 = our_role c.
Proof.
  pose proof (process_error_conn role c) as (_ & _ & _ & (w & r & ->)).
  reflexivity.
Qed.

Lemma receive_data_raises_in_ERROR fuel data (c : Conn) e c' :
  receive_data READERS WRITERS fuel data c = Some (inl e, c') →
  their_state c' = ERROR.
Proof.
  intros Hr.
  apply receive_data_raises in Hr as [(Hs & -> & ->)|(Hs & c1 & Ht & ->)];
    [done|].
  pose proof (process_error_conn (their_role c1) c1) as (_ & He & _).
  pose proof (process_error_conn_roles (their_role c1) c1) as Hrole.
  unfold their_state, their_role in *. by rewrite Hrole.
Qed.

(** C5.  When [receive_data] raises, the state of their role is [ERROR]
    when the exception propagates, and when [send] or
    [send_with_data_passthrough] raises, the state of our role is [ERROR].
    Called while that state is already [ERROR], each fails at once with a
    protocol error and changes nothing.  The error transition leaves the
    state of the other role as the failing call left it. *)
Theorem errors_put_the_role_in_ERROR :
  (∀ fuel data (c : Conn) e c',
     receive_data READERS WRITERS fuel data c = Some (inl e, c') →
     their_state c' = ERROR
     ∧ (their_state c = ERROR → c' = c ∧ is_ProtocolError e = true)
     ∧ (their_state c ≠ ERROR →
        ∃ c1, receive_data_try READERS WRITERS fuel data c = Some (inl e, c1)
              ∧ our_state c' = our_state c1))
  ∧ (∀ event (c : Conn) e c',
       send_with_data_passthrough READERS WRITERS event c = (inl e, c') →
       our_state c' = ERROR
       ∧ (our_state c = ERROR → c' = c ∧ is_ProtocolError e = true)
       ∧ (our_state c ≠ ERROR →
          ∃ c1, send_try READERS WRITERS event c = (inl e, c1)
                ∧ their_state c' = their_state c1))
  ∧ (∀ event (c : Conn),
       send READERS WRITERS event c =
       match send_with_data_passthrough READERS WRITERS event c with
       | (inl e, c') => (inl e, c')
       | (inr data_list, c') => (inr (foldr String.append "" <$> data_list), c')
       end)
  ∧ (∀ fuel data (c : Conn),
       their_state c = ERROR →
       ∃ msg hint,
         receive_data READERS WRITERS fuel data c
         = Some (inl (ProtocolError msg hint), c))
  ∧ (∀ event (c : Conn),
       our_state c = ERROR →
       ∃ msg hint,
         send_with_data_passthrough READERS WRITERS event c
         = (inl (ProtocolError msg hint), c)).
Proof.
  split; [|split; [|split; [|split]]].
  - intros fuel data c e c' Hr.
    apply receive_data_raises in Hr as [(Hs & -> & ->)|(Hs & c1 & Ht & ->)].
    + split; [done|]. split; [done|]. by intros.
    + pose proof (process_error_conn (their_role c1) c1) as (_ & He & Ho & _).
      pose proof (process_error_conn_roles (their_role c1) c1) as Hrole.
      split; [|split].
      * unfold their_state, their_role in *. by rewrite Hrole.
      * by intros.
      * intros _. exists c1. split; [done|].
        unfold our_state. rewrite Hrole.
        replace (our_role c1) with (other_role (their_role c1)); [done|].
        unfold their_role. by destruct (our_role c1).
  - intros event c e c' Hr.
    apply send_raises in Hr as [(Hs & -> & ->)|(Hs & c1 & Ht & ->)].
    + split; [done|]. split; [done|]. by intros.
    + pose proof (process_error_conn (our_role c1) c1) as (_ & He & Ho & _).
      pose proof (process_error_conn_roles (our_role c1) c1) as Hrole.
      split; [|split].
      * unfold our_state. by rewrite Hrole.
      * by intros.
      * intros _. exists c1. split; [done|].
        unfold their_state, their_role. by rewrite Hrole.
  - intros event c. unfold send. unfold_M.
    by destruct (send_with_data_passthrough _ _ _ _) as [[e|d] c'].
  - intros fuel data c Hs. unfold receive_data.
    rewrite bool_decide_eq_true_2 by done. eauto.
  - intros event c Hs. unfold send_with_data_passthrough. unfold_M.
    rewrite bool_decide_eq_true_2 by done. eauto.
Qed.

(** ** Receiving *)

Lemma set_receive_buffer_compress (c : Conn) :
  set_receive_buffer (rb_compress (_receive_buffer c)) c = c.
Proof. by destruct c. Qed.

(** What [receive_data] returns once the loop has read out its events. *)
Lemma receive_data_after_loop fuel data (c c1 c2 : Conn) events :
  their_state c ≠ ERROR →
  receive_data_update_buffer data c = (inr (), c1) →
  receive_data_loop READERS WRITERS fuel [] c1 = Some (inr events, c2) →
  receive_data READERS WRITERS fuel data c =
  if negb (ends_with_Paused events)
     && (_max_buffer_size c2 <? rb_len (_receive_buffer c2))
  then Some (inl (ProtocolError "Receive buffer too long" (Some 431)),
             (_process_error READERS WRITERS (their_role c2) c2).2)
  else if _receive_buffer_closed c2 && negb (ends_with_final_event events)
  then Some (inl (ProtocolError "peer unexpectedly closed connection" None),
             (_process_error READERS WRITERS (their_role c2) c2).2)
  else Some (inr events, c2).
Proof.
  intros Hs Hu Hl. unfold receive_data, receive_data_try.
  rewrite bool_decide_eq_false_2 by done. rewrite Hu, Hl.
  unfold receive_data_finish. unfold_M. rewrite set_receive_buffer_compress.
  pose proof (process_error_conn (their_role c2) c2) as [Hok _].
  destruct (_process_error _ _ _ _) as [[e2|[]] c3] eqn:Hpe; [done|].
  destruct (ends_with_Paused events); simpl.
  - destruct (_receive_buffer_closed c2 && negb (ends_with_final_event events));
      simpl; by rewrite ?Hpe.
  - destruct (_max_buffer_size c2 <? rb_len (_receive_buffer c2)); simpl;
      [by rewrite Hpe|].
    destruct (_receive_buffer_closed c2 && negb (ends_with_final_event events));
      simpl; by rewrite ?Hpe.
Qed.

Lemma receive_data_returns fuel data (c c' : Conn) events :
  receive_data READERS WRITERS fuel data c = Some (inr events, c') →
  their_state c ≠ ERROR
  ∧ ∃ c1, receive_data_update_buffer data c = (inr (), c1)
          ∧ receive_data_loop READERS WRITERS fuel [] c1 = Some (inr events, c').
Proof.
  unfold receive_data. case_bool_decide as Hs; [done|]. intros Hr.
  split; [done|]. revert Hr. unfold receive_data_try.
  destruct (receive_data_update_buffer data c) as [[e|[]] c1] eqn:Hu.
  { destruct (_process_error _ _ _ _) as [[?|?] ?]; done. }
  destruct (receive_data_loop _ _ _ _ _) as [[[e|evs] c2]|] eqn:Hl; [| |done].
  { destruct (_process_error _ _ _ _) as [[?|?] ?]; done. }
  unfold receive_data_finish. unfold_M. rewrite set_receive_buffer_compress.
  intros Hr. exists c1. split; [done|].
  destruct (ends_with_Paused evs); simpl in Hr.
  - destruct (_receive_buffer_closed c2 && negb (ends_with_final_event evs));
      simpl in Hr.
    + destruct (_process_error _ _ _ _) as [[?|?] ?]; done.
    + by simplify_eq.
  - destruct (_max_buffer_size c2 <? rb_len (_receive_buffer c2)); simpl in Hr.
    { destruct (_process_error _ _ _ _) as [[?|?] ?]; done. }
    destruct (_receive_buffer_closed c2 && negb (ends_with_final_event evs));
      simpl in Hr.
    + destruct (_process_error _ _ _ _) as [[?|?] ?]; done.
    + by simplify_eq.
Qed.

(** C4.  After a [receive_data] call that returns normally and whose final
    returned event is not [Paused], the number of buffered bytes is at most
    [max_buffer_size].  When more than [max_buffer_size] bytes remain after
    the parse loop and the final event is not [Paused], [receive_data]
    raises a protocol error with hint status 431.  When the final event is
    [Paused] no limit is enforced: the call returns whatever the size of
    the buffer. *)
Theorem receive_buffer_limit fuel data (c : Conn) :
  (∀ c' events,
     receive_data READERS WRITERS fuel data c = Some (inr events, c') →
     ends_with_Paused events = false →
     rb_len (_receive_buffer c') <= _max_buffer_size c')
  ∧ (∀ c1 c2 events,
       their_state c ≠ ERROR →
       receive_data_update_buffer data c = (inr (), c1) →
       receive_data_loop READERS WRITERS fuel [] c1 = Some (inr events, c2) →
       (ends_with_Paused events = false →
        _max_buffer_size c2 < rb_len (_receive_buffer c2) →
        ∃ msg c',
          receive_data READERS WRITERS fuel data c
          = Some (inl (ProtocolError msg (Some 431)), c'))
       ∧ (ends_with_Paused events = true →
          receive_data READERS WRITERS fuel data c = Some (inr events, c2))).
Proof.
  split.
  - intros c' events Hret Hp.
    pose proof Hret as Hret'.
    apply receive_data_returns in Hret' as (Hs & c1 & Hu & Hl).
    rewrite (receive_data_after_loop fuel data c c1 c' events Hs Hu Hl) in Hret.
    rewrite Hp in Hret. simpl in Hret.
    destruct (_max_buffer_size c' <? rb_len (_receive_buffer c')) eqn:Hb;
      [done|].
    by apply Z.ltb_ge in Hb.
  - intros c1 c2 events Hs Hu Hl.
    pose proof (receive_data_after_loop fuel data c c1 c2 events Hs Hu Hl) as Hr.
    split.
    + intros Hp Hlen. rewrite Hr, Hp. apply Z.ltb_lt in Hlen. rewrite Hlen.
      simpl. eauto.
    + intros Hp. rewrite Hr, Hp. simpl.
      assert (ends_with_final_event events = true) as ->.
      { unfold ends_with_Paused, ends_with_final_event in *.
        destruct (last events); [|done]. by rewrite Hp. }
      by rewrite andb_false_r.
Qed.

(** C6.  When the active reader produces no event, the receive buffer is
    empty and the peer has half-closed, the next receive event is the
    result of the reader's [read_eof] if the reader has that hook, and
    [ConnectionClosed] otherwise.  If at the end of a [receive_data] pass
    the peer has half-closed but the final returned event is neither
    [Paused] nor [ConnectionClosed] (also when there is no event at all),
    [receive_data] raises a protocol error. *)
Theorem end_of_file_events (c : Conn) reader reader' buf :
  ¬ (their_state c = DONE ∧ py_bool (_receive_buffer c) = true) →
  their_state c ≠ MIGHT_SWITCH_PROTOCOL →
  their_state c ≠ SWITCHED_PROTOCOL →
  _reader c = Some reader →
  call_reader reader (_receive_buffer c) = (inr None, reader', buf) →
  py_bool buf = false →
  _receive_buffer_closed c = true →
  (_next_receive_event c =
     match reader_read_eof reader' with
     | Some (inr event, reader'') =>
         (inr (Some event),
          set_reader (Some reader'')
            (set_receive_buffer buf (set_reader (Some reader') c)))
     | Some (inl e, reader'') =>
         (inl e,
          set_reader (Some reader'')
            (set_receive_buffer buf (set_reader (Some reader') c)))
     | None =>
         (inr (Some ConnectionClosed),
          set_receive_buffer buf (set_reader (Some reader') c))
     end)
  ∧ (∀ fuel data (c0 c1 c2 : Conn) events,
       their_state c0 ≠ ERROR →
       receive_data_update_buffer data c0 = (inr (), c1) →
       receive_data_loop READERS WRITERS fuel [] c1 = Some (inr events, c2) →
       _receive_buffer_closed c2 = true →
       ends_with_final_event events = false →
       ∃ msg hint c',
         receive_data READERS WRITERS fuel data c0
         = Some (inl (ProtocolError msg hint), c')).
Proof.
  intros Hd Hm Hsw Hrd Hcall Hbuf Hclosed. split.
  - unfold _next_receive_event. unfold_M.
    assert (bool_decide (their_state c = DONE) && py_bool (_receive_buffer c)
            = false) as ->.
    { apply andb_false_iff. destruct (py_bool (_receive_buffer c)) eqn:Hb;
        [left|by right].
      apply bool_decide_eq_false. intros Hs. by apply Hd. }
    rewrite !bool_decide_eq_false_2 by done. simpl.
    rewrite Hrd, Hcall, Hbuf. simpl. rewrite Hclosed.
    destruct (reader_read_eof reader') as [[[e|event] reader'']|]; reflexivity.
  - intros fuel data c0 c1 c2 events Hs Hu Hl Hc He.
    rewrite (receive_data_after_loop fuel data c0 c1 c2 events Hs Hu Hl).
    rewrite Hc, He. simpl. destruct (_ && _); eauto.
Qed.

(** ** Paused connections *)

Lemma string_app_empty_r (s : string) : (s ++ "")%string = s.
Proof.
  induction s as [|a s IH]; [reflexivity|].
  change (String a (s ++ "")%string = String a s). by f_equal.
Qed.

Lemma update_buffer_fed data (c : Conn) :
  (_receive_buffer_closed c = true → py_bool (default "" data) = false) →
  receive_data_update_buffer data c = (inr (), fed data c).
Proof.
  intros Hok. unfold receive_data_update_buffer, fed. unfold_M.
  destruct data as [d|]; simpl in *.
  - destruct (py_bool d) eqn:Hd.
    + destruct (_receive_buffer_closed c) eqn:Hc; [by specialize (Hok eq_refl)|].
      rewrite bool_decide_eq_false_2 by (intros [= ->]; done).
      by destruct c; simpl in *; subst.
    + destruct d; [|done]. rewrite bool_decide_eq_true_2 by done.
      unfold rb_append. rewrite string_app_empty_r, orb_true_r.
      by destruct c.
  - unfold rb_append. rewrite ?string_app_empty_r, ?orb_false_r.
    by destruct c.
Qed.

Lemma next_receive_event_paused (c : Conn) :
  (their_state c = MIGHT_SWITCH_PROTOCOL ∨ their_state c = SWITCHED_PROTOCOL
   ∨ (their_state c = DONE ∧ py_bool (_receive_buffer c) = true)) →
  _next_receive_event c = (inr (Some (Paused (their_state c))), c).
Proof.
  intros Hs. unfold _next_receive_event. unfold_M.
  destruct Hs as [Hs|[Hs|[Hs Hb]]]; rewrite Hs; try reflexivity.
  rewrite Hb. reflexivity.
Qed.

Lemma receive_data_paused fuel data (c : Conn) :
  (_receive_buffer_closed c = true → py_bool (default "" data) = false) →
  (their_state c = MIGHT_SWITCH_PROTOCOL ∨ their_state c = SWITCHED_PROTOCOL
   ∨ (their_state c = DONE ∧ py_bool (_receive_buffer (fed data c)) = true)) →
  receive_data READERS WRITERS (S fuel) data c
  = Some (inr [Paused (their_state c)], fed data c).
Proof.
  intros Hok Hs.
  assert (their_state (fed data c) = their_state c) as Hfs.
  { unfold fed. by destruct c. }
  assert (their_state c ≠ ERROR) as Hne.
  { destruct Hs as [Hs|[Hs|[Hs _]]]; by rewrite Hs. }
  rewrite (receive_data_after_loop (S fuel) data c (fed data c) (fed data c)
             [Paused (their_state c)] Hne (update_buffer_fed data c Hok)).
  - assert (ends_with_Paused [Paused (their_state c)] = true) as ->
      by reflexivity.
    assert (ends_with_final_event [Paused (their_state c)] = true) as ->
      by reflexivity.
    simpl. by rewrite andb_false_r.
  - simpl. rewrite next_receive_event_paused by (by rewrite Hfs).
    by rewrite Hfs.
Qed.

(** C7 (as amended).  Whenever the state of their role is
    [MIGHT_SWITCH_PROTOCOL] or [SWITCHED_PROTOCOL], every [receive_data]
    call, other than one that passes non-empty data after end-of-file was
    recorded, appends the data to the receive buffer without parsing it (or
    records end-of-file for empty data) and returns exactly one event,
    [Paused] with that state as its reason; the state machine and
    everything else in the connection stay as they were.  The buffered
    bytes and the closed flag are then returned exactly by [trailing_data].
    Likewise when their state is [DONE] and the buffer is then
    non-empty, [Paused(DONE)] is returned. *)
Theorem receive_data_while_paused fuel data (c : Conn) :
  (_receive_buffer_closed c = true → py_bool (default "" data) = false) →
  let c' := fed data c in
  ((their_state c = MIGHT_SWITCH_PROTOCOL ∨ their_state c = SWITCHED_PROTOCOL) →
   receive_data READERS WRITERS (S fuel) data c
   = Some (inr [Paused (their_state c)], c'))
  ∧ (their_state c = DONE → py_bool (_receive_buffer c') = true →
     receive_data READERS WRITERS (S fuel) data c = Some (inr [Paused DONE], c'))
  ∧ _cstate c' = _cstate c ∧ _reader c' = _reader c ∧ _writer c' = _writer c
  ∧ trailing_data c' =
      ((_receive_buffer c ++ default "" data)%string,
       _receive_buffer_closed c || bool_decide (data = Some "")).
Proof.
  intros Hok c'. split; [|split].
  - intros Hs. apply receive_data_paused; [done|]. tauto.
  - intros Hs Hb. rewrite <- Hs. apply receive_data_paused; [done|]. tauto.
  - subst c'. unfold fed, trailing_data. by destruct c.
Qed.

(** C10 (as amended).  If end-of-file was recorded (the receive buffer is
    marked closed), the state of their role is not already [ERROR], and
    [receive_data] is called with non-empty bytes, it raises
    [RuntimeError], which is not the protocol-error kind, and the state of
    their role is [ERROR] when the exception propagates.  (When that state
    is already [ERROR] the call fails with the protocol error of the entry
    check instead.) *)
Theorem receive_data_after_close fuel data (c : Conn) :
  _receive_buffer_closed c = true →
  py_bool data = true →
  their_state c ≠ ERROR →
  ∃ c',
    receive_data READERS WRITERS fuel (Some data) c
    = Some (inl (RuntimeError "received close, then received more data?"), c')
    ∧ is_ProtocolError (RuntimeError "received close, then received more data?")
      = false
    ∧ their_state c' = ERROR
    ∧ our_state c' = our_state c.
Proof.
  intros Hc Hd Hs. unfold receive_data, receive_data_try.
  rewrite bool_decide_eq_false_2 by done.
  unfold receive_data_update_buffer. unfold_M. rewrite Hd, Hc.
  pose proof (process_error_conn (their_role c) c) as (Hok & He & Ho & _).
  pose proof (process_error_conn_roles (their_role c) c) as Hrole.
  destruct (_process_error _ _ _ _) as [[e2|[]] c2] eqn:Hpe; [done|].
  simpl in *. exists c2. split; [done|]. split; [done|]. split.
  - unfold their_state, their_role in *. by rewrite Hrole.
  - unfold our_state. rewrite Hrole.
    replace (our_role c) with (other_role (their_role c)); [done|].
    unfold their_role. by destruct (our_role c).
Qed.

(** ** Sending a response *)

Lemma connection_close_is_set (headers : Headers) :
  let cleaned :=
    set_comma_header headers "Connection"
      (py_sorted (elements
         ((list_to_set (get_comma_header headers "Connection") : gset bytes)
            ∖ {["keep-alive"]} ∪ {["close"]}))) in
  says_close cleaned
  ∧ ∀ name, name_matches name "Connection" = false →
            get_comma_header cleaned name = get_comma_header headers name.
Proof.
  intros cleaned. split.
  - unfold says_close, cleaned. rewrite get_comma_header_set_same.
    + rewrite !elem_of_py_sorted, !elem_of_elements.
      rewrite !elem_of_union, !elem_of_difference, !elem_of_singleton.
      split; [by right|]. intros [[_ Hne]|Heq]; [by apply Hne|discriminate Heq].
    + intros x. rewrite elem_of_py_sorted, elem_of_elements.
      intros [[Hx _]%elem_of_difference| ->%elem_of_singleton]%elem_of_union.
      * apply elem_of_list_to_set in Hx. by eapply get_comma_header_stable.
      * reflexivity.
  - intros name Hn. by apply get_comma_header_set_other.
Qed.

Lemma no_header_after_clearing (headers : Headers) name :
  get_comma_header (set_comma_header headers name []) name = [].
Proof. rewrite get_comma_header_set_same; [done|]. by intros x ?%elem_of_nil. Qed.

Lemma send_event_returns event (c c' : Conn) data_list :
  send_event READERS WRITERS event c = (inr (Some data_list), c') →
  ∃ w, _writer c = Some w ∧ (call_writer w event).1 = inr data_list.
Proof.
  unfold send_event. unfold_M.
  destruct (_process_event _ _ _ _ _) as [[e|[]] c1]; [done|].
  destruct (is_ConnectionClosed event); [done|].
  destruct (_writer c) as [w|]; [|done].
  destruct (call_writer w event) as [[e|d] w'] eqn:Hw; simpl.
  - by destruct (bool_decide _).
  - destruct (bool_decide _); intros [= <- <-]; exists w; by rewrite Hw.
Qed.

Lemma send_returns_from_try event (c c' : Conn) data_list :
  send_with_data_passthrough READERS WRITERS event c = (inr data_list, c') →
  send_try READERS WRITERS event c = (inr data_list, c').
Proof.
  unfold send_with_data_passthrough. unfold_M.
  destruct (bool_decide _); [done|].
  destruct (send_try _ _ _ _) as [[e|d] c1]; [|done].
  by destruct (_process_error _ _ _ _) as [[?|?] ?].
Qed.

Lemma name_CL_TE : name_matches "Content-Length" "Transfer-Encoding" = false.
Proof. reflexivity. Qed.
Lemma name_CL_Conn : name_matches "Content-Length" "Connection" = false.
Proof. reflexivity. Qed.
Lemma name_TE_Conn : name_matches "Transfer-Encoding" "Connection" = false.
Proof. reflexivity. Qed.

(** The cleanup on the store gives the response a new list object that
    holds the cleaned headers, and touches no other object. *)
Lemma clean_up_in_place (c : Conn) status_code headers http_version
    (store : gmap positive Headers) l :
  store !! l = Some headers →
  _clean_up_response_headers_for_sending_in_place c
    (mkResponseObject status_code l http_version) store
  = match _clean_up_response_headers_for_sending
            (Response status_code headers http_version) c with
    | (inl e, _) => Some (inl e, <[fresh (dom store) := headers]> store)
    | (inr event, _) =>
        Some (inr (mkResponseObject status_code (fresh (dom store)) http_version),
              <[fresh (dom store) := default [] (event_headers event)]> store)
    end.
Proof.
  intros Hl.
  unfold _clean_up_response_headers_for_sending,
    _clean_up_response_headers_for_sending_in_place, response_event, list_copy,
    set_comma_header_in_place, get_comma_header_of.
  cbn [response_headers response_status_code response_http_version].
  rewrite Hl. cbn [mbind option_bind].
  destruct (_body_framing _ _) as [e|framing]; [reflexivity|].
  destruct framing as [n| |];
    destruct (their_http_version c) as [v|];
    try destruct (bytes_ltb v "1.1");
    destruct (keep_alive (_cstate c));
    cbn [negb orb andb event_headers default];
    rewrite ?alter_insert_eq, ?lookup_insert_eq;
    cbn [default]; rewrite ?alter_insert_eq; reflexivity.
Qed.

(** What the cleanup does to a response whose framing is decided. *)
Lemma clean_up_cleaned (c : Conn) status_code headers http_version framing :
  _body_framing (_request_method c)
    (Some (Response status_code headers http_version)) = inr framing →
  ∃ cleaned,
    _clean_up_response_headers_for_sending
      (Response status_code headers http_version) c
    = (inr (Response status_code cleaned http_version), c)
    ∧ (unknown_length framing →
       ¬ has_header cleaned "Content-Length"
       ∧ (peer_is_old c →
          ¬ has_header cleaned "Transfer-Encoding" ∧ says_close cleaned)
       ∧ (¬ peer_is_old c →
          get_comma_header cleaned "Transfer-Encoding" = ["chunked"]
          ∧ ("Transfer-Encoding", "chunked") ∈ cleaned))
    ∧ (keep_alive (_cstate c) = false → says_close cleaned).
Proof.
  intros Hf.
  unfold _clean_up_response_headers_for_sending, peer_is_old.
  rewrite Hf.
  set (hCL := set_comma_header headers "Content-Length" []).
  set (hTE0 := set_comma_header hCL "Transfer-Encoding" []).
  set (hTE1 := set_comma_header hCL "Transfer-Encoding" ["chunked"]).
  assert (Hno : ∀ h name, get_comma_header h name = [] → ¬ has_header h name).
  { intros h name. apply get_comma_header_nil. }
  assert (HhCL : get_comma_header hCL "Content-Length" = [])
    by apply no_header_after_clearing.
  assert (HhTE0 : get_comma_header hTE0 "Content-Length" = []).
  { unfold hTE0. by rewrite get_comma_header_set_other. }
  assert (HhTE1 : get_comma_header hTE1 "Content-Length" = []).
  { unfold hTE1. by rewrite get_comma_header_set_other. }
  assert (HTE0 : get_comma_header hTE0 "Transfer-Encoding" = [])
    by apply no_header_after_clearing.
  assert (HTE1 : get_comma_header hTE1 "Transfer-Encoding" = ["chunked"]).
  { unfold hTE1. rewrite get_comma_header_set_same; [done|].
    by intros x ->%list_elem_of_singleton. }
  assert (HTE1in : ("Transfer-Encoding", "chunked") ∈ hTE1).
  { unfold hTE1. apply elem_of_set_comma_header. right. split; [done|]. left. }
  assert (Hclose : ∀ h,
    let cleaned :=
      set_comma_header h "Connection"
        (py_sorted (elements
           ((list_to_set (get_comma_header h "Connection") : gset bytes)
              ∖ {["keep-alive"]} ∪ {["close"]}))) in
    says_close cleaned
    ∧ get_comma_header cleaned "Content-Length"
      = get_comma_header h "Content-Length"
    ∧ get_comma_header cleaned "Transfer-Encoding"
      = get_comma_header h "Transfer-Encoding"
    ∧ ∀ e, e ∈ h → name_matches "Connection" e.1 = false → e ∈ cleaned).
  { intros h cleaned. destruct (connection_close_is_set h) as [H1 H2].
    split; [exact H1|]. split; [by apply H2|]. split; [by apply H2|].
    intros [n v] He Hn. apply elem_of_set_comma_header. by left. }
  destruct framing as [n| |].
  - (* content-length *)
    destruct (keep_alive (_cstate c)) eqn:Hka; cbn [negb orb];
      eexists; (split; [reflexivity|]); (split; [by intros [?|?]|]);
      [done|]. intros _. apply Hclose.
  - (* chunked *)
    destruct (their_http_version c) as [v|] eqn:Hv;
      [destruct (bytes_ltb v "1.1") eqn:Hlt|].
    + rewrite orb_true_r. eexists. split; [reflexivity|].
      destruct (Hclose hTE0) as (Hc & Hcl & Hte & _). cbv zeta in *.
      split; [|by intros _]. intros _.
      split; [apply Hno; congruence|]. split; [|done]. intros _.
      split; [apply Hno; congruence|done].
    + rewrite orb_false_r.
      destruct (keep_alive (_cstate c)) eqn:Hka; cbn [negb];
        eexists; (split; [reflexivity|]).
      * split; [|done]. intros _. split; [by apply Hno|].
        split; [by intros ?|]. by intros _.
      * destruct (Hclose hTE1) as (Hc & Hcl & Hte & Hin). cbv zeta in *.
        split; [|by intros _]. intros _.
        split; [apply Hno; congruence|]. split; [by intros ?|]. intros _.
        split; [congruence|]. by apply Hin.
    + rewrite orb_true_r. eexists. split; [reflexivity|].
      destruct (Hclose hTE0) as (Hc & Hcl & Hte & _). cbv zeta in *.
      split; [|by intros _]. intros _.
      split; [apply Hno; congruence|]. split; [|done]. intros _.
      split; [apply Hno; congruence|done].
  - (* http/1.0 *)
    destruct (their_http_version c) as [v|] eqn:Hv;
      [destruct (bytes_ltb v "1.1") eqn:Hlt|].
    + rewrite orb_true_r. eexists. split; [reflexivity|].
      destruct (Hclose hTE0) as (Hc & Hcl & Hte & _). cbv zeta in *.
      split; [|by intros _]. intros _.
      split; [apply Hno; congruence|]. split; [|done]. intros _.
      split; [apply Hno; congruence|done].
    + rewrite orb_false_r.
      destruct (keep_alive (_cstate c)) eqn:Hka; cbn [negb];
        eexists; (split; [reflexivity|]).
      * split; [|done]. intros _. split; [by apply Hno|].
        split; [by intros ?|]. by intros _.
      * destruct (Hclose hTE1) as (Hc & Hcl & Hte & Hin). cbv zeta in *.
        split; [|by intros _]. intros _.
        split; [apply Hno; congruence|]. split; [by intros ?|]. intros _.
        split; [congruence|]. by apply Hin.
    + rewrite orb_true_r. eexists. split; [reflexivity|].
      destruct (Hclose hTE0) as (Hc & Hcl & Hte & _). cbv zeta in *.
      split; [|by intros _]. intros _.
      split; [apply Hno; congruence|]. split; [|done]. intros _.
      split; [apply Hno; congruence|done].
Qed.

(** The tokens of the Connection header after the cleanup: when close is
    needed they are the old tokens without [keep-alive] and with [close],
    each once and in sorted order; otherwise they are the old tokens. *)
Lemma clean_up_connection_tokens (c : Conn) status_code headers http_version
    framing cleaned :
  _body_framing (_request_method c)
    (Some (Response status_code headers http_version)) = inr framing →
  _clean_up_response_headers_for_sending
    (Response status_code headers http_version) c
  = (inr (Response status_code cleaned http_version), c) →
  let tokens := get_comma_header headers "Connection" in
  (keep_alive (_cstate c) = false ∨ (unknown_length framing ∧ peer_is_old c) →
   get_comma_header cleaned "Connection"
   = py_sorted (elements ((list_to_set tokens : gset bytes)
                            ∖ {["keep-alive"]} ∪ {["close"]})))
  ∧ (keep_alive (_cstate c) = true →
     ¬ (unknown_length framing ∧ peer_is_old c) →
     get_comma_header cleaned "Connection" = tokens).
Proof.
  intros Hf. unfold _clean_up_response_headers_for_sending, peer_is_old.
  rewrite Hf.
  set (hCL := set_comma_header headers "Content-Length" []).
  set (hTE0 := set_comma_header hCL "Transfer-Encoding" []).
  set (hTE1 := set_comma_header hCL "Transfer-Encoding" ["chunked"]).
  assert (HhCL : get_comma_header hCL "Connection"
                 = get_comma_header headers "Connection").
  { unfold hCL. by rewrite get_comma_header_set_other. }
  assert (HhTE0 : get_comma_header hTE0 "Connection"
                  = get_comma_header headers "Connection").
  { unfold hTE0. by rewrite get_comma_header_set_other. }
  assert (HhTE1 : get_comma_header hTE1 "Connection"
                  = get_comma_header headers "Connection").
  { unfold hTE1. by rewrite get_comma_header_set_other. }
  assert (Hset : ∀ h,
    get_comma_header
      (set_comma_header h "Connection"
         (py_sorted (elements
            ((list_to_set (get_comma_header h "Connection") : gset bytes)
               ∖ {["keep-alive"]} ∪ {["close"]})))) "Connection"
    = py_sorted (elements
        ((list_to_set (get_comma_header h "Connection") : gset bytes)
           ∖ {["keep-alive"]} ∪ {["close"]}))).
  { intros h. apply get_comma_header_set_same.
    intros x. rewrite elem_of_py_sorted, elem_of_elements.
    intros [[Hx _]%elem_of_difference| ->%elem_of_singleton]%elem_of_union.
    - apply elem_of_list_to_set in Hx. by eapply get_comma_header_stable.
    - reflexivity. }
  intros Hclean.
  destruct framing as [n| |].
  - (* content-length *)
    destruct (keep_alive (_cstate c)) eqn:Hka; cbn [negb orb] in Hclean;
      injection Hclean as <-.
    + split; [|done]. intros [?|[[?|?] _]]; done.
    + split; [|done]. intros _. apply Hset.
  - (* chunked *)
    destruct (their_http_version c) as [v|] eqn:Hv;
      [destruct (bytes_ltb v "1.1") eqn:Hlt|].
    + rewrite orb_true_r in Hclean. injection Hclean as <-.
      split; [intros _; by rewrite Hset, HhTE0|].
      intros _ Hn. exfalso. apply Hn. split; [by left|done].
    + rewrite orb_false_r in Hclean.
      destruct (keep_alive (_cstate c)) eqn:Hka; cbn [negb] in Hclean;
        injection Hclean as <-.
      * split; [|done]. intros [?|[_ ?]]; [done|congruence].
      * split; [|done]. intros _. by rewrite Hset, HhTE1.
    + rewrite orb_true_r in Hclean. injection Hclean as <-.
      split; [intros _; by rewrite Hset, HhTE0|].
      intros _ Hn. exfalso. apply Hn. split; [by left|done].
  - (* http/1.0 *)
    destruct (their_http_version c) as [v|] eqn:Hv;
      [destruct (bytes_ltb v "1.1") eqn:Hlt|].
    + rewrite orb_true_r in Hclean. injection Hclean as <-.
      split; [intros _; by rewrite Hset, HhTE0|].
      intros _ Hn. exfalso. apply Hn. split; [by right|done].
    + rewrite orb_false_r in Hclean.
      destruct (keep_alive (_cstate c)) eqn:Hka; cbn [negb] in Hclean;
        injection Hclean as <-.
      * split; [|done]. intros [?|[_ ?]]; [done|congruence].
      * split; [|done]. intros _. by rewrite Hset, HhTE1.
    + rewrite orb_true_r in Hclean. injection Hclean as <-.
      split; [intros _; by rewrite Hset, HhTE0|].
      intros _ Hn. exfalso. apply Hn. split; [by right|done].
Qed.

(** C2.  For every send of a Response whose framing is decided: the
    response is processed and serialized with cleaned headers.  When the
    computed framing is chunked or http/1.0 these contain no
    Content-Length; if [their_http_version] is [None] or below 1.1 they
    contain no Transfer-Encoding either and close is needed, otherwise
    Transfer-Encoding is set to [chunked].  Whenever [keep_alive] is false
    or close is needed, [close] is added to the Connection header and
    [keep-alive] is removed from it: its tokens are then exactly [close]
    and the tokens it had other than [keep-alive] (each once, in sorted
    order).  Otherwise the tokens of the Connection header are the ones it
    had.  The list object that the caller supplied is not mutated: the
    response is given a new list. *)
Theorem response_headers_cleaned_for_sending (c : Conn)
    status_code headers http_version framing :
  _body_framing (_request_method c)
    (Some (Response status_code headers http_version)) = inr framing →
  ∃ cleaned,
    (* the event that goes through the state machine and to the writer *)
    send_try READERS WRITERS (Response status_code headers http_version) c
    = send_event READERS WRITERS (Response status_code cleaned http_version) c
    ∧ (∀ data_list c',
         send_with_data_passthrough READERS WRITERS
           (Response status_code headers http_version) c
         = (inr (Some data_list), c') →
         ∃ w, _writer c = Some w
              ∧ (call_writer w (Response status_code cleaned http_version)).1
                = inr data_list)
    (* its headers *)
    ∧ (unknown_length framing →
       ¬ has_header cleaned "Content-Length"
       ∧ (peer_is_old c →
          ¬ has_header cleaned "Transfer-Encoding" ∧ says_close cleaned)
       ∧ (¬ peer_is_old c →
          get_comma_header cleaned "Transfer-Encoding" = ["chunked"]
          ∧ ("Transfer-Encoding", "chunked") ∈ cleaned))
    ∧ (keep_alive (_cstate c) = false → says_close cleaned)
    (* the tokens of the Connection header *)
    ∧ (keep_alive (_cstate c) = false ∨ (unknown_length framing ∧ peer_is_old c) →
       (∀ x, x ∈ get_comma_header cleaned "Connection"
             ↔ x = "close"
               ∨ (x ∈ get_comma_header headers "Connection" ∧ x ≠ "keep-alive"))
       ∧ get_comma_header cleaned "Connection"
         = py_sorted (elements
             ((list_to_set (get_comma_header headers "Connection") : gset bytes)
                ∖ {["keep-alive"]} ∪ {["close"]})))
    ∧ (keep_alive (_cstate c) = true →
       ¬ (unknown_length framing ∧ peer_is_old c) →
       get_comma_header cleaned "Connection"
       = get_comma_header headers "Connection")
    (* the list objects *)
    ∧ (∀ (store : gmap positive Headers) l,
         store !! l = Some headers →
         ∃ l' store',
           _clean_up_response_headers_for_sending_in_place c
             (mkResponseObject status_code l http_version) store
           = Some (inr (mkResponseObject status_code l' http_version), store')
           ∧ l' ≠ l ∧ store !! l' = None
           ∧ store' !! l' = Some cleaned
           ∧ ∀ k, k ≠ l' → store' !! k = store !! k).
Proof.
  intros Hf.
  destruct (clean_up_cleaned c status_code headers http_version framing Hf)
    as (cleaned & Hclean & Hunknown & Hka).
  assert (Htry :
    send_try READERS WRITERS (Response status_code headers http_version) c
    = send_event READERS WRITERS (Response status_code cleaned http_version) c).
  { unfold send_try. unfold_M.
    change (is_Response (Response status_code headers http_version)) with true.
    cbv iota. by rewrite Hclean. }
  destruct (clean_up_connection_tokens c status_code headers http_version
              framing cleaned Hf Hclean) as [Htokens Hsame].
  exists cleaned. split; [exact Htry|].
  split; [|split; [|split; [|split; [|split]]]].
  - intros data_list c' Hsend. apply send_returns_from_try in Hsend.
    rewrite Htry in Hsend. by apply send_event_returns in Hsend.
  - exact Hunknown.
  - exact Hka.
  - intros Hneed. split; [|by apply Htokens].
    intros x. rewrite (Htokens Hneed), elem_of_py_sorted, elem_of_elements.
    rewrite elem_of_union, elem_of_difference, !elem_of_singleton.
    rewrite elem_of_list_to_set. tauto.
  - exact Hsame.
  - intros store l Hl.
    exists (fresh (dom store)), (<[fresh (dom store) := cleaned]> store).
    assert (Hfresh : store !! fresh (dom store) = None).
    { apply not_elem_of_dom, is_fresh. }
    rewrite (clean_up_in_place c status_code headers http_version store l Hl).
    rewrite Hclean. simpl. split; [done|]. split; [congruence|].
    split; [done|]. split; [apply lookup_insert_eq|].
    intros k Hk. by apply lookup_insert_ne.
Qed.

(** ** Transfer-Encoding other than [chunked] *)

Lemma bad_transfer_encoding_framing m event :
  bad_transfer_encoding event → framed_by_headers m event →
  _body_framing m (Some event) = inl AssertionError.
Proof.
  intros (_ & headers & Hh & Hte & Hne) Hf.
  rewrite (body_framing_by_headers m event headers Hf Hh).
  apply get_comma_header_cons in Hte as (x & rest & Hx).
  rewrite Hx in *. by rewrite bool_decide_eq_false_2.
Qed.

Lemma attribute_updates_cstate role event cs (c : Conn) :
  _cstate (attribute_updates role event cs c) =
  if (is_Request event || is_Response event) && negb (_keep_alive event)
  then process_keep_alive_disabled cs else cs.
Proof.
  unfold attribute_updates, their_role.
  destruct ((is_Request event || is_Response event) && negb (_keep_alive event));
    destruct event; cbn [_cstate set_cstate set_request_method
      set_their_http_version set_client_is_waiting_for_100_continue our_role];
    repeat match goal with
    | |- context [if ?b then _ else _] => destruct b
    end; reflexivity.
Qed.

Lemma attribute_updates_state role event cs (c : Conn) r :
  states_get (states cs) r = SEND_BODY →
  state_of (attribute_updates role event cs c) r = SEND_BODY.
Proof.
  intros Hs. unfold state_of. rewrite attribute_updates_cstate.
  destruct (_ && _); [|done].
  unfold process_keep_alive_disabled. by apply fire_keeps_send_body.
Qed.

Lemma attribute_updates_request_method role event cs (c : Conn) :
  _request_method (attribute_updates role event cs c) =
  match event with
  | Request method _ _ _ => Some method
  | _ => _request_method c
  end.
Proof.
  unfold attribute_updates, their_role.
  destruct ((is_Request event || is_Response event) && negb (_keep_alive event));
    destruct event; simpl;
    repeat match goal with
    | |- context [if ?b then _ else _] => destruct b; simpl
    end; done.
Qed.

Lemma role_is_ours_or_theirs (c : Conn) role :
  role = our_role c ∨ role = their_role c.
Proof. unfold their_role. destruct role, (our_role c); simpl; auto. Qed.

(** Processing a Request with such a Transfer-Encoding always raises: the
    state machine rejects it, or the role enters [SEND_BODY] and the framing
    decision fails. *)
Lemma process_bad_request role event (c : Conn) :
  bad_transfer_encoding event → type_of event = TRequest →
  ∃ e, (_process_event READERS WRITERS role event c).1 = inl e.
Proof.
  intros Hbad Hty. rewrite process_event_stages. cbv zeta.
  assert (switch_event_for role event (after_switch_proposals role event c)
          = None) as ->.
  { unfold switch_event_for. destruct event; try done.
    by destruct (bool_decide _). }
  rewrite Hty.
  destruct (process_event _ _ _ _) as [e|cs] eqn:Hpe; [by eexists|].
  apply process_event_request in Hpe as (-> & Hidle & Hbody).
  exists AssertionError. apply respond_to_state_changes_fails with CLIENT.
  - apply role_is_ours_or_theirs.
  - rewrite (attribute_updates_state _ _ _ _ _ Hbody).
    unfold after_switch_proposals in Hidle.
    destruct (bool_decide (CLIENT = CLIENT) && is_Request event).
    + apply (fire_client_idle
               (mkConnectionState (keep_alive (_cstate c))
                  (pending_switch_proposals (_cstate c)
                   ∪ list_to_set (_client_switch_events event))
                  (states (_cstate c)))) in Hidle.
      cbn [states] in Hidle. by rewrite Hidle.
    + by rewrite Hidle.
  - by apply attribute_updates_state.
  - apply bad_transfer_encoding_framing; [done|]. by destruct event.
Qed.

(** Processing such a Response outside the empty-body cases, when it does
    not accept a CONNECT, always raises. *)
Lemma process_bad_response role event (c : Conn) :
  bad_transfer_encoding event → type_of event = TResponse →
  framed_by_headers (_request_method c) event →
  ¬ accepts_connect c event →
  ∃ e, (_process_event READERS WRITERS role event c).1 = inl e.
Proof.
  intros Hbad Hty Hf Hacc. rewrite process_event_stages. cbv zeta.
  assert (after_switch_proposals role event c = c) as ->.
  { unfold after_switch_proposals, is_Request. rewrite Hty.
    by rewrite andb_false_r. }
  assert (switch_event_for role event c = None) as ->.
  { unfold switch_event_for. destruct (bool_decide (role = SERVER)); [|done].
    destruct event; try done. simpl in *.
    destruct (bool_decide (_SWITCH_CONNECT ∈ _)) eqn:Hp; [|done].
    apply bool_decide_eq_true in Hp.
    destruct (200 <=? status_code) eqn:H1; [|done].
    destruct (status_code <? 300) eqn:H2; [|done].
    exfalso. apply Hacc. split; [done|].
    apply Z.leb_le in H1. apply Z.ltb_lt in H2. lia. }
  rewrite Hty.
  destruct (process_event _ _ _ _) as [e|cs] eqn:Hpe; [by eexists|].
  apply process_event_response in Hpe as (-> & Hresp & Hbody).
  exists AssertionError. apply respond_to_state_changes_fails with SERVER.
  - apply role_is_ours_or_theirs.
  - rewrite (attribute_updates_state _ _ _ _ _ Hbody). by rewrite Hresp.
  - by apply attribute_updates_state.
  - rewrite attribute_updates_request_method.
    apply bad_transfer_encoding_framing; [done|].
    destruct event; try done.
Qed.

Lemma send_event_process_raises event (c : Conn) e :
  (_process_event READERS WRITERS (our_role c) event c).1 = inl e →
  (send_event READERS WRITERS event c).1 = inl e.
Proof.
  unfold send_event. unfold_M.
  by destruct (_process_event _ _ _ _ _) as [[e'|[]] c1]; simpl; intros [= ->].
Qed.

Lemma send_try_raises event (c : Conn) e :
  our_state c ≠ ERROR →
  (send_try READERS WRITERS event c).1 = inl e →
  ∃ c', send_with_data_passthrough READERS WRITERS event c = (inl e, c')
        ∧ our_state c' = ERROR.
Proof.
  intros Hs Ht.
  destruct (send_with_data_passthrough READERS WRITERS event c)
    as [[e'|d] c'] eqn:Hsend.
  - pose proof Hsend as Hsend'.
    apply send_raises in Hsend' as [(Hs' & _)|(_ & c1 & Htry & ->)]; [done|].
    rewrite Htry in Ht. simpl in Ht. simplify_eq. eexists. split; [done|].
    pose proof (process_error_conn (our_role c1) c1) as (_ & He & _).
    unfold our_state. by rewrite process_error_conn_roles.
  - apply send_returns_from_try in Hsend. rewrite Hsend in Ht. done.
Qed.

Lemma receive_data_loop_process_raises fuel events event (c c1 : Conn) e :
  _next_receive_event c = (inr (Some event), c1) →
  is_Paused event = false →
  (_process_event READERS WRITERS (their_role c1) event c1).1 = inl e →
  ∃ c2, receive_data_loop READERS WRITERS (S fuel) events c = Some (inl e, c2).
Proof.
  intros Hn Hp Hpe. simpl. rewrite Hn, Hp.
  destruct (_process_event _ _ _ _ _) as [[e'|[]] c2]; simpl in Hpe; [|done].
  simplify_eq. by eexists.
Qed.

Lemma next_receive_event_yields (c : Conn) event :
  reader_yields c event →
  ∃ c1, _next_receive_event c = (inr (Some event), c1)
        ∧ same_but_codecs (set_receive_buffer (_receive_buffer c1) c) c1.
Proof.
  intros (Hd & Hm & Hsw & reader & reader' & buf & Hrd & Hcall).
  unfold _next_receive_event. unfold_M.
  assert (bool_decide (their_state c = DONE) && py_bool (_receive_buffer c)
          = false) as ->.
  { apply andb_false_iff. destruct (py_bool (_receive_buffer c)) eqn:Hb;
      [left|by right].
    apply bool_decide_eq_false. intros Hs. by apply Hd. }
  rewrite !bool_decide_eq_false_2 by done. simpl.
  rewrite Hrd, Hcall. simpl. eexists. split; [reflexivity|].
  exists (_writer c), (Some reader'). by destruct c.
Qed.

(** C8 (as amended).  A Request, or a Response outside the empty-body cases
    (status 204 or 304, an answer to HEAD, a 2xx answer to CONNECT), that
    carries a Transfer-Encoding header whose comma-list value is anything
    other than exactly [chunked] makes the framing decision fail.  Sending
    it fails and leaves our role in [ERROR]; receiving it (unless it is a
    response that accepts a pending CONNECT) fails and leaves their role in
    [ERROR]. *)
Theorem transfer_encoding_must_be_chunked (c : Conn) event :
  bad_transfer_encoding event →
  framed_by_headers (_request_method c) event →
  _body_framing (_request_method c) (Some event) = inl AssertionError
  ∧ (our_state c ≠ ERROR →
     ∃ e c',
       send_with_data_passthrough READERS WRITERS event c = (inl e, c')
       ∧ our_state c' = ERROR)
  ∧ (∀ fuel data,
       their_state c ≠ ERROR →
       (_receive_buffer_closed c = true → py_bool (default "" data) = false) →
       reader_yields (fed data c) event →
       ¬ accepts_connect c event →
       ∃ e c',
         receive_data READERS WRITERS (S fuel) data c = Some (inl e, c')
         ∧ their_state c' = ERROR).
Proof.
  intros Hbad Hf.
  pose proof (bad_transfer_encoding_framing _ _ Hbad Hf) as Hframing.
  split; [exact Hframing|]. split.
  - intros Hs.
    assert (∃ e, (send_try READERS WRITERS event c).1 = inl e) as [e He].
    { unfold send_try. unfold_M. destruct (proj1 Hbad) as [Hty|Hty].
      - assert (is_Response event = false) as ->.
        { unfold is_Response. rewrite Hty. done. }
        destruct (process_bad_request (our_role c) event c) as [e He];
          [done|done|].
        exists e. by apply send_event_process_raises.
      - assert (is_Response event = true) as ->.
        { unfold is_Response. rewrite Hty. done. }
        exists AssertionError. destruct event; try done.
        unfold _clean_up_response_headers_for_sending. by rewrite Hframing. }
    destruct (send_try_raises event c e Hs He) as (c' & Hsend & Hs').
    by exists e, c'.
  - intros fuel data Hs Hok Hyield Hacc.
    destruct (next_receive_event_yields _ _ Hyield) as (c1 & Hnext & Hsame).
    assert (_request_method c1 = _request_method c
            ∧ _cstate c1 = _cstate c) as [Hm Hcs].
    { destruct Hsame as (w & r & ->). unfold fed. by destruct c. }
    assert (∃ e, (_process_event READERS WRITERS (their_role c1) event c1).1
                 = inl e) as [e He].
    { destruct (proj1 Hbad) as [Hty|Hty].
      - apply process_bad_request; [done|done].
      - apply process_bad_response; [done|done|by rewrite Hm|].
        unfold accepts_connect in *. by rewrite Hcs. }
    assert (is_Paused event = false) as Hp.
    { unfold is_Paused. destruct (proj1 Hbad) as [Hty|Hty]; by rewrite Hty. }
    destruct (receive_data_loop_process_raises fuel [] event (fed data c) c1 e
                Hnext Hp He) as [c2 Hloop].
    destruct (receive_data READERS WRITERS (S fuel) data c)
      as [[[e'|evs] c']|] eqn:Hrecv.
    + assert (e' = e) as ->.
      { apply receive_data_raises in Hrecv as [(? & _)|(_ & c3 & Htry & _)];
          [done|].
        unfold receive_data_try in Htry.
        rewrite (update_buffer_fed data c Hok), Hloop in Htry. by simplify_eq. }
      exists e, c'. split; [done|].
      by eapply receive_data_raises_in_ERROR.
    + apply receive_data_returns in Hrecv as (_ & c3 & Hu & Hl).
      rewrite (update_buffer_fed data c Hok) in Hu. by simplify_eq.
    + unfold receive_data, receive_data_try in Hrecv.
      rewrite bool_decide_eq_false_2 in Hrecv by done.
      rewrite (update_buffer_fed data c Hok), Hloop in Hrecv.
      by destruct (_process_error _ _ _ _) as [[?|?] ?].
Qed.

(** ** Waiting for [100 Continue] *)

Lemma waiting_only_while_sending_frame (c c' : Conn) :
  _cstate c' = _cstate c →
  client_is_waiting_for_100_continue c' = client_is_waiting_for_100_continue c →
  waiting_only_while_sending c → waiting_only_while_sending c'.
Proof.
  unfold waiting_only_while_sending, client_state, state_of.
  intros -> ->. done.
Qed.

Lemma same_but_codecs_waiting (c c' : Conn) :
  same_but_codecs c c' →
  waiting_only_while_sending c → waiting_only_while_sending c'.
Proof.
  intros (w & r & ->). by apply waiting_only_while_sending_frame.
Qed.

Lemma attribute_updates_waiting role event cs (c : Conn) :
  client_is_waiting_for_100_continue (attribute_updates role event cs c) =
  match event with
  | Request _ _ headers v =>
      if has_expect_100_continue headers v then true
      else client_is_waiting_for_100_continue c
  | InformationalResponse _ _ _ | Response _ _ _ => false
  | Data _ | EndOfMessage _ =>
      if bool_decide (role = CLIENT) then false
      else client_is_waiting_for_100_continue c
  | _ => client_is_waiting_for_100_continue c
  end.
Proof.
  unfold attribute_updates, their_role.
  destruct ((is_Request event || is_Response event) && negb (_keep_alive event));
    destruct event;
    cbn [_cstate set_cstate set_request_method set_their_http_version
         set_client_is_waiting_for_100_continue our_role
         client_is_waiting_for_100_continue];
    repeat match goal with
    | |- context [if ?b then _ else _] => destruct b
    end; reflexivity.
Qed.

Lemma after_switch_proposals_waiting role event (c : Conn) :
  waiting_only_while_sending c →
  waiting_only_while_sending (after_switch_proposals role event c).
Proof.
  unfold after_switch_proposals. destruct (_ && _); [|done].
  unfold waiting_only_while_sending, client_state, state_of.
  cbn [_cstate set_cstate client_is_waiting_for_100_continue].
  intros Hi Hw. specialize (Hi Hw).
  unfold process_client_switch_proposals. by rewrite fire_keeps_client.
Qed.

Lemma process_event_waiting role event (c : Conn) :
  waiting_only_while_sending c →
  waiting_only_while_sending (_process_event READERS WRITERS role event c).2.
Proof.
  intros Hi. rewrite process_event_stages. cbv zeta.
  apply (after_switch_proposals_waiting role event) in Hi.
  set (c1 := after_switch_proposals role event c) in *.
  destruct (process_event _ _ _ _) as [e|cs] eqn:Hpe; [exact Hi|].
  destruct (_respond_to_state_changes _ _ _ _ _) as [res c'] eqn:Hr.
  apply respond_to_state_changes_frame in Hr. simpl.
  apply (same_but_codecs_waiting _ _ Hr).
  unfold waiting_only_while_sending, client_state in *.
  rewrite attribute_updates_waiting.
  assert (Hkeep : state_of c1 CLIENT = SEND_BODY ∨ state_of c1 CLIENT = ERROR →
            switch_event_for role event c1 = None →
            role = SERVER ∨ (type_of event ≠ TData ∧ type_of event ≠ TEndOfMessage) →
            state_of (attribute_updates role event cs c1) CLIENT = SEND_BODY
            ∨ state_of (attribute_updates role event cs c1) CLIENT = ERROR).
  { intros Hc Hsw Hrole. rewrite Hsw in Hpe.
    assert (states_get (states cs) CLIENT = states_get (states (_cstate c1)) CLIENT)
      as Hsame.
    { destruct role.
      - apply process_event_client_sending in Hpe; [|exact Hc].
        destruct Hrole as [?|[? ?]]; [done|]. by destruct Hpe.
      - by apply process_event_server_keeps_client in Hpe. }
    unfold state_of in *. rewrite attribute_updates_cstate.
    destruct (_ && _); [|by rewrite Hsame].
    unfold process_keep_alive_disabled. rewrite fire_keeps_client.
    - cbn [states]. by rewrite Hsame.
    - cbn [states]. unfold sending_or_error. by rewrite Hsame. }
  assert (Hnone : ∀ r, type_of event ≠ TInformationalResponse →
            type_of event ≠ TResponse → switch_event_for r event c1 = None).
  { intros r. unfold switch_event_for. destruct (bool_decide _); [|done].
    by destruct event. }
  destruct event; try done.
  - (* Request *)
    intros _. left.
    rewrite (Hnone role) in Hpe by done.
    apply process_event_request in Hpe as (_ & _ & Hbody).
    by apply attribute_updates_state.
  - (* Data *)
    case_bool_decide as Hrole; [done|]. intros Hw.
    apply Hkeep; [by apply Hi|by apply Hnone|]. left. by destruct role.
  - (* EndOfMessage *)
    case_bool_decide as Hrole; [done|]. intros Hw.
    apply Hkeep; [by apply Hi|by apply Hnone|]. left. by destruct role.
  - (* ConnectionClosed *)
    intros Hw. apply Hkeep; [by apply Hi|by apply Hnone|]. by right.
  - (* Paused *)
    intros Hw. apply Hkeep; [by apply Hi|by apply Hnone|]. by right.
Qed.

Lemma process_error_waiting role (c : Conn) :
  waiting_only_while_sending c →
  waiting_only_while_sending (_process_error READERS WRITERS role c).2.
Proof.
  intros Hi.
  pose proof (process_error_conn role c) as (_ & _ & _ & Hsame).
  apply (same_but_codecs_waiting _ _ Hsame).
  unfold waiting_only_while_sending, client_state, state_of in *.
  cbn [_cstate set_cstate client_is_waiting_for_100_continue].
  intros Hw. specialize (Hi Hw). rewrite process_error_states.
  case_bool_decide; [by right|done].
Qed.

Lemma next_receive_event_frame (c : Conn) res c' :
  _next_receive_event c = (res, c') →
  _cstate c' = _cstate c
  ∧ client_is_waiting_for_100_continue c'
    = client_is_waiting_for_100_continue c.
Proof.
  unfold _next_receive_event. unfold_M.
  destruct (bool_decide (their_state c = DONE) && py_bool (_receive_buffer c));
    [by intros [= _ <-]|].
  destruct (bool_decide (their_state c = MIGHT_SWITCH_PROTOCOL)
            || bool_decide (their_state c = SWITCHED_PROTOCOL));
    [by intros [= _ <-]|].
  destruct (_reader c) as [reader|]; [|by intros [= _ <-]].
  destruct (call_reader reader (_receive_buffer c)) as [[result reader'] buf].
  simpl. destruct result as [e|[event|]]; [by intros [= _ <-]..|].
  destruct (negb (py_bool buf) && _receive_buffer_closed c);
    [|by intros [= _ <-]].
  destruct (reader_read_eof reader') as [[[e|event] reader'']|];
    by intros [= _ <-].
Qed.

Lemma update_buffer_frame data (c : Conn) res c' :
  receive_data_update_buffer data c = (res, c') →
  _cstate c' = _cstate c
  ∧ client_is_waiting_for_100_continue c'
    = client_is_waiting_for_100_continue c.
Proof.
  unfold receive_data_update_buffer. unfold_M.
  destruct data as [d|]; [|by intros [= _ <-]].
  destruct (py_bool d); [|by intros [= _ <-]].
  destruct (_receive_buffer_closed c); by intros [= _ <-].
Qed.

Lemma receive_data_loop_waiting fuel events (c : Conn) res c' :
  receive_data_loop READERS WRITERS fuel events c = Some (res, c') →
  waiting_only_while_sending c → waiting_only_while_sending c'.
Proof.
  revert events c. induction fuel as [|fuel IH]; intros events c; [done|].
  simpl. destruct (_next_receive_event c) as [[e|[event|]] c1] eqn:Hn;
    apply next_receive_event_frame in Hn as [Hcs Hw];
    intros Hl Hi;
    pose proof (waiting_only_while_sending_frame c c1 Hcs Hw Hi) as Hi1.
  - by simplify_eq.
  - destruct (is_Paused event); [by simplify_eq|].
    pose proof (process_event_waiting (their_role c1) event c1 Hi1) as Hi2.
    destruct (_process_event _ _ _ _ _) as [[e|[]] c2]; simpl in Hi2.
    + by simplify_eq.
    + destruct (is_ConnectionClosed event); [by simplify_eq|].
      by eapply IH.
  - by simplify_eq.
Qed.

Lemma receive_data_waiting fuel data (c : Conn) res c' :
  receive_data READERS WRITERS fuel data c = Some (res, c') →
  waiting_only_while_sending c → waiting_only_while_sending c'.
Proof.
  unfold receive_data. destruct (bool_decide _); [by intros [= _ <-]|].
  intros Hr Hi.
  assert (∀ r1 c1, receive_data_try READERS WRITERS fuel data c = Some (r1, c1) →
                   waiting_only_while_sending c1) as Htry.
  { unfold receive_data_try. intros r1 c1.
    destruct (receive_data_update_buffer data c) as [[e|[]] c0] eqn:Hu;
      apply update_buffer_frame in Hu as [Hcs Hw];
      pose proof (waiting_only_while_sending_frame c c0 Hcs Hw Hi) as Hi0.
    - by intros [= _ <-].
    - destruct (receive_data_loop _ _ _ _ _) as [[[e|events] c2]|] eqn:Hl;
        [| |done]; apply receive_data_loop_waiting in Hl; [|done| |done].
      + by intros [= _ <-].
      + unfold receive_data_finish. unfold_M.
        rewrite set_receive_buffer_compress.
        destruct (ends_with_Paused events); simpl;
          repeat match goal with
          | |- context [if ?b then _ else _] => destruct b; simpl
          end; by intros [= _ <-]. }
  destruct (receive_data_try _ _ _ _ _) as [[[e|events] c1]|] eqn:Ht; [| |done].
  - pose proof (process_error_waiting (their_role c1) c1 (Htry _ _ eq_refl)).
    destruct (_process_error _ _ _ _) as [[?|?] ?]; by simplify_eq.
  - simplify_eq. by eapply Htry.
Qed.

Lemma send_event_waiting event (c : Conn) res c' :
  send_event READERS WRITERS event c = (res, c') →
  waiting_only_while_sending c → waiting_only_while_sending c'.
Proof.
  unfold send_event. unfold_M. intros Hs Hi.
  pose proof (process_event_waiting (our_role c) event c Hi) as Hi1.
  destruct (_process_event _ _ _ _ _) as [[e|[]] c1]; simpl in Hi1;
    [by simplify_eq|].
  destruct (is_ConnectionClosed event); [by simplify_eq|].
  destruct (_writer c) as [w|]; [|by simplify_eq].
  destruct (call_writer w event) as [result w'].
  assert (waiting_only_while_sending (set_writer (Some w') c1)) as Hi2.
  { by apply (waiting_only_while_sending_frame c1). }
  destruct (bool_decide _), result; simpl in Hs; by simplify_eq.
Qed.

Lemma send_waiting event (c : Conn) res c' :
  send_with_data_passthrough READERS WRITERS event c = (res, c') →
  waiting_only_while_sending c → waiting_only_while_sending c'.
Proof.
  unfold send_with_data_passthrough. unfold_M.
  destruct (bool_decide _); [by intros [= _ <-]|]. intros Hs Hi.
  assert (∀ r1 c1, send_try READERS WRITERS event c = (r1, c1) →
                   waiting_only_while_sending c1) as Htry.
  { unfold send_try. unfold_M. intros r1 c1.
    destruct (is_Response event).
    - destruct (_clean_up_response_headers_for_sending event c)
        as [[e|event'] c0] eqn:Hc.
      + assert (c0 = c) as ->.
        { unfold _clean_up_response_headers_for_sending in Hc.
          repeat case_match; by simplify_eq. }
        by intros [= _ <-].
      + assert (c0 = c) as ->.
        { unfold _clean_up_response_headers_for_sending in Hc.
          repeat case_match; by simplify_eq. }
        intros Hse. by eapply send_event_waiting.
    - intros Hse. by eapply send_event_waiting. }
  destruct (send_try _ _ _ _) as [[e|d] c1] eqn:Ht.
  - pose proof (process_error_waiting (our_role c1) c1 (Htry _ _ eq_refl)).
    destruct (_process_error _ _ _ _) as [[?|?] ?]; by simplify_eq.
  - simplify_eq. by eapply Htry.
Qed.

Lemma prepare_to_reuse_waiting (c : Conn) res c' :
  prepare_to_reuse READERS WRITERS c = (res, c') →
  waiting_only_while_sending c → waiting_only_while_sending c'.
Proof.
  unfold prepare_to_reuse, cstate_prepare_to_reuse. unfold_M.
  destruct (bool_decide (states (_cstate c) = mkStates DONE DONE)
            && keep_alive (_cstate c)) eqn:Hb; [|by intros [= _ <-]].
  apply andb_true_iff in Hb as [Hs _]. apply bool_decide_eq_true in Hs.
  intros Hp Hi.
  assert (client_is_waiting_for_100_continue c = false) as Hw.
  { destruct (client_is_waiting_for_100_continue c) eqn:Hw; [|done].
    destruct (Hi Hw) as [Hc|Hc]; unfold client_state, state_of in Hc;
      rewrite Hs in Hc; done. }
  rewrite Hw in Hp. simpl in Hp.
  apply respond_to_state_changes_frame in Hp as (w & r & ->).
  unfold waiting_only_while_sending.
  cbn [client_is_waiting_for_100_continue set_reader set_writer
       set_request_method set_cstate]. by rewrite Hw.
Qed.

(** On every connection that can arise, the client waits for
    [100 Continue] only while it sends its body: [prepare_to_reuse] never
    finds it waiting when both roles are [DONE]. *)
Lemma reachable_waiting (c : Conn) :
  reachable READERS WRITERS c → waiting_only_while_sending c.
Proof.
  induction 1 as [role max|c event res c' _ IH Hs|c fuel data res c' _ IH Hr
                 |c res c' _ IH Hp].
  - by intros ?.
  - by eapply send_waiting.
  - by eapply receive_data_waiting.
  - by eapply prepare_to_reuse_waiting.
Qed.

(** C9.  [prepare_to_reuse] succeeds only when both roles are in [DONE] and
    [keep_alive] is true, and it requires
    [client_is_waiting_for_100_continue] to be false.  On success both
    roles are in [IDLE], the request method is cleared and
    [their_http_version] is unchanged.  When the roles are not both in
    [DONE] or [keep_alive] is false it raises a protocol error and leaves
    the connection as it was.  (On every connection that can arise the
    client is not waiting when both roles are [DONE], so there the call
    succeeds exactly when both roles are [DONE] and [keep_alive] is
    true.) *)
Theorem prepare_to_reuse_resets_or_fails (c : Conn) :
  let r := prepare_to_reuse READERS WRITERS c in
  let reusable :=
    states (_cstate c) = mkStates DONE DONE ∧ keep_alive (_cstate c) = true in
  (r.1 = inr () →
     reusable ∧ client_is_waiting_for_100_continue c = false
     ∧ client_state r.2 = IDLE ∧ server_state r.2 = IDLE
     ∧ _request_method r.2 = None
     ∧ their_http_version r.2 = their_http_version c)
  ∧ (reusable → client_is_waiting_for_100_continue c = false → r.1 = inr ())
  ∧ (¬ reusable → (∃ msg hint, r.1 = inl (ProtocolError msg hint)) ∧ r.2 = c)
  ∧ (reachable READERS WRITERS c → (r.1 = inr () ↔ reusable)).
Proof.
  intros r reusable.
  assert (Hreach : reachable READERS WRITERS c → reusable →
                   client_is_waiting_for_100_continue c = false).
  { intros Hr [Hs _]. apply reachable_waiting in Hr.
    destruct (client_is_waiting_for_100_continue c) eqn:Hw; [|done].
    destruct (Hr Hw) as [Hc|Hc]; unfold client_state, state_of in Hc;
      rewrite Hs in Hc; done. }
  assert (Hmain :
    (r.1 = inr () →
       reusable ∧ client_is_waiting_for_100_continue c = false
       ∧ client_state r.2 = IDLE ∧ server_state r.2 = IDLE
       ∧ _request_method r.2 = None
       ∧ their_http_version r.2 = their_http_version c)
    ∧ (reusable → client_is_waiting_for_100_continue c = false → r.1 = inr ())
    ∧ (¬ reusable → (∃ msg hint, r.1 = inl (ProtocolError msg hint)) ∧ r.2 = c)).
  { subst r. clear Hreach.
    unfold prepare_to_reuse, cstate_prepare_to_reuse. unfold_M.
    destruct (bool_decide (states (_cstate c) = mkStates DONE DONE)
              && keep_alive (_cstate c)) eqn:Hb.
    - apply andb_true_iff in Hb as [Hs Hk]. apply bool_decide_eq_true in Hs.
      assert (reusable) as Hre by done.
      set (c1 := set_request_method None
                   (set_cstate (with_states (_cstate c) (mkStates IDLE IDLE)) c)).
      assert (Hidle : ∀ role, state_of c1 role = IDLE) by by intros [].
      destruct (client_is_waiting_for_100_continue c) eqn:Hw; simpl.
      + split; [done|]. split; [done|]. by intros [].
      + fold c1.
        assert (Hok : (_respond_to_state_changes READERS WRITERS
                         (states (_cstate c)) None c1).1 = inr ()).
        { apply respond_to_state_changes_ok; right;
            unfold our_state, their_state; by rewrite Hidle. }
        destruct (_respond_to_state_changes _ _ _ _ _) as [res c'] eqn:Hr.
        apply respond_to_state_changes_frame in Hr as (w & rd & ->).
        simpl in *. split; [|split]; [done|done|by intros []].
    - simpl. split; [done|]. split.
      + intros [Hs Hk]. rewrite Hk, bool_decide_eq_true_2 in Hb; done.
      + intros _. split; [eauto|done]. }
  destruct Hmain as (H1 & H2 & H3). split; [exact H1|]. split; [exact H2|].
  split; [exact H3|]. intros Hr. split.
  - intros Hok. by apply H1.
  - intros Hre. apply H2; [done|]. by apply Hreach.
Qed.
End ConnectionFacts.

(** * Further properties of the connection *)

Section WholeCalls.
Context {R W : Type} `{!ReaderOps R} `{!WriterOps W}.
Variable READERS : IoDict R.
Variable WRITERS : IoDict W.

#[local] Abbreviation Conn := (Connection R W).

(** ** What each step leaves alone *)

Lemma same_configuration_trans (c1 c2 c3 : Conn) :
  same_configuration c1 c2 → same_configuration c2 c3 →
  same_configuration c1 c3.
Proof. unfold same_configuration. intros [-> ->] [-> ->]. done. Qed.

Lemma same_receive_buffer_trans (c1 c2 c3 : Conn) :
  same_receive_buffer c1 c2 → same_receive_buffer c2 c3 →
  same_receive_buffer c1 c3.
Proof. unfold same_receive_buffer. intros [-> ->] [-> ->]. done. Qed.

Lemma same_memory_trans (c1 c2 c3 : Conn) :
  same_memory c1 c2 → same_memory c2 c3 → same_memory c1 c3.
Proof. unfold same_memory. intros (-> & -> & ->) (-> & -> & ->). done. Qed.

Lemma same_but_codecs_untouched (c c' : Conn) :
  same_but_codecs c c' →
  same_configuration c c' ∧ same_receive_buffer c c' ∧ same_memory c c'.
Proof. by intros (w & r & ->). Qed.

Lemma next_receive_event_untouched (c : Conn) res c' :
  _next_receive_event c = (res, c') →
  same_configuration c c' ∧ same_memory c c'
  ∧ _receive_buffer_closed c' = _receive_buffer_closed c
  ∧ _writer c' = _writer c.
Proof.
  unfold _next_receive_event. unfold_M.
  destruct (bool_decide (their_state c = DONE) && py_bool (_receive_buffer c));
    [by intros [= _ <-]|].
  destruct (bool_decide (their_state c = MIGHT_SWITCH_PROTOCOL)
            || bool_decide (their_state c = SWITCHED_PROTOCOL));
    [by intros [= _ <-]|].
  destruct (_reader c) as [reader|]; [|by intros [= _ <-]].
  destruct (call_reader reader (_receive_buffer c)) as [[result reader'] buf].
  simpl. destruct result as [e|[event|]]; [by intros [= _ <-]..|].
  destruct (negb (py_bool buf) && _receive_buffer_closed c);
    [|by intros [= _ <-]].
  destruct (reader_read_eof reader') as [[[e|event] reader'']|];
    by intros [= _ <-].
Qed.

Lemma update_buffer_untouched data (c : Conn) res c' :
  receive_data_update_buffer data c = (res, c') →
  same_configuration c c' ∧ same_memory c c'
  ∧ (_receive_buffer_closed c = true → _receive_buffer_closed c' = true).
Proof.
  unfold receive_data_update_buffer. unfold_M.
  destruct data as [d|]; [|by intros [= _ <-]].
  destruct (py_bool d); [|by intros [= _ <-]].
  destruct (_receive_buffer_closed c) eqn:Hc; intros [= _ <-]; done.
Qed.

Lemma attribute_updates_untouched role event cs (c : Conn) :
  same_configuration c (attribute_updates role event cs c)
  ∧ same_receive_buffer c (attribute_updates role event cs c).
Proof.
  unfold attribute_updates, their_role.
  destruct ((is_Request event || is_Response event) && negb (_keep_alive event));
    destruct event;
    cbn [_cstate set_cstate set_request_method set_their_http_version
         set_client_is_waiting_for_100_continue our_role];
    repeat match goal with
    | |- context [if ?b then _ else _] => destruct b
    end; done.
Qed.

Lemma attribute_updates_their_http_version role event cs (c : Conn) :
  their_http_version (attribute_updates role event cs c) =
  if bool_decide (role = their_role c)
  then http_version_seen (their_http_version c) event
  else their_http_version c.
Proof.
  unfold attribute_updates, their_role.
  destruct ((is_Request event || is_Response event) && negb (_keep_alive event));
    destruct event;
    cbn [_cstate set_cstate set_request_method set_their_http_version
         set_client_is_waiting_for_100_continue our_role their_http_version
         http_version_seen];
    repeat match goal with
    | |- context [if ?b then _ else _] => destruct b
    end; reflexivity.
Qed.

Lemma after_switch_proposals_untouched role event (c : Conn) :
  same_configuration c (after_switch_proposals role event c)
  ∧ same_receive_buffer c (after_switch_proposals role event c)
  ∧ same_memory c (after_switch_proposals role event c).
Proof. unfold after_switch_proposals. by destruct (_ && _). Qed.

Lemma process_event_untouched role event (c : Conn) res c' :
  _process_event READERS WRITERS role event c = (res, c') →
  same_configuration c c' ∧ same_receive_buffer c c'.
Proof.
  rewrite process_event_stages. cbv zeta.
  pose proof (after_switch_proposals_untouched role event c) as (Hc1 & Hb1 & _).
  set (c1 := after_switch_proposals role event c) in *.
  destruct (process_event _ _ _ _) as [e|cs]; [by intros [= _ <-]|].
  intros Hr. apply respond_to_state_changes_frame in Hr.
  apply same_but_codecs_untouched in Hr as (Hc3 & Hb3 & _).
  pose proof (attribute_updates_untouched role event cs c1) as [Hc2 Hb2].
  split.
  - eapply same_configuration_trans; [|exact Hc3].
    eapply same_configuration_trans; [exact Hc1|exact Hc2].
  - eapply same_receive_buffer_trans; [|exact Hb3].
    eapply same_receive_buffer_trans; [exact Hb1|exact Hb2].
Qed.

(** What an accepted event leaves in the connection's memory. *)
Lemma process_event_memory role event (c : Conn) c' :
  _process_event READERS WRITERS role event c = (inr (), c') →
  their_http_version c' =
    (if bool_decide (role = their_role c)
     then http_version_seen (their_http_version c) event
     else their_http_version c)
  ∧ _request_method c' = request_method_seen (_request_method c) event
  ∧ client_is_waiting_for_100_continue c'
    = waiting_after role (client_is_waiting_for_100_continue c) event.
Proof.
  rewrite process_event_stages. cbv zeta.
  pose proof (after_switch_proposals_untouched role event c)
    as ([Hrole _] & _ & Hv & Hm & Hw).
  set (c1 := after_switch_proposals role event c) in *.
  destruct (process_event _ _ _ _) as [e|cs]; [done|].
  intros Hr. apply respond_to_state_changes_frame in Hr.
  apply same_but_codecs_untouched in Hr as (_ & _ & -> & -> & ->).
  rewrite attribute_updates_their_http_version,
    attribute_updates_request_method, attribute_updates_waiting.
  unfold their_role. rewrite Hrole, Hv, Hm, Hw. done.
Qed.

(** An event of our own role never changes what is known of their HTTP
    version, accepted or not. *)
Lemma process_event_keeps_their_http_version event (c : Conn) res c' :
  _process_event READERS WRITERS (our_role c) event c = (res, c') →
  their_http_version c' = their_http_version c.
Proof.
  rewrite process_event_stages. cbv zeta.
  pose proof (after_switch_proposals_untouched (our_role c) event c)
    as ([Hrole _] & _ & Hv & _).
  set (c1 := after_switch_proposals (our_role c) event c) in *.
  destruct (process_event _ _ _ _) as [e|cs]; [by intros [= _ <-]|].
  intros Hr. apply respond_to_state_changes_frame in Hr.
  apply same_but_codecs_untouched in Hr as (_ & _ & -> & _).
  rewrite attribute_updates_their_http_version.
  rewrite bool_decide_eq_false_2; [done|].
  unfold their_role. rewrite Hrole. intros Heq.
  by apply (other_role_ne (our_role c)).
Qed.

Lemma process_error_untouched role (c : Conn) :
  let c' := (_process_error READERS WRITERS role c).2 in
  same_configuration c c' ∧ same_receive_buffer c c' ∧ same_memory c c'.
Proof.
  intros c'. subst c'.
  pose proof (process_error_conn READERS WRITERS role c) as (_ & _ & _ & Hs).
  by apply same_but_codecs_untouched in Hs.
Qed.

Lemma clean_up_connection event (c : Conn) res c' :
  _clean_up_response_headers_for_sending event c = (res, c') → c' = c.
Proof.
  unfold _clean_up_response_headers_for_sending.
  repeat case_match; by intros [= _ <-].
Qed.

Lemma send_event_untouched event (c : Conn) res c' :
  send_event READERS WRITERS event c = (res, c') →
  same_configuration c c' ∧ same_receive_buffer c c'
  ∧ their_http_version c' = their_http_version c.
Proof.
  unfold send_event. unfold_M. intros Hs.
  destruct (_process_event _ _ _ _ _) as [[e|[]] c1] eqn:Hpe;
    pose proof (process_event_keeps_their_http_version _ _ _ _ Hpe) as Hv;
    apply process_event_untouched in Hpe as [Hc Hb];
    [by simplify_eq|].
  destruct (is_ConnectionClosed event); [by simplify_eq|].
  destruct (_writer c) as [w|]; [|by simplify_eq].
  destruct (call_writer w event) as [result w'].
  destruct (bool_decide _), result; simpl in Hs; by simplify_eq.
Qed.

Lemma send_try_untouched event (c : Conn) res c' :
  send_try READERS WRITERS event c = (res, c') →
  same_configuration c c' ∧ same_receive_buffer c c'
  ∧ their_http_version c' = their_http_version c.
Proof.
  unfold send_try. unfold_M. destruct (is_Response event).
  - destruct (_clean_up_response_headers_for_sending event c)
      as [[e|event'] c0] eqn:Hc; apply clean_up_connection in Hc as ->.
    + by intros [= _ <-].
    + apply send_event_untouched.
  - apply send_event_untouched.
Qed.

Lemma send_untouched event (c : Conn) res c' :
  send_with_data_passthrough READERS WRITERS event c = (res, c') →
  same_configuration c c' ∧ same_receive_buffer c c'
  ∧ their_http_version c' = their_http_version c.
Proof.
  unfold send_with_data_passthrough. unfold_M.
  destruct (bool_decide _); [by intros [= _ <-]|].
  destruct (send_try _ _ _ _) as [[e|d] c1] eqn:Ht;
    apply send_try_untouched in Ht as (Hc & Hb & Hv).
  - pose proof (process_error_untouched (our_role c1) c1) as (Hc' & Hb' & Hv' & _).
    destruct (_process_error _ _ _ _) as [[?|?] c2]; simpl in *;
      intros [= _ <-];
      (split; [by eapply same_configuration_trans
              |split; [by eapply same_receive_buffer_trans|congruence]]).
  - by intros [= _ <-].
Qed.

Lemma prepare_to_reuse_untouched (c : Conn) res c' :
  prepare_to_reuse READERS WRITERS c = (res, c') →
  same_configuration c c' ∧ same_receive_buffer c c'
  ∧ their_http_version c' = their_http_version c.
Proof.
  unfold prepare_to_reuse. unfold_M.
  destruct (cstate_prepare_to_reuse (_cstate c)) as [e|cs];
    [by intros [= _ <-]|].
  destruct (client_is_waiting_for_100_continue c); simpl;
    [by intros [= _ <-]|].
  intros Hr. apply respond_to_state_changes_frame in Hr as (w & r & ->).
  done.
Qed.

Lemma receive_data_loop_untouched fuel events (c : Conn) res c' :
  receive_data_loop READERS WRITERS fuel events c = Some (res, c') →
  same_configuration c c'
  ∧ _receive_buffer_closed c' = _receive_buffer_closed c.
Proof.
  revert events c. induction fuel as [|fuel IH]; intros events c; [done|].
  simpl. destruct (_next_receive_event c) as [[e|[event|]] c1] eqn:Hn;
    apply next_receive_event_untouched in Hn as (Hc & _ & Hcl & _);
    intros Hl.
  - by simplify_eq.
  - destruct (is_Paused event); [by simplify_eq|].
    destruct (_process_event _ _ _ _ _) as [[e|[]] c2] eqn:Hpe;
      apply process_event_untouched in Hpe as [Hc2 [_ Hcl2]].
    + simplify_eq. split; [by eapply same_configuration_trans|congruence].
    + destruct (is_ConnectionClosed event).
      * simplify_eq. split; [by eapply same_configuration_trans|congruence].
      * apply IH in Hl as [Hc3 Hcl3].
        split; [|congruence].
        eapply same_configuration_trans; [|exact Hc3].
        by eapply same_configuration_trans.
  - by simplify_eq.
Qed.

Lemma receive_data_untouched fuel data (c : Conn) res c' :
  receive_data READERS WRITERS fuel data c = Some (res, c') →
  same_configuration c c'
  ∧ (_receive_buffer_closed c = true → _receive_buffer_closed c' = true).
Proof.
  unfold receive_data. destruct (bool_decide _); [by intros [= _ <-]|].
  assert (∀ r1 c1, receive_data_try READERS WRITERS fuel data c = Some (r1, c1) →
            same_configuration c c1
            ∧ (_receive_buffer_closed c = true → _receive_buffer_closed c1 = true))
    as Htry.
  { unfold receive_data_try. intros r1 c1.
    destruct (receive_data_update_buffer data c) as [[e|[]] c0] eqn:Hu;
      apply update_buffer_untouched in Hu as (Hc & _ & Hcl).
    - by intros [= _ <-].
    - destruct (receive_data_loop _ _ _ _ _) as [[[e|events] c2]|] eqn:Hl;
        [| |done]; apply receive_data_loop_untouched in Hl as [Hc2 Hcl2].
      + intros [= _ <-]. split; [by eapply same_configuration_trans|].
        intros Hx. rewrite Hcl2. by apply Hcl.
      + unfold receive_data_finish. unfold_M.
        rewrite set_receive_buffer_compress.
        assert (same_configuration c c2
                ∧ (_receive_buffer_closed c = true
                   → _receive_buffer_closed c2 = true)) as Hres.
        { split; [by eapply same_configuration_trans|].
          intros Hx. rewrite Hcl2. by apply Hcl. }
        destruct (ends_with_Paused events); simpl;
          repeat match goal with
          | |- context [if ?b then _ else _] => destruct b; simpl
          end; by intros [= _ <-]. }
  destruct (receive_data_try _ _ _ _ _) as [[[e|events] c1]|] eqn:Ht; [| |done].
  - destruct (Htry _ _ eq_refl) as [Hc Hcl].
    pose proof (process_error_untouched (their_role c1) c1) as (Hc' & [_ Hb'] & _).
    destruct (_process_error _ _ _ _) as [[?|?] c2]; simpl in *;
      intros [= _ <-];
      (split; [by eapply same_configuration_trans|];
       intros Hx; rewrite Hb'; by apply Hcl).
  - intros [= _ <-]. by eapply Htry.
Qed.

(** ** What a call leaves in the connection's memory *)

Lemma final_event_memory role event (v m : option bytes) (w : bool) :
  is_final event = true →
  http_version_seen v event = v ∧ request_method_seen m event = m
  ∧ waiting_after role w event = w.
Proof. by destruct event. Qed.

Lemma well_ended_cons e (new : list Event) :
  is_final e = false → well_ended new = true → well_ended (e :: new) = true.
Proof. intros He Hn. simpl. destruct new; [done|]. by rewrite He. Qed.

Lemma well_ended_lookup (events : list Event) i e :
  well_ended events = true → events !! i = Some e → is_final e = true →
  S i = List.length events.
Proof.
  revert i. induction events as [|e0 rest IH]; intros i Hw Hl Hf; [done|].
  destruct rest as [|e1 rest].
  - destruct i; [done|]. by destruct i.
  - simpl in Hw. apply andb_true_iff in Hw as [He0 Hw].
    destruct i as [|i]; simpl in Hl.
    + simplify_eq. by rewrite Hf in He0.
    + simpl. f_equal. by apply IH.
Qed.

(** The events that the loop adds to its list, and what they leave in the
    connection's memory. *)
Lemma receive_data_loop_memory fuel acc (c : Conn) events c' :
  receive_data_loop READERS WRITERS fuel acc c = Some (inr events, c') →
  ∃ new, events = acc ++ new ∧ well_ended new = true
    ∧ their_http_version c'
      = foldl http_version_seen (their_http_version c) new
    ∧ _request_method c' = foldl request_method_seen (_request_method c) new
    ∧ client_is_waiting_for_100_continue c'
      = foldl (waiting_after (their_role c))
          (client_is_waiting_for_100_continue c) new.
Proof.
  revert acc c. induction fuel as [|fuel IH]; intros acc c; [done|].
  simpl. destruct (_next_receive_event c) as [[e|[event|]] c1] eqn:Hn;
    apply next_receive_event_untouched in Hn as ([Hrole _] & (Hv & Hm & Hw) & _);
    intros Hl.
  - done.
  - destruct (is_Paused event) eqn:Hp.
    { simplify_eq. exists [event]. split; [done|]. split; [done|].
      assert (is_final event = true) as Hf by (unfold is_final; by rewrite Hp).
      simpl.
      destruct (final_event_memory (their_role c) event (their_http_version c)
                  (_request_method c) (client_is_waiting_for_100_continue c) Hf)
        as (-> & -> & ->). done. }
    destruct (_process_event _ _ _ _ _) as [[e|[]] c2] eqn:Hpe; [done|].
    pose proof (process_event_untouched _ _ _ _ _ Hpe) as [[Hrole2 _] _].
    apply process_event_memory in Hpe as (Hv2 & Hm2 & Hw2).
    rewrite bool_decide_eq_true_2 in Hv2 by done.
    assert (their_role c1 = their_role c) as Htr
      by (unfold their_role; by rewrite Hrole).
    rewrite Hv, Hm, Hw, Htr in *.
    destruct (is_ConnectionClosed event) eqn:Hcc.
    { simplify_eq. exists [event]. done. }
    apply IH in Hl as (new & -> & Hwe & Hv3 & Hm3 & Hw3).
    exists (event :: new). split; [by rewrite <- app_assoc|].
    split.
    { apply well_ended_cons; [|done]. unfold is_final. by rewrite Hp, Hcc. }
    simpl. rewrite Hv3, Hm3, Hw3, Hv2, Hm2, Hw2.
    unfold their_role. by rewrite Hrole2, Hrole.
  - simplify_eq. exists []. by rewrite app_nil_r.
Qed.

Lemma receive_data_memory fuel data (c : Conn) events c' :
  receive_data READERS WRITERS fuel data c = Some (inr events, c') →
  well_ended events = true
  ∧ their_http_version c'
    = foldl http_version_seen (their_http_version c) events
  ∧ _request_method c' = foldl request_method_seen (_request_method c) events
  ∧ client_is_waiting_for_100_continue c'
    = foldl (waiting_after (their_role c))
        (client_is_waiting_for_100_continue c) events.
Proof.
  intros Hr. apply receive_data_returns in Hr as (_ & c1 & Hu & Hl).
  apply update_buffer_untouched in Hu as ([Hrole _] & (Hv & Hm & Hw) & _).
  apply receive_data_loop_memory in Hl as (new & -> & Hwe & Hv2 & Hm2 & Hw2).
  unfold their_role in *. rewrite Hv, Hm, Hw, Hrole in *. done.
Qed.

Lemma clean_up_returns_response event (c : Conn) event' c' :
  _clean_up_response_headers_for_sending event c = (inr event', c') →
  ∃ status_code headers headers' http_version,
    event = Response status_code headers http_version
    ∧ event' = Response status_code headers' http_version.
Proof.
  unfold _clean_up_response_headers_for_sending.
  destruct event; try done.
  destruct (_body_framing _ _) as [e|framing]; [done|].
  destruct (match framing with content_length _ => _ | _ => _ end)
    as [headers' need_close].
  intros [= <- _]. by eexists _, _, _, _.
Qed.

Lemma send_event_memory event (c : Conn) r c' :
  send_event READERS WRITERS event c = (inr r, c') →
  _request_method c' = request_method_seen (_request_method c) event
  ∧ client_is_waiting_for_100_continue c'
    = waiting_after (our_role c) (client_is_waiting_for_100_continue c) event.
Proof.
  unfold send_event. unfold_M. intros Hs.
  destruct (_process_event _ _ _ _ _) as [[e|[]] c1] eqn:Hpe; [done|].
  apply process_event_memory in Hpe as (_ & Hm & Hw).
  destruct (is_ConnectionClosed event); [by simplify_eq|].
  destruct (_writer c) as [w|]; [|by simplify_eq].
  destruct (call_writer w event) as [result w'].
  destruct (bool_decide _), result; simpl in Hs; by simplify_eq.
Qed.

Lemma send_memory event (c : Conn) r c' :
  send_with_data_passthrough READERS WRITERS event c = (inr r, c') →
  _request_method c' = request_method_seen (_request_method c) event
  ∧ client_is_waiting_for_100_continue c'
    = waiting_after (our_role c) (client_is_waiting_for_100_continue c) event.
Proof.
  intros Hs. apply send_returns_from_try in Hs. revert Hs.
  unfold send_try. unfold_M. destruct (is_Response event).
  - destruct (_clean_up_response_headers_for_sending event c)
      as [[e|event'] c0] eqn:Hc; [done|].
    pose proof (clean_up_connection _ _ _ _ Hc) as ->.
    apply clean_up_returns_response in Hc as (sc & h & h' & v & -> & ->).
    intros Hs. apply send_event_memory in Hs. exact Hs.
  - apply send_event_memory.
Qed.

(** ** Properties of whole calls *)

(** X1.  The role of the connection, the role of its peer and the limit on
    the receive buffer are fixed when the connection is made: no call of
    [send_with_data_passthrough], [receive_data] or [prepare_to_reuse]
    changes them, whether it returns or raises. *)
Theorem configuration_is_fixed (c : Conn) :
  (∀ event res c',
     send_with_data_passthrough READERS WRITERS event c = (res, c') →
     our_role c' = our_role c ∧ their_role c' = their_role c
     ∧ _max_buffer_size c' = _max_buffer_size c)
  ∧ (∀ fuel data res c',
       receive_data READERS WRITERS fuel data c = Some (res, c') →
       our_role c' = our_role c ∧ their_role c' = their_role c
       ∧ _max_buffer_size c' = _max_buffer_size c)
  ∧ (∀ res c',
       prepare_to_reuse READERS WRITERS c = (res, c') →
       our_role c' = our_role c ∧ their_role c' = their_role c
       ∧ _max_buffer_size c' = _max_buffer_size c).
Proof.
  assert (∀ c' : Conn, same_configuration c c' →
            our_role c' = our_role c ∧ their_role c' = their_role c
            ∧ _max_buffer_size c' = _max_buffer_size c) as Hconf.
  { intros c' [Hr Hm]. unfold their_role. by rewrite Hr, Hm. }
  split; [|split].
  - intros event res c' Hs. apply Hconf. by apply send_untouched in Hs as [? _].
  - intros fuel data res c' Hr. apply Hconf.
    by apply receive_data_untouched in Hr as [? _].
  - intros res c' Hp. apply Hconf.
    by apply prepare_to_reuse_untouched in Hp as [? _].
Qed.

(** X2.  Once end-of-file is recorded it stays recorded: if the receive
    buffer is marked closed before a call of [receive_data],
    [send_with_data_passthrough] or [prepare_to_reuse], it is marked closed
    after it, whether the call returns or raises. *)
Theorem end_of_file_stays_recorded (c : Conn) :
  _receive_buffer_closed c = true →
  (∀ fuel data res c',
     receive_data READERS WRITERS fuel data c = Some (res, c') →
     _receive_buffer_closed c' = true)
  ∧ (∀ event res c',
       send_with_data_passthrough READERS WRITERS event c = (res, c') →
       _receive_buffer_closed c' = true)
  ∧ (∀ res c',
       prepare_to_reuse READERS WRITERS c = (res, c') →
       _receive_buffer_closed c' = true).
Proof.
  intros Hc. split; [|split].
  - intros fuel data res c' Hr.
    apply receive_data_untouched in Hr as [_ Hcl]. by apply Hcl.
  - intros event res c' Hs.
    apply send_untouched in Hs as (_ & [_ Hcl] & _). by rewrite Hcl.
  - intros res c' Hp.
    apply prepare_to_reuse_untouched in Hp as (_ & [_ Hcl] & _). by rewrite Hcl.
Qed.

(** X3.  Sending never touches the receive side: after
    [send_with_data_passthrough], whether it returns or raises,
    [trailing_data] and [their_http_version] are what they were. *)
Theorem send_leaves_the_receive_side (c : Conn) event res c' :
  send_with_data_passthrough READERS WRITERS event c = (res, c') →
  trailing_data c' = trailing_data c
  ∧ their_http_version c' = their_http_version c.
Proof.
  intros Hs. apply send_untouched in Hs as (_ & [Hb Hcl] & Hv).
  unfold trailing_data. by rewrite Hb, Hcl, Hv.
Qed.

(** X4.  [prepare_to_reuse] keeps the bytes that are waiting in the receive
    buffer and the end-of-file mark: [trailing_data] is the same after the
    call, whether it returns or raises. *)
Theorem prepare_to_reuse_keeps_trailing_data (c : Conn) res c' :
  prepare_to_reuse READERS WRITERS c = (res, c') →
  trailing_data c' = trailing_data c.
Proof.
  intros Hp. apply prepare_to_reuse_untouched in Hp as (_ & [Hb Hcl] & _).
  unfold trailing_data. by rewrite Hb, Hcl.
Qed.

(** X5.  When [receive_data] returns, [their_http_version] is the HTTP
    version of the last Request, InformationalResponse or Response among
    the returned events, and is unchanged when there is none. *)
Theorem their_http_version_is_the_last_received fuel data (c : Conn) events c' :
  receive_data READERS WRITERS fuel data c = Some (inr events, c') →
  their_http_version c'
  = foldl http_version_seen (their_http_version c) events.
Proof. intros Hr. by apply receive_data_memory in Hr as (_ & ? & _). Qed.

(** X6.  The request method that the connection remembers (and by which
    responses are framed) is the method of the last Request that went
    through: after [receive_data] returns it is the method of the last
    Request among the returned events, after [send_with_data_passthrough]
    returns it is the method of the event if that is a Request, and
    otherwise it is unchanged. *)
Theorem request_method_is_the_last_request (c : Conn) :
  (∀ fuel data events c',
     receive_data READERS WRITERS fuel data c = Some (inr events, c') →
     _request_method c' = foldl request_method_seen (_request_method c) events)
  ∧ (∀ event r c',
       send_with_data_passthrough READERS WRITERS event c = (inr r, c') →
       _request_method c' = request_method_seen (_request_method c) event).
Proof.
  split.
  - intros fuel data events c' Hr.
    by apply receive_data_memory in Hr as (_ & _ & ? & _).
  - intros event r c' Hs. by apply send_memory in Hs as [? _].
Qed.

(** X7.  [client_is_waiting_for_100_continue] follows the events that went
    through: a Request sets it when it expects [100-continue], an
    InformationalResponse or a Response clears it, and so does a Data or
    EndOfMessage event of the client; other events leave it alone.  So
    after the server has sent any response, the client is no longer
    waiting. *)
Theorem waiting_for_100_continue_follows_the_events (c : Conn) :
  (∀ fuel data events c',
     receive_data READERS WRITERS fuel data c = Some (inr events, c') →
     client_is_waiting_for_100_continue c'
     = foldl (waiting_after (their_role c))
         (client_is_waiting_for_100_continue c) events)
  ∧ (∀ event r c',
       send_with_data_passthrough READERS WRITERS event c = (inr r, c') →
       client_is_waiting_for_100_continue c'
       = waiting_after (our_role c) (client_is_waiting_for_100_continue c) event)
  ∧ (∀ event r c',
       send_with_data_passthrough READERS WRITERS event c = (inr r, c') →
       type_of event = TInformationalResponse ∨ type_of event = TResponse →
       they_are_waiting_for_100_continue c' = false).
Proof.
  split; [|split].
  - intros fuel data events c' Hr.
    by apply receive_data_memory in Hr as (_ & _ & _ & ?).
  - intros event r c' Hs. by apply send_memory in Hs as [_ ?].
  - intros event r c' Hs Hty. apply send_memory in Hs as [_ Hw].
    unfold they_are_waiting_for_100_continue. rewrite Hw.
    destruct Hty as [Hty|Hty]; destruct event; try done;
      by rewrite andb_false_r.
Qed.

(** X8.  In the list of events that [receive_data] returns, only the last
    one can be [Paused] or [ConnectionClosed]. *)
Theorem only_the_last_event_is_final fuel data (c : Conn) events c' i e :
  receive_data READERS WRITERS fuel data c = Some (inr events, c') →
  events !! i = Some e →
  type_of e = TPaused ∨ type_of e = TConnectionClosed →
  S i = List.length events.
Proof.
  intros Hr Hl Hty. apply receive_data_memory in Hr as (Hwe & _).
  apply (well_ended_lookup events i e Hwe Hl).
  unfold is_final, is_Paused, is_ConnectionClosed.
  destruct Hty as [-> | ->]; done.
Qed.

(** ** What [send] returns *)

Lemma send_event_result event (c : Conn) r c' :
  send_event READERS WRITERS event c = (inr r, c') →
  (r = None ↔ is_ConnectionClosed event = true).
Proof.
  unfold send_event. unfold_M.
  destruct (_process_event _ _ _ _ _) as [[e|[]] c1]; [done|].
  destruct (is_ConnectionClosed event); [by intros [= <- _]|].
  destruct (_writer c) as [w|]; [|done].
  destruct (call_writer w event) as [[e|d] w']; simpl;
    destruct (bool_decide _); try done; by intros [= <- _].
Qed.

(** The writer after a send that did not change our state is the writer
    that serialized the event. *)
Lemma send_event_writer event (c : Conn) data_list c' :
  send_event READERS WRITERS event c = (inr (Some data_list), c') →
  ∃ w, _writer c = Some w ∧ (call_writer w event).1 = inr data_list
       ∧ (our_state c' = our_state c → _writer c' = Some (call_writer w event).2).
Proof.
  unfold send_event. unfold_M.
  destruct (_process_event _ _ _ _ _) as [[e|[]] c1]; [done|].
  destruct (is_ConnectionClosed event); [done|].
  destruct (_writer c) as [w|]; [|done].
  destruct (call_writer w event) as [[e|d] w'] eqn:Hw; simpl.
  - by destruct (bool_decide _).
  - case_bool_decide as Hs; intros [= <- <-]; exists w; rewrite Hw;
      (split; [done|split; [done|]]); [done|].
    intros Hs'. done.
Qed.

(** X9.  [send] returns [None] exactly for a [ConnectionClosed] event: when
    it returns normally, the result is [None] if and only if the event is
    [ConnectionClosed], and bytes to send otherwise. *)
Theorem send_returns_None_for_ConnectionClosed event (c : Conn) r c' :
  send READERS WRITERS event c = (inr r, c') →
  (r = None ↔ event = ConnectionClosed).
Proof.
  unfold send. unfold_M.
  destruct (send_with_data_passthrough READERS WRITERS event c)
    as [[e|data_list] c1] eqn:Hs; [done|].
  intros [= <- <-]. apply send_returns_from_try in Hs. revert Hs.
  assert (∀ ev : Event, is_ConnectionClosed ev = true ↔ ev = ConnectionClosed)
    as Hcc by (intros ev; by destruct ev).
  assert (∀ l : option (list bytes),
            foldr String.append "" <$> l = None ↔ l = None) as Hnone
    by (intros l; by destruct l).
  rewrite Hnone. unfold send_try. unfold_M.
  destruct (is_Response event) eqn:Hresp.
  - destruct (_clean_up_response_headers_for_sending event c)
      as [[e|event'] c0] eqn:Hc; [done|].
    apply clean_up_returns_response in Hc as (sc & h & h' & v & -> & ->).
    intros Hs. apply send_event_result in Hs. rewrite Hs. done.
  - intros Hs. apply send_event_result in Hs. by rewrite Hs.
Qed.

(** X10.  The bytes that [send_with_data_passthrough] returns are produced
    by the writer that was current before the event went through the state
    machine, applied to the event (for a Response, to the response with its
    headers cleaned up).  If the event did not change the state of our
    role, that writer, as the call left it, is still the current one. *)
Theorem send_serializes_with_the_writer_before_the_event
    event (c : Conn) data_list c' :
  send_with_data_passthrough READERS WRITERS event c
  = (inr (Some data_list), c') →
  ∃ w event',
    _writer c = Some w
    ∧ (if is_Response event
       then (_clean_up_response_headers_for_sending event c).1 = inr event'
       else event' = event)
    ∧ (call_writer w event').1 = inr data_list
    ∧ (our_state c' = our_state c → _writer c' = Some (call_writer w event').2).
Proof.
  intros Hs. apply send_returns_from_try in Hs. revert Hs.
  unfold send_try. unfold_M. destruct (is_Response event).
  - destruct (_clean_up_response_headers_for_sending event c)
      as [[e|event'] c0] eqn:Hc; [done|].
    pose proof (clean_up_connection _ _ _ _ Hc) as ->.
    intros Hs. apply send_event_writer in Hs as (w & Hw & Hd & Hk).
    by exists w, event'.
  - intros Hs. apply send_event_writer in Hs as (w & Hw & Hd & Hk).
    by exists w, event.
Qed.

(** ** Incomplete input *)

(** X11.  When the reader needs more data than the buffer holds, nothing
    is lost: [receive_data], given non-empty bytes while their role is
    still reading (no end-of-file recorded), returns no events, and the
    connection differs only in the reader, as the call left it, and the
    receive buffer, which holds what the reader left of the old contents
    followed by the new bytes.  The buffer may fill up to exactly
    [max_buffer_size] bytes. *)
Theorem incomplete_input_is_buffered fuel data (c : Conn) reader reader' buf :
  py_bool data = true →
  _receive_buffer_closed c = false →
  their_state c ≠ ERROR → their_state c ≠ DONE →
  their_state c ≠ MIGHT_SWITCH_PROTOCOL → their_state c ≠ SWITCHED_PROTOCOL →
  _reader c = Some reader →
  call_reader reader (_receive_buffer c ++ data)%string
  = (inr None, reader', buf) →
  rb_len buf <= _max_buffer_size c →
  receive_data READERS WRITERS (S fuel) (Some data) c
  = Some (inr [], set_receive_buffer buf (set_reader (Some reader') c)).
Proof.
  intros Hd Hcl He Hdone Hm Hsw Hrd Hcall Hlen.
  set (c1 := set_receive_buffer (rb_append (_receive_buffer c) data) c).
  set (c2 := set_receive_buffer buf (set_reader (Some reader') c)).
  assert (receive_data_update_buffer (Some data) c = (inr (), c1)) as Hu.
  { unfold receive_data_update_buffer. unfold_M. by rewrite Hd, Hcl. }
  assert (receive_data_loop READERS WRITERS (S fuel) [] c1 = Some (inr [], c2))
    as Hl.
  { simpl. unfold _next_receive_event. unfold_M.
    assert (their_state c1 = their_state c) as -> by (by destruct c).
    rewrite !bool_decide_eq_false_2 by done. simpl.
    unfold rb_append. rewrite Hrd, Hcall, Hcl, andb_false_r.
    subst c1 c2. by destruct c. }
  rewrite (receive_data_after_loop READERS WRITERS (S fuel) (Some data) c c1 c2
             [] He Hu Hl).
  assert ((_max_buffer_size c2 <? rb_len (_receive_buffer c2)) = false) as ->.
  { apply Z.ltb_ge. subst c2. by destruct c. }
  assert (_receive_buffer_closed c2 = false) as -> by (subst c2; by destruct c).
  reflexivity.
Qed.

(** ** After an error *)

Lemma prepare_to_reuse_in_ERROR (c : Conn) role :
  state_of c role = ERROR →
  prepare_to_reuse READERS WRITERS c
  = (inl (ProtocolError "not in a reusable state" None), c).
Proof.
  intros Herr. unfold prepare_to_reuse, cstate_prepare_to_reuse. unfold_M.
  rewrite bool_decide_eq_false_2; [done|].
  intros Hs. unfold state_of in Herr. rewrite Hs in Herr. by destruct role.
Qed.

Lemma receive_data_in_ERROR fuel data (c : Conn) :
  their_state c = ERROR →
  receive_data READERS WRITERS fuel data c
  = Some (inl (ProtocolError "Can't receive data when peer state is ERROR" None),
          c).
Proof. intros Herr. unfold receive_data. by rewrite bool_decide_eq_true_2. Qed.

Lemma send_in_ERROR event (c : Conn) :
  our_state c = ERROR →
  send_with_data_passthrough READERS WRITERS event c
  = (inl (ProtocolError "Can't send data when our state is ERROR" None), c).
Proof.
  intros Herr. unfold send_with_data_passthrough. unfold_M.
  by rewrite bool_decide_eq_true_2.
Qed.

Lemma send_raises_in_ERROR event (c : Conn) e c' :
  send_with_data_passthrough READERS WRITERS event c = (inl e, c') →
  our_state c' = ERROR.
Proof.
  intros Hs.
  apply send_raises in Hs as [(Hs & -> & _)|(_ & c1 & _ & ->)]; [done|].
  pose proof (process_error_conn READERS WRITERS (our_role c1) c1)
    as (_ & He & _).
  unfold our_state. by rewrite process_error_conn_roles.
Qed.

(** Calls that all fail at once on a connection in which [role] is in
    [ERROR]. *)
Lemma calls_in_ERROR (c : Conn) role (allowed : Call → bool) ops :
  state_of c role = ERROR →
  (∀ op, allowed op = true →
         ∃ msg hint, call READERS WRITERS op c
                     = Some (Some (ProtocolError msg hint), c)) →
  Forall (λ op, allowed op = true) ops →
  ∃ errors,
    calls READERS WRITERS ops c = Some (errors, c)
    ∧ List.length errors = List.length ops
    ∧ Forall (λ e, ∃ msg hint, e = Some (ProtocolError msg hint)) errors.
Proof.
  intros Herr Hfail Hops.
  induction Hops as [|op ops Hop Hops (errors & Hcalls & Hlen & Hall)].
  - exists []. by repeat split.
  - destruct (Hfail op Hop) as (msg & hint & Hcall).
    exists (Some (ProtocolError msg hint) :: errors). simpl.
    rewrite Hcall, Hcalls. split; [done|]. split; [by rewrite Hlen|].
    constructor; [by eexists _, _|done].
Qed.

(** X12.  After [receive_data] has raised, further calls made one after the
    other on the connection it left all fail at once with a protocol error
    and change nothing, however many are made, as long as each is a call of
    [receive_data] or [prepare_to_reuse]: a [receive_data] call fails at the
    entry check.  Likewise after [send_with_data_passthrough] has raised,
    for calls of [send_with_data_passthrough] and [prepare_to_reuse].
    (A call in the other direction is not covered: it can change the
    states again.) *)
Theorem calls_after_an_error_fail (c : Conn) :
  (∀ fuel data e c' ops,
     receive_data READERS WRITERS fuel data c = Some (inl e, c') →
     Forall (λ op, negb (is_Send op) = true) ops →
     (∀ fuel' data',
        receive_data READERS WRITERS fuel' data' c'
        = Some (inl (ProtocolError
                       "Can't receive data when peer state is ERROR" None), c'))
     ∧ ∃ errors,
         calls READERS WRITERS ops c' = Some (errors, c')
         ∧ List.length errors = List.length ops
         ∧ Forall (λ e, ∃ msg hint, e = Some (ProtocolError msg hint)) errors)
  ∧ (∀ event e c' ops,
       send_with_data_passthrough READERS WRITERS event c = (inl e, c') →
       Forall (λ op, negb (is_ReceiveData op) = true) ops →
       (∀ event',
          send_with_data_passthrough READERS WRITERS event' c'
          = (inl (ProtocolError "Can't send data when our state is ERROR" None),
             c'))
       ∧ ∃ errors,
           calls READERS WRITERS ops c' = Some (errors, c')
           ∧ List.length errors = List.length ops
           ∧ Forall (λ e, ∃ msg hint, e = Some (ProtocolError msg hint)) errors).
Proof.
  split.
  - intros fuel data e c' ops Hr Hops.
    apply receive_data_raises_in_ERROR in Hr.
    split; [intros fuel' data'; by apply receive_data_in_ERROR|].
    apply (calls_in_ERROR c' (their_role c') (λ op, negb (is_Send op)));
      [exact Hr| |exact Hops].
    intros [fuel' data'|event'|] Hop; [|done|]; simpl.
    + rewrite (receive_data_in_ERROR fuel' data' c' Hr). by eexists _, _.
    + rewrite (prepare_to_reuse_in_ERROR c' (their_role c') Hr). by eexists _, _.
  - intros event e c' ops Hs Hops.
    apply send_raises_in_ERROR in Hs.
    split; [intros event'; by apply send_in_ERROR|].
    apply (calls_in_ERROR c' (our_role c') (λ op, negb (is_ReceiveData op)));
      [exact Hs| |exact Hops].
    intros [fuel' data'|event'|] Hop; [done| |]; simpl.
    + rewrite (send_in_ERROR event' c' Hs). by eexists _, _.
    + rewrite (prepare_to_reuse_in_ERROR c' (our_role c') Hs). by eexists _, _.
Qed.

(** ** The cleanup of response headers *)

Lemma other_headers_set_comma_header (headers : Headers) name values :
  is_framing_header (name, "") = true →
  (∀ entry, is_framing_header entry = false → has_other_name name entry) →
  other_headers (set_comma_header headers name values) = other_headers headers.
Proof.
  intros Hname Hother. unfold other_headers, set_comma_header.
  rewrite filter_app.
  assert (filter (λ entry, is_framing_header entry = false)
            ((λ v, (name, v)) <$> values) = []) as ->.
  { induction values as [|v values IH]; [done|].
    rewrite fmap_cons, filter_cons_False; [exact IH|].
    unfold is_framing_header in *. simpl in *. by rewrite Hname. }
  rewrite app_nil_r.
  induction headers as [|entry headers IH]; [done|].
  rewrite (filter_cons (has_other_name name)).
  destruct (decide (has_other_name name entry)) as [Hy|Hn].
  - rewrite !filter_cons. by rewrite IH.
  - rewrite IH. rewrite filter_cons_False; [done|].
    intros Hf. by apply Hn, Hother.
Qed.

Lemma other_headers_set_framing_header (headers : Headers) name values :
  name = "Content-Length" ∨ name = "Transfer-Encoding" ∨ name = "Connection" →
  other_headers (set_comma_header headers name values) = other_headers headers.
Proof.
  intros Hname. apply other_headers_set_comma_header.
  - by destruct Hname as [-> | [-> | ->]].
  - intros entry. unfold is_framing_header, has_other_name.
    rewrite !orb_false_iff. intros [[H1 H2] H3].
    by destruct Hname as [-> | [-> | ->]].
Qed.

(** X13.  The cleanup of a response before it is sent touches nothing but
    the Content-Length, Transfer-Encoding and Connection headers: the
    status code, the HTTP version and the connection are unchanged, and the
    headers with other names are kept, in their order.  A response whose
    body has a known length, on a connection that is kept alive, is sent
    with its headers exactly as given. *)
Theorem cleanup_touches_only_framing_headers (c : Conn)
    status_code headers http_version event' c' :
  _clean_up_response_headers_for_sending
    (Response status_code headers http_version) c = (inr event', c') →
  ∃ headers',
    event' = Response status_code headers' http_version ∧ c' = c
    ∧ other_headers headers' = other_headers headers
    ∧ (∀ n, _body_framing (_request_method c)
              (Some (Response status_code headers http_version))
            = inr (content_length n) →
            keep_alive (_cstate c) = true → headers' = headers).
Proof.
  unfold _clean_up_response_headers_for_sending.
  destruct (_body_framing _ _) as [e|framing]; [done|].
  assert (∀ h : Headers,
            other_headers
              (set_comma_header h "Connection"
                 (py_sorted (elements
                    ((list_to_set (get_comma_header h "Connection") : gset bytes)
                       ∖ {["keep-alive"]} ∪ {["close"]}))))
            = other_headers h) as Hconn.
  { intros h. apply other_headers_set_framing_header. auto. }
  destruct framing as [n| |].
  - destruct (keep_alive (_cstate c)); simpl; intros [= <- <-];
      eexists; (split; [reflexivity|split; [reflexivity|split]]);
      [done|by intros ? [= <-] _|by rewrite Hconn|done].
  - destruct (match their_http_version c with
              | Some v => bytes_ltb v "1.1" | None => true end);
      rewrite ?orb_true_r; destruct (keep_alive (_cstate c)); simpl;
      intros [= <- <-];
      eexists; (split; [reflexivity|split; [reflexivity|split; [|done]]]);
      rewrite ?Hconn; rewrite !other_headers_set_framing_header; auto.
  - destruct (match their_http_version c with
              | Some v => bytes_ltb v "1.1" | None => true end);
      rewrite ?orb_true_r; destruct (keep_alive (_cstate c)); simpl;
      intros [= <- <-];
      eexists; (split; [reflexivity|split; [reflexivity|split; [|done]]]);
      rewrite ?Hconn; rewrite !other_headers_set_framing_header; auto.
Qed.

(** ** The codecs follow the state *)

Lemma get_io_object_same_state {T} role event (d : IoDict T) (c c1 : Conn) :
  _cstate c1 = _cstate c → _request_method c1 = _request_method c →
  (_get_io_object role event d c1).1 = (_get_io_object role event d c).1.
Proof.
  intros Hcs Hm. unfold _get_io_object. rewrite Hcs, Hm.
  destruct (bool_decide _); [|done]. by destruct (_body_framing _ _).
Qed.

Lemma respond_to_state_changes_codecs old event (c : Conn) res c' :
  _respond_to_state_changes READERS WRITERS old event c = (res, c') →
  (our_state c = states_get old (our_role c) → _writer c' = _writer c)
  ∧ (their_state c = states_get old (their_role c) → _reader c' = _reader c)
  ∧ (res = inr () → our_state c ≠ states_get old (our_role c) →
     (_get_io_object (our_role c) event WRITERS c).1 = inr (_writer c'))
  ∧ (res = inr () → their_state c ≠ states_get old (their_role c) →
     (_get_io_object (their_role c) event READERS c).1 = inr (_reader c')).
Proof.
  rewrite respond_to_state_changes_unfold. cbv zeta.
  destruct (bool_decide (our_state c ≠ _)) eqn:Ho;
    [apply bool_decide_eq_true in Ho|apply bool_decide_eq_false in Ho].
  - destruct (_get_io_object (our_role c) event WRITERS c) as [[e|w] c1] eqn:E1;
      pose proof E1 as E1'; apply get_io_object_state in E1' as ->.
    { intros [= <- <-]. by repeat split. }
    destruct (bool_decide (their_state c ≠ _)) eqn:Ht;
      [apply bool_decide_eq_true in Ht|apply bool_decide_eq_false in Ht].
    + pose proof (get_io_object_same_state (their_role c) event READERS c
                    (set_writer w c) eq_refl eq_refl) as Hsame.
      destruct (_get_io_object (their_role c) event READERS (set_writer w c))
        as [[e|r] c2] eqn:E2; pose proof E2 as E2';
        apply get_io_object_state in E2' as ->; intros [= <- <-].
      * by repeat split.
      * simpl in Hsame. repeat split; try done.
    + intros [= <- <-]. repeat split; done.
  - apply dec_stable in Ho.
    destruct (bool_decide (their_state c ≠ _)) eqn:Ht;
      [apply bool_decide_eq_true in Ht|apply bool_decide_eq_false in Ht].
    + destruct (_get_io_object (their_role c) event READERS c)
        as [[e|r] c2] eqn:E2; pose proof E2 as E2';
        apply get_io_object_state in E2' as ->; intros [= <- <-].
      * by repeat split.
      * repeat split; try done.
    + intros [= <- <-]. apply dec_stable in Ht. by repeat split.
Qed.

Lemma attribute_updates_codecs role event cs (c : Conn) :
  _writer (attribute_updates role event cs c) = _writer c
  ∧ _reader (attribute_updates role event cs c) = _reader c.
Proof.
  unfold attribute_updates, their_role.
  destruct ((is_Request event || is_Response event) && negb (_keep_alive event));
    destruct event;
    cbn [_cstate set_cstate set_request_method set_their_http_version
         set_client_is_waiting_for_100_continue our_role];
    repeat match goal with
    | |- context [if ?b then _ else _] => destruct b
    end; done.
Qed.

Lemma after_switch_proposals_codecs role event (c : Conn) :
  _writer (after_switch_proposals role event c) = _writer c
  ∧ _reader (after_switch_proposals role event c) = _reader c.
Proof. unfold after_switch_proposals. by destruct (_ && _). Qed.

(** X18.  A codec is looked up again only when the state of its role has
    changed: when an event has gone through [_process_event] (accepted or
    not), the writer is the same object as before if the state of our role
    is the same, and the reader is the same object as before if the state
    of their role is the same.  When the event was accepted and the state
    of a role has changed, the codec of that role is the one that the
    registry gives for the new state (for [SEND_BODY], the codec of the
    body framing of the event). *)
Theorem codecs_follow_the_state role event (c : Conn) res c' :
  _process_event READERS WRITERS role event c = (res, c') →
  (our_state c' = our_state c → _writer c' = _writer c)
  ∧ (their_state c' = their_state c → _reader c' = _reader c)
  ∧ (res = inr () → our_state c' ≠ our_state c →
     (_get_io_object (our_role c') (Some event) WRITERS c').1
     = inr (_writer c'))
  ∧ (res = inr () → their_state c' ≠ their_state c →
     (_get_io_object (their_role c') (Some event) READERS c').1
     = inr (_reader c')).
Proof.
  rewrite process_event_stages. cbv zeta.
  pose proof (after_switch_proposals_untouched role event c) as ([Hrole1 _] & _).
  pose proof (after_switch_proposals_codecs role event c) as [Hw1 Hr1].
  set (c1 := after_switch_proposals role event c) in *.
  destruct (process_event _ _ _ _) as [e|cs].
  { intros [= <- <-]. by repeat split. }
  pose proof (attribute_updates_untouched role event cs c1) as [[Hrole2 _] _].
  pose proof (attribute_updates_codecs role event cs c1) as [Hw2 Hr2].
  set (c2 := attribute_updates role event cs c1) in *.
  intros Hr.
  pose proof (respond_to_state_changes_frame _ _ _ _ _ _ _ Hr) as Hsame.
  apply respond_to_state_changes_codecs in Hr as (Hw & Hrd & Hwn & Hrn).
  assert (our_role c' = our_role c2 ∧ _cstate c' = _cstate c2
          ∧ _request_method c' = _request_method c2) as (Hrole3 & Hcs3 & Hm3)
    by (by destruct Hsame as (w & r & ->)).
  assert (our_role c2 = our_role c) as Hrole by congruence.
  assert (∀ r, state_of c' r = state_of c2 r) as Hst
    by (intros r; unfold state_of; by rewrite Hcs3).
  unfold our_state, their_state, their_role in *.
  rewrite Hrole3, !Hst, Hrole in *.
  fold (state_of c (our_role c)) in Hw, Hwn.
  fold (state_of c (other_role (our_role c))) in Hrd, Hrn.
  split; [|split; [|split]].
  - intros Heq. rewrite (Hw Heq). congruence.
  - intros Heq. rewrite (Hrd Heq). congruence.
  - intros Hres Hne. rewrite <- (Hwn Hres Hne).
    by apply get_io_object_same_state.
  - intros Hres Hne. rewrite <- (Hrn Hres Hne).
    by apply get_io_object_same_state.
Qed.

(** X19.  After [prepare_to_reuse] has returned, the writer and the reader
    are the codecs of a new connection with the same role. *)
Theorem prepare_to_reuse_resets_the_codecs (c : Conn) c' :
  prepare_to_reuse READERS WRITERS c = (inr (), c') →
  let new := Connection__init__ READERS WRITERS (our_role c) (_max_buffer_size c) in
  _writer c' = _writer new ∧ _reader c' = _reader new.
Proof.
  unfold prepare_to_reuse, cstate_prepare_to_reuse. unfold_M.
  destruct (bool_decide (states (_cstate c) = mkStates DONE DONE)
            && keep_alive (_cstate c)) eqn:Hb; [|done].
  apply andb_true_iff in Hb as [Hs _]. apply bool_decide_eq_true in Hs.
  destruct (client_is_waiting_for_100_continue c); simpl; [done|].
  set (c1 := set_request_method None
               (set_cstate (with_states (_cstate c) (mkStates IDLE IDLE)) c)).
  assert (Hidle : ∀ role, state_of c1 role = IDLE) by by intros [].
  assert (Hdone : ∀ role, states_get (states (_cstate c)) role = DONE)
    by (intros []; by rewrite Hs).
  intros Hr. apply respond_to_state_changes_codecs in Hr as (_ & _ & Hw & Hrd).
  unfold our_state, their_state in *. rewrite !Hidle, !Hdone in *.
  specialize (Hw eq_refl ltac:(done)). specialize (Hrd eq_refl ltac:(done)).
  rewrite get_io_object_not_body in Hw by (by rewrite Hidle).
  rewrite get_io_object_not_body in Hrd by (by rewrite Hidle).
  rewrite Hidle in *. simpl in *. by simplify_eq.
Qed.

(** ** Keep-alive over whole calls *)

Lemma process_event_keep_alive_after role event (c : Conn) res c' :
  _process_event READERS WRITERS role event c = (res, c') →
  (keep_alive (_cstate c') = true → keep_alive (_cstate c) = true)
  ∧ (res = inr () →
     keep_alive (_cstate c')
     = keep_alive (_cstate c) && negb (disables_keep_alive event)).
Proof.
  rewrite process_event_stages. cbv zeta.
  pose proof (after_switch_proposals_keep_alive role event c) as Hk1.
  set (c1 := after_switch_proposals role event c) in *.
  destruct (process_event _ _ _ _) as [e|cs] eqn:Hpe.
  { intros [= <- <-]. split; [by rewrite Hk1|done]. }
  apply process_event_keep_alive in Hpe.
  intros Hr. apply respond_to_state_changes_frame, same_but_codecs_cstate in Hr.
  rewrite Hr, attribute_updates_keep_alive, Hpe, Hk1.
  unfold disables_keep_alive. split; [|done].
  by intros [? _]%andb_true_iff.
Qed.

Lemma process_error_keep_alive_conn role (c : Conn) :
  keep_alive (_cstate (_process_error READERS WRITERS role c).2)
  = keep_alive (_cstate c).
Proof.
  pose proof (process_error_conn READERS WRITERS role c) as (_ & _ & _ & Hs).
  apply same_but_codecs_cstate in Hs. by rewrite Hs.
Qed.

Lemma receive_data_loop_keep_alive fuel acc (c : Conn) res c' :
  receive_data_loop READERS WRITERS fuel acc c = Some (res, c') →
  (keep_alive (_cstate c') = true → keep_alive (_cstate c) = true)
  ∧ (∀ events, res = inr events →
       ∃ new, events = acc ++ new
         ∧ keep_alive (_cstate c')
           = keep_alive (_cstate c)
             && forallb (λ e, negb (disables_keep_alive e)) new).
Proof.
  revert acc c. induction fuel as [|fuel IH]; intros acc c; [done|].
  simpl. destruct (_next_receive_event c) as [[e|[event|]] c1] eqn:Hn;
    apply next_receive_event_frame in Hn as [Hcs _]; intros Hl.
  - simplify_eq. by rewrite Hcs.
  - destruct (is_Paused event) eqn:Hp.
    { simplify_eq. rewrite Hcs. split; [done|]. intros events [= <-].
      exists [event]. split; [done|]. simpl.
      assert (disables_keep_alive event = false) as -> by (by destruct event).
      by rewrite !andb_true_r. }
    destruct (_process_event _ _ _ _ _) as [[e|[]] c2] eqn:Hpe;
      apply process_event_keep_alive_after in Hpe as [Hmono Hafter];
      rewrite Hcs in *.
    + by simplify_eq.
    + specialize (Hafter eq_refl).
      destruct (is_ConnectionClosed event) eqn:Hcc.
      { simplify_eq. split; [done|]. intros events [= <-].
        exists [event]. split; [done|]. simpl. by rewrite andb_true_r. }
      apply IH in Hl as [Hmono' Hafter']. split; [by auto|].
      intros events ->. destruct (Hafter' events eq_refl) as (new & -> & Hk).
      exists (event :: new). split; [by rewrite <- app_assoc|].
      simpl. by rewrite Hk, Hafter, andb_assoc.
  - simplify_eq. rewrite Hcs. split; [done|]. intros events [= <-].
    exists []. rewrite app_nil_r. simpl. by rewrite andb_true_r.
Qed.

Lemma receive_data_keep_alive fuel data (c : Conn) res c' :
  receive_data READERS WRITERS fuel data c = Some (res, c') →
  (keep_alive (_cstate c') = true → keep_alive (_cstate c) = true)
  ∧ (∀ events, res = inr events →
       keep_alive (_cstate c')
       = keep_alive (_cstate c)
         && forallb (λ e, negb (disables_keep_alive e)) events).
Proof.
  intros Hr. split.
  - revert Hr. unfold receive_data.
    destruct (bool_decide _); [by intros [= _ <-]|].
    assert (∀ r1 c1,
              receive_data_try READERS WRITERS fuel data c = Some (r1, c1) →
              keep_alive (_cstate c1) = true → keep_alive (_cstate c) = true)
      as Htry.
    { unfold receive_data_try. intros r1 c1.
      destruct (receive_data_update_buffer data c) as [[e|[]] c0] eqn:Hu;
        apply update_buffer_frame in Hu as [Hcs _].
      - intros [= _ <-]. by rewrite Hcs.
      - destruct (receive_data_loop _ _ _ _ _) as [[[e|events] c2]|] eqn:Hl;
          [| |done]; apply receive_data_loop_keep_alive in Hl as [Hmono _];
          rewrite Hcs in Hmono.
        + by intros [= _ <-].
        + unfold receive_data_finish. unfold_M.
          rewrite set_receive_buffer_compress.
          destruct (ends_with_Paused events); simpl;
            repeat match goal with
            | |- context [if ?b then _ else _] => destruct b; simpl
            end; by intros [= _ <-]. }
    destruct (receive_data_try _ _ _ _ _) as [[[e|events] c1]|] eqn:Ht;
      [| |done].
    + pose proof (process_error_keep_alive_conn (their_role c1) c1) as Hk.
      destruct (_process_error _ _ _ _) as [[?|?] c2]; simpl in Hk;
        intros [= _ <-]; rewrite Hk; by eapply Htry.
    + intros [= _ <-]. by eapply Htry.
  - intros events ->. apply receive_data_returns in Hr as (_ & c1 & Hu & Hl).
    apply update_buffer_frame in Hu as [Hcs _].
    apply receive_data_loop_keep_alive in Hl as [_ Hafter].
    destruct (Hafter events eq_refl) as (new & -> & Hk).
    by rewrite Hk, Hcs.
Qed.

Lemma send_event_keep_alive event (c : Conn) res c' :
  send_event READERS WRITERS event c = (res, c') →
  (keep_alive (_cstate c') = true → keep_alive (_cstate c) = true)
  ∧ (∀ r, res = inr r →
       keep_alive (_cstate c')
       = keep_alive (_cstate c) && negb (disables_keep_alive event)).
Proof.
  unfold send_event. unfold_M. intros Hs.
  destruct (_process_event _ _ _ _ _) as [[e|[]] c1] eqn:Hpe;
    apply process_event_keep_alive_after in Hpe as [Hmono Hafter];
    [by simplify_eq|].
  specialize (Hafter eq_refl).
  destruct (is_ConnectionClosed event); [by simplify_eq|].
  destruct (_writer c) as [w|]; [|by simplify_eq].
  destruct (call_writer w event) as [result w'].
  destruct (bool_decide _), result; simpl in Hs; by simplify_eq.
Qed.

Lemma send_keep_alive event (c : Conn) res c' :
  send_with_data_passthrough READERS WRITERS event c = (res, c') →
  keep_alive (_cstate c') = true → keep_alive (_cstate c) = true.
Proof.
  unfold send_with_data_passthrough. unfold_M.
  destruct (bool_decide _); [by intros [= _ <-]|].
  assert (∀ r1 c1, send_try READERS WRITERS event c = (r1, c1) →
            keep_alive (_cstate c1) = true → keep_alive (_cstate c) = true)
    as Htry.
  { unfold send_try. unfold_M. intros r1 c1. destruct (is_Response event).
    - destruct (_clean_up_response_headers_for_sending event c)
        as [[e|event'] c0] eqn:Hc; apply clean_up_connection in Hc as ->.
      + by intros [= _ <-].
      + intros Hs. by apply send_event_keep_alive in Hs as [? _].
    - intros Hs. by apply send_event_keep_alive in Hs as [? _]. }
  destruct (send_try _ _ _ _) as [[e|d] c1] eqn:Ht.
  - pose proof (process_error_keep_alive_conn (our_role c1) c1) as Hk.
    destruct (_process_error _ _ _ _) as [[?|?] c2]; simpl in Hk;
      intros [= _ <-]; rewrite Hk; by eapply Htry.
  - intros [= _ <-]. by eapply Htry.
Qed.

Lemma prepare_to_reuse_keep_alive (c : Conn) res c' :
  prepare_to_reuse READERS WRITERS c = (res, c') →
  keep_alive (_cstate c') = keep_alive (_cstate c).
Proof.
  unfold prepare_to_reuse. unfold_M.
  destruct (cstate_prepare_to_reuse (_cstate c)) as [e|cs] eqn:Hp;
    [by intros [= _ <-]|].
  apply cstate_prepare_to_reuse_keep_alive in Hp.
  destruct (client_is_waiting_for_100_continue c); simpl;
    [by intros [= _ <-]|].
  intros Hr. apply respond_to_state_changes_frame, same_but_codecs_cstate in Hr.
  by rewrite Hr.
Qed.

(** X20.  Keep-alive never comes back: if [keep_alive] is true after a call
    of [send_with_data_passthrough], [receive_data] or [prepare_to_reuse],
    whether the call returned or raised, it was true before the call.
    When [receive_data] returns, [keep_alive] is false exactly if it was
    false before or one of the returned events is a Request or Response
    that asks to close. *)
Theorem keep_alive_never_comes_back (c : Conn) :
  (∀ event res c',
     send_with_data_passthrough READERS WRITERS event c = (res, c') →
     keep_alive (_cstate c') = true → keep_alive (_cstate c) = true)
  ∧ (∀ fuel data res c',
       receive_data READERS WRITERS fuel data c = Some (res, c') →
       keep_alive (_cstate c') = true → keep_alive (_cstate c) = true)
  ∧ (∀ res c',
       prepare_to_reuse READERS WRITERS c = (res, c') →
       keep_alive (_cstate c') = true → keep_alive (_cstate c) = true)
  ∧ (∀ fuel data events c',
       receive_data READERS WRITERS fuel data c = Some (inr events, c') →
       keep_alive (_cstate c')
       = keep_alive (_cstate c)
         && forallb (λ e, negb (disables_keep_alive e)) events).
Proof.
  split; [|split; [|split]].
  - intros event res c'. apply send_keep_alive.
  - intros fuel data res c' Hr. by apply receive_data_keep_alive in Hr as [? _].
  - intros res c' Hp. apply prepare_to_reuse_keep_alive in Hp. by rewrite Hp.
  - intros fuel data events c' Hr.
    apply receive_data_keep_alive in Hr as [_ H]. by apply H.
Qed.

End WholeCalls.

(** ** The framing of requests *)

(** X14.  The body of a request is never framed by the end of the
    connection: [_body_framing] gives a request chunked framing or a
    content length (zero when no header says otherwise), or fails; and the
    decision does not depend on the request method that the connection
    remembers. *)
Theorem requests_are_never_read_until_close
    (m : option bytes) method target headers http_version :
  let request := Request method target headers http_version in
  _body_framing m (Some request) = _body_framing None (Some request)
  ∧ (∀ framing, _body_framing m (Some request) = inr framing →
       framing = chunked ∨ ∃ n, framing = content_length n)
  ∧ (get_comma_header headers "Transfer-Encoding" = [] →
     get_comma_header headers "Content-Length" = [] →
     _body_framing m (Some request) = inr (content_length 0)).
Proof.
  intros request. subst request. unfold _body_framing.
  split; [reflexivity|]. split.
  - intros framing.
    destruct (get_comma_header headers "Transfer-Encoding") as [|te tes].
    + destruct (get_comma_header headers "Content-Length") as [|c0 cls].
      * intros [= <-]. right. by exists 0.
      * destruct (py_int c0) as [n|]; [|done]. intros [= <-]. right. by exists n.
    + case_bool_decide; [|done]. intros [= <-]. by left.
  - by intros -> ->.
Qed.

(** ** The test helper [normalize_data_events] *)

Lemma no_adjacent_data_snoc (l : list Event) x :
  no_adjacent_data (l ++ [x])
  = no_adjacent_data l
    && negb (match last l with
             | Some y => is_Data y && is_Data x
             | None => false
             end).
Proof.
  induction l as [|a l IH]; [done|].
  destruct l as [|b l].
  - simpl. by rewrite andb_true_r.
  - change (no_adjacent_data ((a :: b :: l) ++ [x]))
      with (negb (is_Data a && is_Data b) && no_adjacent_data ((b :: l) ++ [x])).
    rewrite IH.
    change (no_adjacent_data (a :: b :: l))
      with (negb (is_Data a && is_Data b) && no_adjacent_data (b :: l)).
    change (last (a :: b :: l)) with (last (b :: l)).
    by rewrite andb_assoc.
Qed.

Lemma no_adjacent_data_middle (l1 l2 : list Event) a b :
  no_adjacent_data (l1 ++ a :: b :: l2) = true →
  (is_Data a && is_Data b) = false.
Proof.
  induction l1 as [|x l1 IH].
  - simpl. intros [H _]%andb_true_iff. by apply negb_true_iff.
  - destruct l1 as [|y l1].
    + simpl. intros [_ H]%andb_true_iff. by apply IH.
    + change (no_adjacent_data ((x :: y :: l1) ++ a :: b :: l2))
        with (negb (is_Data x && is_Data y)
              && no_adjacent_data ((y :: l1) ++ a :: b :: l2)).
      intros [_ H]%andb_true_iff. by apply IH.
Qed.

Lemma list_ascii_of_string_app (a b : string) :
  list_ascii_of_string (a ++ b) = list_ascii_of_string a ++ list_ascii_of_string b.
Proof.
  induction a as [|x a IH]; [reflexivity|].
  change (x :: list_ascii_of_string (a ++ b)
          = x :: (list_ascii_of_string a ++ list_ascii_of_string b)).
  by f_equal.
Qed.

Lemma stream_of_app (l1 l2 : list Event) :
  stream_of (l1 ++ l2) = stream_of l1 ++ stream_of l2.
Proof. unfold stream_of. apply flat_map_app. Qed.

Lemma stream_of_merged (d0 d : bytes) :
  stream_of [Data (d0 ++ d)%string] = stream_of [Data d0] ++ stream_of [Data d].
Proof.
  unfold stream_of. simpl. rewrite !app_nil_r, list_ascii_of_string_app.
  by rewrite fmap_app.
Qed.

Lemma refers_to_insert_ne (store : gmap positive Event) refs events l x :
  l ∉ refs → refers_to store refs events →
  refers_to (<[l := x]> store) refs events.
Proof.
  intros Hl H. induction H as [|l' e refs events Hl' H IH]; [constructor|].
  apply not_elem_of_cons in Hl as [Hne Hl].
  constructor; [|by apply IH]. by rewrite lookup_insert_ne.
Qed.

Lemma refers_to_snoc (store : gmap positive Event) refs events l e :
  refers_to store refs events → store !! l = Some e →
  refers_to store (refs ++ [l]) (events ++ [e]).
Proof.
  intros H Hl. apply Forall2_app; [done|]. by constructor.
Qed.

(** The loop of [normalize_data_events], run on references to distinct
    objects. *)
Lemma normalize_data_events_loop_spec in_events :
  ∀ out store outs ins,
    NoDup (out ++ in_events) →
    refers_to store out outs → refers_to store in_events ins →
    no_adjacent_data outs = true →
    ∃ out' store' outs',
      normalize_data_events_loop in_events out store = Some (out', store')
      ∧ refers_to store' out' outs'
      ∧ no_adjacent_data outs' = true
      ∧ stream_of outs' = stream_of (outs ++ ins)
      ∧ (∀ l, l ∉ out ++ in_events → store' !! l = store !! l).
Proof.
  induction in_events as [|event rest IH];
    intros out store outs ins Hnd Hout Hin Hadj.
  { apply Forall2_nil_inv_l in Hin as ->. exists out, store, outs.
    by rewrite app_nil_r. }
  apply Forall2_cons_inv_l in Hin as (e & ins' & He & Hrest & ->).
  assert (∀ outs1,
            refers_to store out outs1 → no_adjacent_data (outs1 ++ [e]) = true →
            stream_of (outs1 ++ e :: ins') = stream_of (outs ++ e :: ins') →
            ∃ out' store' outs',
              normalize_data_events_loop rest (out ++ [event]) store
              = Some (out', store')
              ∧ refers_to store' out' outs'
              ∧ no_adjacent_data outs' = true
              ∧ stream_of outs' = stream_of (outs ++ e :: ins')
              ∧ (∀ l, l ∉ out ++ event :: rest → store' !! l = store !! l))
    as Happend.
  { intros outs1 Hout1 Hadj1 Hs1.
    destruct (IH (out ++ [event]) store (outs1 ++ [e]) ins')
      as (out' & store' & outs' & Hloop & Hrefs & Hadj' & Hstream & Hframe).
    - by rewrite <- app_assoc.
    - by apply refers_to_snoc.
    - done.
    - done.
    - exists out', store', outs'. repeat split; try done.
      + by rewrite Hstream, <- app_assoc.
      + intros l Hl. apply Hframe. by rewrite <- app_assoc. }
  simpl. rewrite He.
  destruct (last out) as [l|] eqn:Hlast.
  2: { apply (Happend outs); [done| |done].
       apply last_None in Hlast as ->. by apply Forall2_nil_inv_l in Hout as ->. }
  apply last_Some in Hlast as [out0 ->].
  apply Forall2_app_inv_l in Hout as (outs0 & k & Hout0 & Hk & ->).
  apply Forall2_cons_inv_l in Hk as (e0 & k' & Hl & Hnil & ->).
  apply Forall2_nil_inv_l in Hnil as ->.
  rewrite Hl.
  assert ((is_Data e0 && is_Data e) = false →
          ∃ out' store' outs',
            normalize_data_events_loop rest ((out0 ++ [l]) ++ [event]) store
            = Some (out', store')
            ∧ refers_to store' out' outs'
            ∧ no_adjacent_data outs' = true
            ∧ stream_of outs' = stream_of ((outs0 ++ [e0]) ++ e :: ins')
            ∧ (∀ l', l' ∉ (out0 ++ [l]) ++ event :: rest →
                     store' !! l' = store !! l')) as Hother.
  { intros Hboth. apply (Happend (outs0 ++ [e0])); [|by
      rewrite no_adjacent_data_snoc, Hadj, last_snoc, Hboth|done].
    by apply refers_to_snoc. }
  destruct e0; try (by apply Hother); destruct e; try (by apply Hother).
  clear Hother Happend.
  (* both are Data: the payload is added to the last event of the output *)
  rename data into d0. rename data0 into d.
  assert ((l ∉ out0) ∧ (l ∉ rest) ∧ NoDup ((out0 ++ [l]) ++ rest))
    as (Hl0 & Hlr & Hnd').
  { rewrite <- app_assoc in Hnd. apply NoDup_app in Hnd as (Hn0 & Hdisj & Hn1).
    simpl in Hn1. apply NoDup_cons in Hn1 as [Hl1 Hn1].
    apply NoDup_cons in Hn1 as [He1 Hn1].
    split; [|split].
    - intros Hin. apply (Hdisj l Hin). by left.
    - intros Hin. apply Hl1. by right.
    - rewrite <- app_assoc. apply NoDup_app. split; [done|]. split.
      + intros x Hx Hx'. apply (Hdisj x Hx).
        apply elem_of_cons in Hx' as [-> | Hx']; [by left|by right; right].
      + simpl. apply NoDup_cons. split; [|done].
        intros Hin. apply Hl1. by right. }
  destruct (IH (out0 ++ [l]) (<[l := Data (d0 ++ d)%string]> store)
              (outs0 ++ [Data (d0 ++ d)%string]) ins')
    as (out' & store' & outs' & Hloop & Hrefs & Hadj' & Hstream & Hframe).
  - done.
  - apply refers_to_snoc; [by apply refers_to_insert_ne|].
    by rewrite lookup_insert_eq.
  - by apply refers_to_insert_ne.
  - rewrite no_adjacent_data_snoc in Hadj |- *. exact Hadj.
  - exists out', store', outs'. repeat split; try done.
    + rewrite Hstream. rewrite !stream_of_app, stream_of_merged.
      change (Data d :: ins') with ([Data d] ++ ins').
      by rewrite !stream_of_app, !app_assoc.
    + intros l' Hl'. rewrite Hframe.
      * apply lookup_insert_ne. intros ->. apply Hl'.
        apply elem_of_app. left. apply elem_of_app. right. by left.
      * intros Hin. apply Hl'.
        apply elem_of_app in Hin as [Hin|Hin];
          apply elem_of_app; [by left|by right; right].
Qed.

(** A list without neighbouring [Data] events goes through unchanged. *)
Lemma normalize_data_events_loop_fixed refs :
  ∀ out store outs events,
    refers_to store out outs → refers_to store refs events →
    no_adjacent_data (outs ++ events) = true →
    normalize_data_events_loop refs out store = Some (out ++ refs, store).
Proof.
  induction refs as [|event rest IH]; intros out store outs events Hout Hin Hadj.
  { by rewrite app_nil_r. }
  apply Forall2_cons_inv_l in Hin as (e & events' & He & Hrest & ->).
  assert (normalize_data_events_loop rest (out ++ [event]) store
          = Some (out ++ event :: rest, store)) as Happend.
  { rewrite (IH (out ++ [event]) store (outs ++ [e]) events').
    - by rewrite <- app_assoc.
    - by apply refers_to_snoc.
    - done.
    - by rewrite <- app_assoc. }
  simpl. rewrite He.
  destruct (last out) as [l|] eqn:Hlast; [|done].
  apply last_Some in Hlast as [out0 ->].
  apply Forall2_app_inv_l in Hout as (outs0 & k & Hout0 & Hk & ->).
  apply Forall2_cons_inv_l in Hk as (e0 & k' & Hl & Hnil & ->).
  apply Forall2_nil_inv_l in Hnil as ->.
  rewrite Hl.
  assert ((is_Data e0 && is_Data e) = false) as Hboth.
  { rewrite <- app_assoc in Hadj. by apply no_adjacent_data_middle in Hadj. }
  destruct e0; try done; destruct e; try done.
Qed.

Lemma normalize_data_events_spec in_events store ins :
  NoDup in_events → refers_to store in_events ins →
  ∃ out store' outs,
    normalize_data_events in_events store = Some (out, store')
    ∧ refers_to store' out outs
    ∧ no_adjacent_data outs = true
    ∧ stream_of outs = stream_of ins
    ∧ (∀ l, l ∉ in_events → store' !! l = store !! l).
Proof.
  intros Hnd Hin.
  apply (normalize_data_events_loop_spec in_events [] store [] ins);
    [done|constructor|done|done].
Qed.

(** X15.  Given references to distinct event objects,
    [normalize_data_events] returns a list in which no two neighbours are
    both [Data] events. *)
Theorem normalize_data_events_merges_neighbours in_events store ins :
  NoDup in_events → refers_to store in_events ins →
  ∃ out store' outs,
    normalize_data_events in_events store = Some (out, store')
    ∧ refers_to store' out outs
    ∧ no_adjacent_data outs = true.
Proof.
  intros Hnd Hin.
  destruct (normalize_data_events_spec in_events store ins Hnd Hin)
    as (out & store' & outs & Hloop & Hrefs & Hadj & _).
  by exists out, store', outs.
Qed.

(** X16.  Given references to distinct event objects,
    [normalize_data_events] returns events that stand for the same stream
    as the events it was given: the same payload bytes and the same other
    events, in the same order.  Objects that are not in the list are left
    alone. *)
Theorem normalize_data_events_keeps_the_stream in_events store ins :
  NoDup in_events → refers_to store in_events ins →
  ∃ out store' outs,
    normalize_data_events in_events store = Some (out, store')
    ∧ refers_to store' out outs
    ∧ stream_of outs = stream_of ins
    ∧ (∀ l, l ∉ in_events → store' !! l = store !! l).
Proof.
  intros Hnd Hin.
  destruct (normalize_data_events_spec in_events store ins Hnd Hin)
    as (out & store' & outs & Hloop & Hrefs & _ & Hstream & Hframe).
  by exists out, store', outs.
Qed.

(** X17.  Normalizing twice is normalizing once: run on its own result,
    [normalize_data_events] returns the same list and changes no object. *)
Theorem normalize_data_events_twice in_events store ins out store' :
  NoDup in_events → refers_to store in_events ins →
  normalize_data_events in_events store = Some (out, store') →
  normalize_data_events out store' = Some (out, store').
Proof.
  intros Hnd Hin Hn.
  destruct (normalize_data_events_spec in_events store ins Hnd Hin)
    as (out1 & store1 & outs & Hloop & Hrefs & Hadj & _).
  rewrite Hloop in Hn. simplify_eq. unfold normalize_data_events.
  rewrite (normalize_data_events_loop_fixed out [] store' [] outs);
    [done|constructor|done|done].
Qed.

(** * Concrete runs with the example codec *)

Import ExampleCodec.

(** ** The exchanges of the specification *)

(** A GET answered with a five-byte body: both roles end in [DONE] and the
    connection can be kept alive. *)
Example minimal_get_200 :
  do_receive (Some get_request_bytes) (new SERVER)
  = Some (inr [get_request; EndOfMessage []], server_after_get)
  ∧ fst <$> do_receive (Some response_bytes) client_after_get
    = Some (inr [hello_response; Data "hello"; EndOfMessage []])
  ∧ states (_cstate client_after_response) = mkStates DONE DONE
  ∧ states (_cstate server_after_response) = mkStates DONE DONE
  ∧ keep_alive (_cstate client_after_response) = true.
Proof. by vm_compute. Qed.

(** A response that says [Connection: close]: the server ends in
    [MUST_CLOSE] and the connection cannot be reused. *)
Example connection_close_response :
  let c :=
    after_send (EndOfMessage [])
      (after_send (Response 200 [("Connection", "close"); ("Content-Length", "0")]
                     "1.1") server_after_get) in
  states (_cstate c) = mkStates MUST_CLOSE MUST_CLOSE
  ∧ is_ProtocolError
      match (prepare_to_reuse READERS WRITERS c).1 with
      | inl e => e
      | inr _ => AssertionError
      end = true.
Proof. by vm_compute. Qed.

(** A body that lasts until the connection closes: end-of-file yields
    [EndOfMessage] and then [ConnectionClosed]. *)
Example body_until_close :
  fst <$> do_receive (Some "") client_reading_until_close
  = Some (inr [EndOfMessage []; ConnectionClosed]).
Proof. by vm_compute. Qed.

(** An accepted CONNECT: both roles are in [SWITCHED_PROTOCOL] and further
    bytes are only buffered. *)
Example connect_switch :
  states (_cstate server_after_connect)
  = mkStates SWITCHED_PROTOCOL SWITCHED_PROTOCOL
  ∧ fst <$> do_receive (Some "xyz") server_after_connect
    = Some (inr [Paused SWITCHED_PROTOCOL])
  ∧ trailing_data (after_receive (Some "xyz") server_after_connect)
    = ("xyz", false).
Proof. by vm_compute. Qed.

(** ** Instances of the properties *)

Lemma response_headers_cleaned_for_sending_witness :
  ∃ cleaned,
    send_try READERS WRITERS
      (Response 200 [("Connection", "Keep-Alive, Upgrade"); ("Server", "h11")]
         "1.1") ExampleRuns.server_after_old_get
    = send_event READERS WRITERS (Response 200 cleaned "1.1")
        ExampleRuns.server_after_old_get
    ∧ ¬ has_header cleaned "Content-Length"
    ∧ ¬ has_header cleaned "Transfer-Encoding"
    ∧ get_comma_header cleaned "Connection" = ["close"; "upgrade"].
Proof.
  destruct (response_headers_cleaned_for_sending READERS WRITERS
              ExampleRuns.server_after_old_get 200
              [("Connection", "Keep-Alive, Upgrade"); ("Server", "h11")]
              "1.1" http_1_0)
    as (cleaned & Htry & _ & Hunknown & _ & Htokens & _).
  { vm_compute. reflexivity. }
  exists cleaned. destruct (Hunknown (or_intror eq_refl)) as (Hcl & Hold & _).
  assert (peer_is_old ExampleRuns.server_after_old_get) as Hpeer
    by (vm_compute; reflexivity).
  split; [exact Htry|]. split; [exact Hcl|].
  split; [exact (proj1 (Hold Hpeer))|].
  destruct Htokens as [_ ->]; [left; vm_compute; reflexivity|].
  vm_compute. reflexivity.
Defined.

Lemma keep_alive_latched_by_close_or_old_version_witness :
  keep_alive
    (_cstate (_process_event READERS WRITERS SERVER
                (Response 200 [("Connection", "close"); ("Content-Length", "0")]
                   "1.1") server_after_get).2)
  = false.
Proof.
  destruct (keep_alive_latched_by_close_or_old_version READERS WRITERS)
    as [H _].
  destruct (H SERVER
              (Response 200 [("Connection", "close"); ("Content-Length", "0")]
                 "1.1") server_after_get) as (Hok & _).
  apply Hok.
  - vm_compute. reflexivity.
  - right. split; [right; reflexivity|]. left.
    assert (get_comma_header
              (default []
                 (event_headers
                    (Response 200
                       [("Connection", "close"); ("Content-Length", "0")] "1.1")))
              "Connection" = ["close"]) as -> by (vm_compute; reflexivity).
    apply list_elem_of_here.
Defined.

Lemma receive_buffer_limit_witness :
  rb_len (_receive_buffer (after_receive (Some "GET / HT") (new SERVER)))
  <= _max_buffer_size (after_receive (Some "GET / HT") (new SERVER)).
Proof.
  destruct (receive_buffer_limit READERS WRITERS 10 (Some "GET / HT")
              (new SERVER)) as [H _].
  apply (H (after_receive (Some "GET / HT") (new SERVER)) []).
  - vm_compute. reflexivity.
  - reflexivity.
Defined.

Lemma errors_put_the_role_in_ERROR_witness :
  their_state server_after_truncated_request = ERROR.
Proof.
  destruct (errors_put_the_role_in_ERROR READERS WRITERS) as [H _].
  destruct (H 10%nat (Some "") (after_receive (Some "GET / HT") (new SERVER))
              (ProtocolError "peer unexpectedly closed connection" None)
              server_after_truncated_request) as [Hs _].
  - vm_compute. reflexivity.
  - exact Hs.
Defined.

Lemma end_of_file_events_witness :
  (_next_receive_event (fed (Some "") client_reading_until_close)).1
  = inr (Some (EndOfMessage [])).
Proof.
  destruct (end_of_file_events READERS WRITERS
              (fed (Some "") client_reading_until_close)
              Http10Reader Http10Reader "") as [H _].
  - intros [Hs _]. vm_compute in Hs. discriminate Hs.
  - intros Hs. vm_compute in Hs. discriminate Hs.
  - intros Hs. vm_compute in Hs. discriminate Hs.
  - vm_compute. reflexivity.
  - vm_compute. reflexivity.
  - reflexivity.
  - vm_compute. reflexivity.
  - rewrite H. reflexivity.
Defined.

Lemma receive_data_while_paused_witness :
  receive_data READERS WRITERS 1 (Some "xyz") server_after_connect
  = Some (inr [Paused (their_state server_after_connect)],
          fed (Some "xyz") server_after_connect).
Proof.
  destruct (receive_data_while_paused READERS WRITERS 0 (Some "xyz")
              server_after_connect) as [H _].
  - intros Hc. vm_compute in Hc. discriminate Hc.
  - apply H. right. vm_compute. reflexivity.
Defined.

(** C7 as first stated does not hold for every call: once end-of-file was
    recorded, feeding bytes to a connection whose protocol is switched
    raises instead of returning [Paused]. *)
Lemma receive_data_while_paused_after_close :
  their_state (after_receive (Some "") server_after_connect) = SWITCHED_PROTOCOL
  ∧ fst <$> receive_data READERS WRITERS 5 (Some "x")
               (after_receive (Some "") server_after_connect)
    = Some (inl (RuntimeError "received close, then received more data?")).
Proof. by vm_compute. Qed.

Lemma transfer_encoding_must_be_chunked_witness :
  ∃ e c',
    send_with_data_passthrough READERS WRITERS
      (Request "POST" "/" [("Transfer-Encoding", "gzip")] "1.1") (new CLIENT)
    = (inl e, c')
    ∧ our_state c' = ERROR.
Proof.
  destruct (transfer_encoding_must_be_chunked READERS WRITERS (new CLIENT)
              (Request "POST" "/" [("Transfer-Encoding", "gzip")] "1.1"))
    as (_ & Hsend & _).
  - split; [left; reflexivity|].
    exists [("Transfer-Encoding", "gzip")]. split; [reflexivity|]. split.
    + exists "Transfer-Encoding", "gzip". split; [apply list_elem_of_here|].
      reflexivity.
    + intros Heq. vm_compute in Heq. discriminate Heq.
  - exact I.
  - apply Hsend. intros Hs. vm_compute in Hs. discriminate Hs.
Defined.

(** C8 as first stated does not hold: a 204 response is sent whatever its
    Transfer-Encoding says, and where the value is rejected the failure is
    the framing assertion, not a protocol error. *)
Lemma transfer_encoding_not_rejected_uniformly :
  get_comma_header [("Transfer-Encoding", "gzip")] "Transfer-Encoding" = ["gzip"]
  ∧ (do_send (Response 204 [("Transfer-Encoding", "gzip")] "1.1")
       server_after_get).1
    = inr (Some ("HTTP/1.1 204 " ++ CRLF ++ "Transfer-Encoding: gzip" ++ CRLF
                 ++ CRLF)%string)
  ∧ our_state (after_send (Response 204 [("Transfer-Encoding", "gzip")] "1.1")
                 server_after_get) = SEND_BODY
  ∧ (do_send (Response 200 [("Transfer-Encoding", "gzip")] "1.1")
       server_after_get).1
    = inl AssertionError
  ∧ is_ProtocolError AssertionError = false.
Proof. by vm_compute. Qed.

Lemma prepare_to_reuse_resets_or_fails_witness :
  (prepare_to_reuse READERS WRITERS client_after_response).1 = inr ().
Proof.
  destruct (prepare_to_reuse_resets_or_fails READERS WRITERS
              client_after_response) as (_ & H & _).
  apply H.
  - split; vm_compute; reflexivity.
  - vm_compute. reflexivity.
Defined.

Lemma receive_data_after_close_witness :
  ∃ c',
    receive_data READERS WRITERS 0 (Some "x")
      (after_receive (Some "") server_after_response)
    = Some (inl (RuntimeError "received close, then received more data?"), c')
    ∧ their_state c' = ERROR.
Proof.
  destruct (receive_data_after_close READERS WRITERS 0 "x"
              (after_receive (Some "") server_after_response))
    as (c' & Hr & _ & Hs & _).
  - vm_compute. reflexivity.
  - reflexivity.
  - intros Hs. vm_compute in Hs. discriminate Hs.
  - exists c'. split; [exact Hr|exact Hs].
Defined.

(** C10 as first stated does not hold when the state of their role is
    already [ERROR]: the call then fails with the protocol error of the
    entry check. *)
Lemma receive_data_after_close_in_ERROR :
  _receive_buffer_closed server_after_truncated_request = true
  ∧ their_state server_after_truncated_request = ERROR
  ∧ fst <$> receive_data READERS WRITERS 5 (Some "x")
               server_after_truncated_request
    = Some (inl (ProtocolError "Can't receive data when peer state is ERROR"
                   None)).
Proof. by vm_compute. Qed.

(** ** Further runs *)

Import ExampleRuns.

Lemma configuration_is_fixed_witness :
  our_role (after_passthrough get_request (new CLIENT)) = CLIENT.
Proof.
  destruct (configuration_is_fixed READERS WRITERS (new CLIENT)) as [H _].
  destruct (H get_request (inr (passthrough get_request (new CLIENT)))
              (after_passthrough get_request (new CLIENT))) as [Hr _].
  - vm_compute. reflexivity.
  - exact Hr.
Defined.

Lemma end_of_file_stays_recorded_witness :
  _receive_buffer_closed
    (prepare_to_reuse READERS WRITERS server_after_truncated_request).2 = true.
Proof.
  destruct (end_of_file_stays_recorded READERS WRITERS
              server_after_truncated_request) as (_ & _ & H).
  - vm_compute. reflexivity.
  - apply (H (prepare_to_reuse READERS WRITERS server_after_truncated_request).1).
    vm_compute. reflexivity.
Defined.

Lemma send_leaves_the_receive_side_witness :
  trailing_data (after_send (Data "hello") (after_send hello_response server_after_get))
  = trailing_data (after_send hello_response server_after_get).
Proof.
  apply (send_leaves_the_receive_side READERS WRITERS
           (after_send hello_response server_after_get) (Data "hello")
           (inr (Some ["hello"]))).
  vm_compute. reflexivity.
Defined.

Lemma prepare_to_reuse_keeps_trailing_data_witness :
  trailing_data (prepare_to_reuse READERS WRITERS client_after_response).2
  = trailing_data client_after_response.
Proof.
  apply (prepare_to_reuse_keeps_trailing_data READERS WRITERS
           client_after_response (inr ())).
  vm_compute. reflexivity.
Defined.

Lemma their_http_version_is_the_last_received_witness :
  their_http_version server_after_get = Some "1.1".
Proof.
  rewrite (their_http_version_is_the_last_received READERS WRITERS
             30 (Some get_request_bytes) (new SERVER)
             [get_request; EndOfMessage []] server_after_get).
  - reflexivity.
  - vm_compute. reflexivity.
Defined.

Lemma request_method_is_the_last_request_witness :
  _request_method server_after_get = Some "GET".
Proof.
  destruct (request_method_is_the_last_request READERS WRITERS (new SERVER))
    as [H _].
  rewrite (H 30%nat (Some get_request_bytes) [get_request; EndOfMessage []]
             server_after_get).
  - reflexivity.
  - vm_compute. reflexivity.
Defined.

Lemma waiting_for_100_continue_follows_the_events_witness :
  they_are_waiting_for_100_continue (after_send hello_response server_after_get)
  = false.
Proof.
  destruct (waiting_for_100_continue_follows_the_events READERS WRITERS
              server_after_get) as (_ & _ & H).
  apply (H hello_response (passthrough hello_response server_after_get)).
  - vm_compute. reflexivity.
  - right. reflexivity.
Defined.

Lemma only_the_last_event_is_final_witness :
  S 0 = List.length [Paused (their_state server_after_connect)].
Proof.
  apply (only_the_last_event_is_final READERS WRITERS 1 (Some "xyz")
           server_after_connect [Paused (their_state server_after_connect)]
           (fed (Some "xyz") server_after_connect) 0
           (Paused (their_state server_after_connect))).
  - vm_compute. reflexivity.
  - reflexivity.
  - left. reflexivity.
Defined.

Lemma send_returns_None_for_ConnectionClosed_witness :
  (@None bytes = None ↔ ConnectionClosed = ConnectionClosed).
Proof.
  apply (send_returns_None_for_ConnectionClosed READERS WRITERS ConnectionClosed
           client_after_response None
           (after_send ConnectionClosed client_after_response)).
  vm_compute. reflexivity.
Defined.

Lemma send_serializes_with_the_writer_before_the_event_witness :
  ∃ w, _writer (new CLIENT) = Some w
       ∧ (call_writer w get_request).1
         = inr (default [] (passthrough get_request (new CLIENT))).
Proof.
  destruct (send_serializes_with_the_writer_before_the_event READERS WRITERS
              get_request (new CLIENT)
              (default [] (passthrough get_request (new CLIENT)))
              (after_passthrough get_request (new CLIENT)))
    as (w & event' & Hw & Hev & Hd & _).
  - vm_compute. reflexivity.
  - simpl in Hev. subst event'. exists w. split; [exact Hw|exact Hd].
Defined.

Lemma incomplete_input_is_buffered_witness :
  receive_data READERS WRITERS 1 (Some "GET / HT") (new SERVER)
  = Some (inr [], set_receive_buffer "GET / HT"
                    (set_reader (Some ReadRequest) (new SERVER))).
Proof.
  apply (incomplete_input_is_buffered READERS WRITERS 0 "GET / HT" (new SERVER)
           ReadRequest ReadRequest "GET / HT").
  - reflexivity.
  - reflexivity.
  - intros Hs. vm_compute in Hs. discriminate Hs.
  - intros Hs. vm_compute in Hs. discriminate Hs.
  - intros Hs. vm_compute in Hs. discriminate Hs.
  - intros Hs. vm_compute in Hs. discriminate Hs.
  - reflexivity.
  - vm_compute. reflexivity.
  - vm_compute. discriminate.
Defined.

Lemma calls_after_an_error_fail_witness :
  ∃ errors,
    calls READERS WRITERS [ReceiveData 0 None; PrepareToReuse; ReceiveData 5 (Some "x")]
      server_after_truncated_request
    = Some (errors, server_after_truncated_request)
    ∧ List.length errors = 3%nat.
Proof.
  destruct (calls_after_an_error_fail READERS WRITERS
              (after_receive (Some "GET / HT") (new SERVER))) as [H _].
  destruct (H 10%nat (Some "")
              (ProtocolError "peer unexpectedly closed connection" None)
              server_after_truncated_request
              [ReceiveData 0 None; PrepareToReuse; ReceiveData 5 (Some "x")])
    as (_ & errors & Hcalls & Hlen & _).
  - vm_compute. reflexivity.
  - repeat constructor.
  - exists errors. split; [exact Hcalls|exact Hlen].
Defined.

Lemma cleanup_touches_only_framing_headers_witness :
  ∃ headers',
    (_clean_up_response_headers_for_sending
       (Response 200 [("Server", "h11"); ("Connection", "keep-alive")] "1.1")
       server_after_get).1
    = inr (Response 200 headers' "1.1")
    ∧ other_headers headers' = [("Server", "h11")].
Proof.
  destruct (cleanup_touches_only_framing_headers server_after_get 200
              [("Server", "h11"); ("Connection", "keep-alive")] "1.1"
              (Response 200
                 [("Server", "h11"); ("Connection", "keep-alive");
                  ("Transfer-Encoding", "chunked")] "1.1")
              server_after_get) as (headers' & Hev & _ & Hother & _).
  - vm_compute. reflexivity.
  - exists headers'. split.
    + injection Hev as <-. vm_compute. reflexivity.
    + rewrite Hother. vm_compute. reflexivity.
Defined.

Lemma requests_are_never_read_until_close_witness :
  _body_framing (Some "POST") (Some get_request) = inr (content_length 0).
Proof.
  destruct (requests_are_never_read_until_close (Some "POST") "GET" "/"
              [("Host", "localhost")] "1.1") as (_ & _ & H).
  apply H; reflexivity.
Defined.

Lemma normalize_data_events_merges_neighbours_witness :
  ∃ out store' outs,
    normalize_data_events [1; 2; 3]%positive
      three_events
    = Some (out, store')
    ∧ refers_to store' out outs
    ∧ no_adjacent_data outs = true.
Proof.
  apply (normalize_data_events_merges_neighbours [1; 2; 3]%positive _
           [Data "ab"; Data "c"; EndOfMessage []]).
  - apply (bool_decide_unpack _). vm_compute. exact I.
  - repeat constructor.
Defined.

Lemma normalize_data_events_keeps_the_stream_witness :
  ∃ out store' outs,
    normalize_data_events [1; 2; 3]%positive
      three_events
    = Some (out, store')
    ∧ refers_to store' out outs
    ∧ stream_of outs = stream_of [Data "ab"; Data "c"; EndOfMessage []]
    ∧ (∀ l, l ∉ [1; 2; 3]%positive →
            store' !! l
            = three_events !! l).
Proof.
  apply (normalize_data_events_keeps_the_stream [1; 2; 3]%positive _
           [Data "ab"; Data "c"; EndOfMessage []]).
  - apply (bool_decide_unpack _). vm_compute. exact I.
  - repeat constructor.
Defined.

Lemma normalize_data_events_twice_witness :
  normalize_data_events [1; 3]%positive (<[1%positive := Data "abc"]> three_events)
  = Some ([1; 3]%positive, <[1%positive := Data "abc"]> three_events).
Proof.
  apply (normalize_data_events_twice [1; 2; 3]%positive
           three_events
           [Data "ab"; Data "c"; EndOfMessage []]).
  - apply (bool_decide_unpack _). vm_compute. exact I.
  - repeat constructor.
  - vm_compute. reflexivity.
Defined.

Lemma codecs_follow_the_state_witness :
  _reader (_process_event READERS WRITERS SERVER hello_response server_after_get).2
  = _reader server_after_get.
Proof.
  destruct (codecs_follow_the_state READERS WRITERS SERVER hello_response
              server_after_get (inr ())
              (_process_event READERS WRITERS SERVER hello_response
                 server_after_get).2) as (_ & Hr & _).
  - vm_compute. reflexivity.
  - apply Hr. vm_compute. reflexivity.
Defined.

Lemma prepare_to_reuse_resets_the_codecs_witness :
  _writer (prepare_to_reuse READERS WRITERS client_after_response).2
  = _writer (new CLIENT).
Proof.
  destruct (prepare_to_reuse_resets_the_codecs READERS WRITERS
              client_after_response
              (prepare_to_reuse READERS WRITERS client_after_response).2)
    as [Hw _].
  - vm_compute. reflexivity.
  - rewrite Hw. reflexivity.
Defined.

Lemma keep_alive_never_comes_back_witness :
  keep_alive (_cstate server_after_get) = true.
Proof.
  destruct (keep_alive_never_comes_back READERS WRITERS (new SERVER))
    as (_ & _ & _ & H).
  rewrite (H 30%nat (Some get_request_bytes) [get_request; EndOfMessage []]
             server_after_get).
  - reflexivity.
  - vm_compute. reflexivity.
Defined.

(** The events must be distinct objects: a [Data] object that occurs three
    times in the list is added to itself twice, which doubles its payload
    each time. *)
Example normalize_data_events_same_object_thrice :
  normalize_data_events [1; 1; 1]%positive {[1%positive := Data "a"]}
  = Some ([1%positive], {[1%positive := Data "aaaa"]}).
Proof. vm_compute. reflexivity. Qed.
